(** * Logarithmic grid strategy: price levels, reconciliation, order intents

    A shallow embedding of [aster_log_grid_strategy.py]:
    - [calculate_grid_levels] (the grid level calculator),
    - the body of the grid maintenance loop of [__main__] (the reconciler),
      on entries whose fields are text and on the JSON the exchange sends,
    - [place_limit_order] (the order intent emitter),
    - [make_signed_request] with [generate_signature], and the result of
      [get_open_orders] (the signed requests to the exchange),
    together with the part of Python's [decimal] arithmetic and of
    [urllib.parse.urlencode] they run on.

    Numbers are Python [decimal.Decimal] values in the default context
    (28 significant digits, ROUND_HALF_EVEN, Emax = 999999, Emin = -999999,
    traps on InvalidOperation, DivisionByZero and Overflow).  A finite
    decimal is a signed integer coefficient and an exponent; the sign of a
    zero is not tracked, since no operation used here (comparison, hashing,
    arithmetic, quantize) tells [-0] from [0]. *)

From Stdlib Require Import ZArith Lia Bool Ascii.
From Stdlib Require OrdersEx.
From stdpp Require Import gmap strings list sorting pretty.

Local Open Scope Z_scope.

(** ** Exceptions and results *)

Inductive exn : Type :=
| InvalidOperation   (* decimal.InvalidOperation and its subclasses *)
| DivisionByZero     (* decimal.DivisionByZero *)
| Overflow           (* decimal.Overflow, an ArithmeticError but no OverflowError *)
| OverflowError      (* the builtin OverflowError *)
| KeyError           (* a missing dictionary key *)
| TypeError.         (* the builtin TypeError *)

Inductive Result (A : Type) : Type :=
| Ok (a : A)
| Raise (e : exn).
Arguments Ok {A} a.
Arguments Raise {A} e.

#[global] Instance exn_eq_dec : EqDecision exn.
Proof. solve_decision. Defined.

#[global] Instance Result_ret : MRet Result := fun _ a => Ok a.
#[global] Instance Result_bind : MBind Result := fun _ _ f m =>
  match m with
  | Ok a => f a
  | Raise e => Raise e
  end.
#[global] Instance Result_fmap : FMap Result := fun _ _ f m =>
  match m with
  | Ok a => Ok (f a)
  | Raise e => Raise e
  end.

(** A loop whose body may raise: the state reached and the exception, if
    any, that ended it. *)
Fixpoint fold_abort {S A : Type} (f : S -> A -> S * option exn) (s : S) (l : list A)
  : S * option exn :=
  match l with
  | [] => (s, None)
  | a :: l' =>
      match f s a with
      | (s', None) => fold_abort f s' l'
      | (s', Some e) => (s', Some e)
      end
  end.

(** ** Finite decimals *)

Record Decimal : Type := mkDecimal { coef : Z; expo : Z }.

#[global] Instance Decimal_eq_dec : EqDecision Decimal.
Proof. solve_decision. Defined.

#[global] Instance Decimal_countable : Countable Decimal.
Proof.
  apply (inj_countable' (fun d => (coef d, expo d))
                        (fun p => mkDecimal (fst p) (snd p))).
  intros [c e]; reflexivity.
Defined.

(** The default context. *)
Definition prec : Z := 28.
Definition Emax : Z := 999999.
Definition Emin : Z := -999999.
Definition Etiny : Z := Emin - prec + 1.
Definition Etop : Z := Emax - prec + 1.

Inductive rounding : Type := ROUND_DOWN | ROUND_HALF_EVEN.

(** [len(self._int)]: the number of decimal digits of the coefficient
    (1 for a zero coefficient). *)
Fixpoint ndigits_fuel (fuel : nat) (n : Z) : Z :=
  match fuel with
  | O => 1
  | S f => if n <? 10 then 1 else 1 + ndigits_fuel f (n / 10)
  end.

Definition ndigits (c : Z) : Z :=
  ndigits_fuel (Z.to_nat (Z.log2 (Z.abs c))) (Z.abs c).

(** [self.adjusted()]: the exponent of the leading digit. *)
Definition adjusted (d : Decimal) : Z := expo d + ndigits (coef d) - 1.

(** Dropping the [k] low digits of a magnitude [m] (the [_round_down] and
    [_round_half_even] methods, on numbers rather than digit strings). *)
Definition round_mag (r : rounding) (m k : Z) : Z :=
  let q := m / 10 ^ k in
  let rest := m mod 10 ^ k in
  match r with
  | ROUND_DOWN => q
  | ROUND_HALF_EVEN =>
      if (10 ^ k <? 2 * rest) || ((10 ^ k =? 2 * rest) && Z.odd q)
      then q + 1 else q
  end.

Definition round_coef (r : rounding) (c k : Z) : Z :=
  Z.sgn c * round_mag r (Z.abs c) k.

(** [self._rescale(exp, rounding)] *)
Definition rescale (d : Decimal) (e : Z) (r : rounding) : Decimal :=
  if coef d =? 0 then mkDecimal 0 e
  else if e <=? expo d then mkDecimal (coef d * 10 ^ (expo d - e)) e
  else mkDecimal (round_coef r (coef d) (e - expo d)) e.

(** [self._fix(context)]: round to the context precision; a result above
    Emax raises Overflow, a result below Emin is rounded to Etiny. *)
Definition Dfix (d : Decimal) : Result Decimal :=
  if coef d =? 0 then
    Ok (mkDecimal 0 (Z.min (Z.max (expo d) Etiny) Emax))
  else
    let exp_min := ndigits (coef d) + expo d - prec in
    if Etop <? exp_min then Raise Overflow
    else
      let exp_min := Z.max exp_min Etiny in
      if expo d <? exp_min then
        let c := round_coef ROUND_HALF_EVEN (coef d) (exp_min - expo d) in
        if prec <? ndigits c then
          if Etop <? exp_min + 1 then Raise Overflow
          else Ok (mkDecimal (Z.quot c 10) (exp_min + 1))
        else Ok (mkDecimal c exp_min)
      else Ok d.

(** [Decimal(str(i))] and [Decimal(i)] for a Python int [i]: exact. *)
Definition Decimal_of_int (i : Z) : Decimal := mkDecimal i 0.

(** [self._cmp(other)], which [<], [<=], [>], [==] and hashing follow:
    comparison by numeric value. *)
Definition Dcompare (a b : Decimal) : comparison :=
  let e := Z.min (expo a) (expo b) in
  (coef a * 10 ^ (expo a - e)) ?= (coef b * 10 ^ (expo b - e)).

Definition Dltb (a b : Decimal) : bool :=
  match Dcompare a b with Lt => true | _ => false end.
Definition Dleb (a b : Decimal) : bool :=
  match Dcompare a b with Gt => false | _ => true end.
Definition Dgtb (a b : Decimal) : bool := Dltb b a.
Definition Deqb (a b : Decimal) : bool :=
  match Dcompare a b with Eq => true | _ => false end.

(** [a + b] and [a - b]: the exact sum at the smaller exponent, rounded by
    [Dfix].  ([_normalize] replaces an operand far below the precision of
    the other by a small stand-in; after rounding the sum is the same.) *)
Definition Dadd (a b : Decimal) : Result Decimal :=
  let e := Z.min (expo a) (expo b) in
  Dfix (mkDecimal (coef a * 10 ^ (expo a - e) + coef b * 10 ^ (expo b - e)) e).

Definition copy_negate (a : Decimal) : Decimal := mkDecimal (- coef a) (expo a).

Definition Dsub (a b : Decimal) : Result Decimal := Dadd a (copy_negate b).

(** [abs(a)] *)
Definition Dabs (a : Decimal) : Result Decimal :=
  Dfix (mkDecimal (Z.abs (coef a)) (expo a)).

(** [a * b] *)
Definition Dmul (a b : Decimal) : Result Decimal :=
  Dfix (mkDecimal (coef a * coef b) (expo a + expo b)).

(** The loop of [__truediv__] that brings an exact quotient as close to its
    ideal exponent as its trailing zeros allow. *)
Fixpoint strip_zeros (fuel : nat) (c e : Z) : Z * Z :=
  match fuel with
  | O => (c, e)
  | S f => if c mod 10 =? 0 then strip_zeros f (c / 10) (e + 1) else (c, e)
  end.

(** [a / b] *)
Definition Ddiv (a b : Decimal) : Result Decimal :=
  if coef b =? 0 then
    if coef a =? 0 then Raise InvalidOperation else Raise DivisionByZero
  else if coef a =? 0 then Dfix (mkDecimal 0 (expo a - expo b))
  else
    let sign := Z.sgn (coef a) * Z.sgn (coef b) in
    let shift := ndigits (coef b) - ndigits (coef a) + prec + 1 in
    let e := expo a - expo b - shift in
    let n := if 0 <=? shift then Z.abs (coef a) * 10 ^ shift else Z.abs (coef a) in
    let m := if 0 <=? shift then Z.abs (coef b) else Z.abs (coef b) * 10 ^ (- shift) in
    let q := n / m in
    if n mod m =? 0 then
      let '(q', e') := strip_zeros (Z.to_nat (expo a - expo b - e)) q e in
      Dfix (mkDecimal (sign * q') e')
    else
      Dfix (mkDecimal (sign * (if q mod 5 =? 0 then q + 1 else q)) e).

(** [self.quantize(exp, rounding)] for a finite [self] and a finite [exp]. *)
Definition quantize (d q : Decimal) (r : rounding) : Result Decimal :=
  if negb ((Etiny <=? expo q) && (expo q <=? Emax)) then Raise InvalidOperation
  else if coef d =? 0 then Dfix (mkDecimal 0 (expo q))
  else if Emax <? adjusted d then Raise InvalidOperation
  else if prec <? adjusted d - expo q + 1 then Raise InvalidOperation
  else
    let ans := rescale d (expo q) r in
    if Emax <? adjusted ans then Raise InvalidOperation
    else if prec <? ndigits (coef ans) then Raise InvalidOperation
    else Dfix ans.

(** ** Power

    [x ** y] is the one operation of the context whose last digit the
    decimal specification leaves open (the result may be off by one unit in
    the last place, and implementations differ there), so the calculator
    below takes it as a parameter.  [Dpow_cr] is the instance used for
    closed evaluations: the correctly rounded power, [x ** (p/q)] being the
    [q]-th root of [x ^ p] rounded half-even to 28 digits. *)

(** The integer [q]-th root by bisection: the largest [s] with [s ^ q <= n]. *)
Fixpoint iroot_bisect (fuel : nat) (q n lo hi : Z) : Z :=
  match fuel with
  | O => lo
  | S f =>
      if hi - lo <=? 1 then lo
      else
        let mid := (lo + hi) / 2 in
        if mid ^ q <=? n then iroot_bisect f q n mid hi
        else iroot_bisect f q n lo mid
  end.

Definition iroot (q n : Z) : Z :=
  iroot_bisect (Z.to_nat (Z.log2 n + 2)) q n 0 (2 ^ (Z.log2 n / q + 1)).

(** The exponent of the leading digit of the positive rational [a / b]. *)
Definition adjusted_ratio (a b : Z) : Z :=
  let d := ndigits a - ndigits b in
  if (if 0 <=? d then b * 10 ^ d <=? a else b <=? a * 10 ^ (- d)) then d else d - 1.

(** The [q]-th root of the positive rational [a / b], rounded half-even to
    [prec] digits, with the sign [sign]. *)
Definition root_round (sign q a b : Z) : Result Decimal :=
  let t := adjusted_ratio a b / q - (prec - 1) in
  let num := if q * t <=? 0 then a * 10 ^ (- (q * t)) else a in
  let den := if q * t <=? 0 then b else b * 10 ^ (q * t) in
  let s := iroot q (num / den) in
  let up :=
    match (2 * s + 1) ^ q * den ?= 2 ^ q * num with
    | Lt => true
    | Eq => Z.odd s
    | Gt => false
    end in
  Dfix (mkDecimal (sign * (if up then s + 1 else s)) t).

(** [|y|] as a fraction in lowest terms. *)
Definition fraction (y : Decimal) : Z * Z :=
  let n := if 0 <=? expo y then Z.abs (coef y) * 10 ^ expo y else Z.abs (coef y) in
  let d := if 0 <=? expo y then 1 else 10 ^ (- expo y) in
  let g := Z.gcd n d in
  (n / g, d / g).

Definition Dpow_cr (x y : Decimal) : Result Decimal :=
  if coef y =? 0 then
    if coef x =? 0 then Raise InvalidOperation   (* 0 ** 0 *)
    else Ok (mkDecimal 1 0)
  else if coef x =? 0 then
    if 0 <? coef y then Ok (mkDecimal 0 0)
    else Raise InvalidOperation   (* Python: Infinity, which is not a finite decimal *)
  else
    let '(p, q) := fraction y in
    if (coef x <? 0) && negb (q =? 1) then Raise InvalidOperation
    else
      let sign := if (coef x <? 0) && Z.odd p then -1 else 1 in
      if (q =? 1) && (0 <? coef y) then
        Dfix (mkDecimal (sign * Z.abs (coef x) ^ p) (expo x * p))
      else
        let a := Z.abs (coef x) ^ p * (if 0 <=? expo x then 10 ^ (expo x * p) else 1) in
        let b := if 0 <=? expo x then 1 else 10 ^ (- expo x * p) in
        if 0 <? coef y then root_round sign q a b else root_round sign q b a.

(** ** The grid level calculator *)

(** Precision settings of the script (CRVUSDT). *)
Definition PRICE_PRECISION : Decimal := mkDecimal 1 (-4).     (* Decimal('0.0001') *)
Definition QUANTITY_PRECISION : Decimal := mkDecimal 1 0.     (* Decimal('1') *)
Definition TICK_SIZE : Decimal := mkDecimal 1 (-4).

(** [sorted(l, reverse=True)]: descending by value. *)
Definition Dge (a b : Decimal) : Prop := Dleb b a = true.
#[global] Instance Dge_dec : RelDecision Dge.
Proof. intros a b; unfold Dge; apply _. Defined.

Definition sorted_reverse (l : list Decimal) : list Decimal := merge_sort Dge l.

(** The uniqueness loop of [calculate_grid_levels]: [x] is kept when it
    differs from its predecessor in the sorted list by more than the
    tolerance. *)
Fixpoint unique_from (tolerance prev : Decimal) (rest : list Decimal)
  : Result (list Decimal) :=
  match rest with
  | [] => Ok []
  | x :: rest' =>
      d ← Dsub x prev;
      a ← Dabs d;
      tl ← unique_from tolerance x rest';
      mret (if Dgtb a tolerance then x :: tl else tl)
  end.

Definition unique_levels (tolerance : Decimal) (temp_sorted : list Decimal)
  : Result (list Decimal) :=
  match temp_sorted with
  | [] => Ok []
  | x :: rest => tl ← unique_from tolerance x rest; mret (x :: tl)
  end.

Section GridLevels.

(** [x ** y] in the context: a finite result or an exception. *)
Variable Dpow : Decimal -> Decimal -> Result Decimal.

(** [ratio = (upper_price / lower_price) ** (Decimal(1) / Decimal(str(num_grids)))] *)
Definition grid_ratio (upper_price lower_price : Decimal) (num_grids : Z)
  : Result Decimal :=
  q ← Ddiv upper_price lower_price;
  e ← Ddiv (Decimal_of_int 1) (Decimal_of_int num_grids);
  Dpow q e.

(** [lower_price * (ratio ** Decimal(str(i)))] *)
Definition raw_level (lower_price ratio : Decimal) (i : Z) : Result Decimal :=
  p ← Dpow ratio (Decimal_of_int i);
  Dmul lower_price p.

(** The body of the [try]: the levels before quantization. *)
Definition raw_levels (upper_price lower_price : Decimal) (num_grids : Z)
  : Result (list Decimal) :=
  ratio ← grid_ratio upper_price lower_price num_grids;
  mapM (raw_level lower_price ratio) (seqZ 0 (num_grids + 1)).

(** [calculate_grid_levels(upper_price, lower_price, num_grids)], on the
    decimals [Decimal(str(upper_price))] and [Decimal(str(lower_price))].
    [Ok []] is the error return of the function (it prints [[ERROR] ...]
    and returns the empty list); [Raise] is an exception that leaves it. *)
Definition calculate_grid_levels (upper_price lower_price : Decimal) (num_grids : Z)
  : Result (list Decimal) :=
  if Dleb upper_price lower_price || (num_grids <? 1) then Ok []
  else if Dleb lower_price (Decimal_of_int 0) then Ok []
  else
    match raw_levels upper_price lower_price num_grids with
    | Raise InvalidOperation | Raise OverflowError => Ok []
    | Raise e => Raise e
    | Ok levels =>
        formatted_levels ← mapM (fun lvl => quantize lvl PRICE_PRECISION ROUND_DOWN) levels;
        tolerance ← Ddiv PRICE_PRECISION (Decimal_of_int 2);
        unique_levels tolerance (sorted_reverse formatted_levels)
    end.

End GridLevels.

(** ** The order intent emitter *)

(** [str(d)] for a finite decimal: the scientific string of the decimal
    specification (plain notation when the exponent is at most 0 and the
    number is not too small). *)
Definition digit_string (c : Z) : string := pretty (Z.to_N (Z.abs c)).

Fixpoint zeros (n : nat) : string :=
  match n with
  | O => ""
  | S n' => "0" +:+ zeros n'
  end.

Definition Decimal_str (d : Decimal) : string :=
  let sign := if coef d <? 0 then "-" else "" in
  let int := digit_string (coef d) in
  let len := Z.of_nat (String.length int) in
  let leftdigits := expo d + len in
  let dotplace := if (expo d <=? 0) && (-6 <? leftdigits) then leftdigits else 1 in
  let intpart :=
    if dotplace <=? 0 then "0"
    else if len <=? dotplace then int +:+ zeros (Z.to_nat (dotplace - len))
    else String.substring 0 (Z.to_nat dotplace) int in
  let fracpart :=
    if dotplace <=? 0 then "." +:+ zeros (Z.to_nat (- dotplace)) +:+ int
    else if len <=? dotplace then ""
    else "." +:+ String.substring (Z.to_nat dotplace) (Z.to_nat (len - dotplace)) int in
  let e :=
    if leftdigits =? dotplace then ""
    else "E" +:+ (if 0 <=? leftdigits - dotplace then "+" else "-")
             +:+ digit_string (leftdigits - dotplace) in
  sign +:+ intpart +:+ fracpart +:+ e.

(** [s.upper()] on ASCII text. *)
Definition ascii_upper (a : Ascii.ascii) : Ascii.ascii :=
  let n := Ascii.nat_of_ascii a in
  if (Nat.leb 97 n && Nat.leb n 122)%bool then Ascii.ascii_of_nat (n - 32) else a.

Fixpoint upper (s : string) : string :=
  match s with
  | EmptyString => EmptyString
  | String a s' => String (ascii_upper a) (upper s')
  end.

(** The [params] dictionary that [place_limit_order] hands to
    [make_signed_request('POST', "/fapi/v1/order", params)]: the order
    intent. *)
Record OrderParams : Type := mkParams {
  p_symbol : string;
  p_side : string;
  p_type : string;
  p_quantity : string;
  p_price : string;
  p_timeInForce : string
}.

#[global] Instance OrderParams_eq_dec : EqDecision OrderParams.
Proof. solve_decision. Defined.

(** [place_limit_order(symbol, side, quantity, price)] up to the signed
    request: [Ok params] is the request it sends, [Raise] an exception of
    one of the two [quantize] calls.  The minimum checks of the source
    (minQty, minNotional) are commented out there and so are absent here. *)
Definition place_limit_order (symbol side : string) (quantity price : Decimal)
  : Result OrderParams :=
  formatted_price ← quantize price PRICE_PRECISION ROUND_DOWN;
  formatted_quantity ← quantize quantity QUANTITY_PRECISION ROUND_DOWN;
  mret {| p_symbol := symbol;
          p_side := upper side;
          p_type := "LIMIT";
          p_quantity := Decimal_str formatted_quantity;
          p_price := Decimal_str formatted_price;
          p_timeInForce := "GTC" |}.

(** ** The grid reconciler: one pass of the maintenance loop *)

Inductive Side : Type := BUY | SELL.

#[global] Instance Side_eq_dec : EqDecision Side.
Proof. solve_decision. Defined.

Definition Side_str (s : Side) : string :=
  match s with
  | BUY => "BUY"
  | SELL => "SELL"
  end.

(** What [decimal.Decimal(text)] can return. *)
Inductive DecimalValue : Type :=
| Finite (d : Decimal)
| Infinity (negative : bool)
| NaN (signaling : bool).

(** An entry of the list [get_open_orders] returns: a JSON object of the
    exchange, whose text fields are strings; [None] is an absent key.  An
    entry whose price or side is JSON of another kind is a [JsonOrder],
    further down. *)
Record OpenOrder : Type := mkOrder {
  o_orderId : option Z;
  o_side : option string;
  o_price : option string;
  o_origQty : option string;
  o_status : option string
}.

(** A pending placement: the call
    [place_limit_order(TARGET_SYMBOL, side, Decimal(str(ORDER_QTY_PER_GRID)), level_quantized)]. *)
Record Placement : Type := mkPlacement { pl_level : Decimal; pl_side : Side }.

#[global] Instance Placement_eq_dec : EqDecision Placement.
Proof. solve_decision. Defined.

(** The answer of the exchange to an order request, as [make_signed_request]
    returns it: [None], or a JSON object that may hold an ['orderId']. *)
Inductive PlaceResult : Type :=
| NoResponse
| Response (orderId : option Z).

(** Parameters of the script. *)
Definition TARGET_SYMBOL : string := "CRVUSDT".
Definition ORDER_QTY_PER_GRID : Z := 10.

(** The variables of the loop that live on from one pass to the next. *)
Record LoopVars : Type := mkVars {
  open_order_prices : gmap string (gset Decimal);
  placed_orders_this_cycle : Z
}.

(** What one pass does: the placements it calls for; the [params] of its
    calls of [place_limit_order], which go to [make_signed_request] (that
    sends them unless the server time cannot be fetched); the warnings
    printed; and the exception that ended the pass early, if any (the
    [except Exception] of the loop prints it). *)
Record TickOutput : Type := mkOutput {
  placements : list Placement;
  requests : list OrderParams;
  warnings : list (option Z * exn);
  tick_error : option exn
}.

Section Reconciler.

(** [decimal.Decimal(text)] for a string; [None] when the constructor
    raises [InvalidOperation]. *)
Variable Decimal_of_str : string -> option DecimalValue.

(** [value.quantize(q)] in the context rounding: a quiet NaN passes, an
    infinity or a signaling NaN raises. *)
Definition quantize_value (v : DecimalValue) (q : Decimal) : Result DecimalValue :=
  match v with
  | Finite d => Finite <$> quantize d q ROUND_HALF_EVEN
  | Infinity _ => Raise InvalidOperation
  | NaN false => Ok (NaN false)
  | NaN true => Raise InvalidOperation
  end.

(** [decimal.Decimal(order['price']).quantize(PRICE_PRECISION)] *)
Definition order_price (order : OpenOrder) : Result DecimalValue :=
  text ← from_option Ok (Raise KeyError) (o_price order);
  v ← from_option Ok (Raise InvalidOperation) (Decimal_of_str text);
  quantize_value v PRICE_PRECISION.

(** [open_order_prices[order['side']].add(order_price)].  A quiet NaN is
    stored by Python but equals no decimal, so no membership test of a
    level finds it; the sets here hold the finite members. *)
Definition add_order_price (prices : gmap string (gset Decimal))
    (order : OpenOrder) (price : DecimalValue)
  : Result (gmap string (gset Decimal)) :=
  side ← from_option Ok (Raise KeyError) (o_side order);
  members ← from_option Ok (Raise KeyError) (prices !! side);
  mret (match price with
        | Finite p => <[side := {[p]} ∪ members]> prices
        | _ => prices
        end).

(** The body of [for order in open_orders_list], with its
    [except (KeyError, decimal.InvalidOperation)]. *)
Definition record_order
    (acc : gmap string (gset Decimal) * list (option Z * exn)) (order : OpenOrder)
  : (gmap string (gset Decimal) * list (option Z * exn)) * option exn :=
  match (price ← order_price order; add_order_price acc.1 order price) with
  | Ok prices => ((prices, acc.2), None)
  | Raise KeyError => ((acc.1, acc.2 ++ [(o_orderId order, KeyError)]), None)
  | Raise InvalidOperation =>
      ((acc.1, acc.2 ++ [(o_orderId order, InvalidOperation)]), None)
  | Raise e => (acc, Some e)
  end.

Definition no_open_orders : gmap string (gset Decimal) :=
  <["BUY" := ∅]> (<["SELL" := ∅]> ∅).

Definition collect_open_order_prices (open_orders_list : list OpenOrder)
  : (gmap string (gset Decimal) * list (option Z * exn)) * option exn :=
  fold_abort record_order (no_open_orders, []) open_orders_list.

(** What the loop decides for one level: the placement to call for, if any. *)
Definition level_action (prices : gmap string (gset Decimal))
    (current_price level_price : Decimal) : Result (option Placement) :=
  if Dltb level_price current_price then
    level_quantized ← quantize level_price PRICE_PRECISION ROUND_HALF_EVEN;
    buys ← from_option Ok (Raise KeyError) (prices !! "BUY");
    mret (if decide (level_quantized ∈ (buys : gset Decimal)) then None
          else Some (mkPlacement level_quantized BUY))
  else if Dgtb level_price current_price then
    level_quantized ← quantize level_price PRICE_PRECISION ROUND_HALF_EVEN;
    sells ← from_option Ok (Raise KeyError) (prices !! "SELL");
    mret (if decide (level_quantized ∈ (sells : gset Decimal)) then None
          else Some (mkPlacement level_quantized SELL))
  else Ok None.

(** The running state of [for level_price in grid_levels]. *)
Record Cycle : Type := mkCycle {
  c_placed : Z;
  c_calls : list Placement;
  c_requests : list OrderParams
}.

Definition maintain_level (transport : OrderParams -> PlaceResult)
    (prices : gmap string (gset Decimal)) (current_price : Decimal)
    (st : Cycle) (level_price : Decimal) : Cycle * option exn :=
  match level_action prices current_price level_price with
  | Raise e => (st, Some e)
  | Ok None => (st, None)
  | Ok (Some p) =>
      let st1 := mkCycle (c_placed st) (c_calls st ++ [p]) (c_requests st) in
      match place_limit_order TARGET_SYMBOL (Side_str (pl_side p))
              (Decimal_of_int ORDER_QTY_PER_GRID) (pl_level p) with
      | Raise e => (st1, Some e)
      | Ok params =>
          let placed :=
            match transport params with
            | Response (Some _) => c_placed st + 1
            | _ => c_placed st
            end in
          (mkCycle placed (c_calls st1) (c_requests st1 ++ [params]), None)
      end
  end.

(** One pass of [while True]: from the price and the open orders fetched
    to the end of the grid maintenance logic.  [current_price] is [None]
    when [get_current_price] returned [None], and a finite price
    otherwise; [transport] is what a call of [place_limit_order] returns
    for its [params]. *)
Definition grid_tick (vars : LoopVars) (transport : OrderParams -> PlaceResult)
    (grid_levels : list Decimal) (current_price : option Decimal)
    (open_orders_list : list OpenOrder) : LoopVars * TickOutput :=
  match current_price with
  | None => (vars, mkOutput [] [] [] None)
  | Some price =>
      match collect_open_order_prices open_orders_list with
      | ((prices, warned), Some e) =>
          (mkVars prices (placed_orders_this_cycle vars), mkOutput [] [] warned (Some e))
      | ((prices, warned), None) =>
          let '(st, err) :=
            fold_abort (maintain_level transport prices price)
                       (mkCycle 0 [] []) grid_levels in
          (mkVars prices (c_placed st),
           mkOutput (c_calls st) (c_requests st) warned err)
      end
  end.

(** The reconciler of the specification: the placements one pass calls
    for. *)
Definition reconcile (current_price : Decimal) (levels : list Decimal)
    (open_orders : list OpenOrder) : list Placement :=
  placements (grid_tick (mkVars ∅ 0) (fun _ => NoResponse) levels
                        (Some current_price) open_orders).2.

(** The side and the stored price of an open order, or the exception for
    which the loop skips it. *)
Definition order_entry (order : OpenOrder) : Result (string * DecimalValue) :=
  price ← order_price order;
  side ← from_option Ok (Raise KeyError) (o_side order);
  if decide (side = "BUY" \/ side = "SELL") then Ok (side, price) else Raise KeyError.

(** The side and quantized price at which an open order sits. *)
Definition order_key (order : OpenOrder) : option (string * Decimal) :=
  match order_entry order with
  | Ok (side, Finite p) => Some (side, p)
  | _ => None
  end.

Definition order_warning (order : OpenOrder) : list (option Z * exn) :=
  match order_entry order with
  | Raise e => [(o_orderId order, e)]
  | Ok _ => []
  end.

Definition price_on (side : string) (order : OpenOrder) : option Decimal :=
  match order_key order with
  | Some (s, p) => if decide (s = side) then Some p else None
  | None => None
  end.

(** The quantized prices at which open orders of one side sit. *)
Definition open_prices (side : string) (orders : list OpenOrder) : gset Decimal :=
  list_to_set (omap (price_on side) orders).

(** The (side, quantized price) pairs of a snapshot of open orders. *)
Definition order_keys (orders : list OpenOrder) : gset (string * Decimal) :=
  list_to_set (omap order_key orders).

End Reconciler.

(** A reader of plain numerals (an optional sign, digits, an optional
    fraction), used where an example needs a concrete constructor.  The
    constructor of the decimal module accepts more text than this
    (exponents, Infinity, NaN, blanks around the numeral); the examples use
    plain numerals and text that is no numeral at all. *)
Definition digit_of (a : Ascii.ascii) : option Z :=
  let n := Z.of_nat (Ascii.nat_of_ascii a) in
  if (48 <=? n) && (n <=? 57) then Some (n - 48) else None.

Fixpoint read_numeral (s : string) (acc : Z) (ndig : nat) (frac : option Z)
  : option Decimal :=
  match s with
  | EmptyString =>
      match ndig with
      | O => None
      | _ => Some (mkDecimal acc (- default 0 frac))
      end
  | String a s' =>
      if Ascii.eqb a "."%char then
        match frac with
        | None => read_numeral s' acc ndig (Some 0)
        | Some _ => None
        end
      else
        match digit_of a with
        | Some d => read_numeral s' (10 * acc + d) (S ndig) (Z.succ <$> frac)
        | None => None
        end
  end.

Definition Decimal_of_plain_str (s : string) : option DecimalValue :=
  match s with
  | String "-" s' =>
      (fun d => Finite (copy_negate d)) <$> read_numeral s' 0 O None
  | String "+" s' => Finite <$> read_numeral s' 0 O None
  | _ => Finite <$> read_numeral s 0 O None
  end.

(** ** The vocabulary of the properties *)

(** A price at the quantum [PRICE_PRECISION] that fits the context: four
    decimal places, a non-negative coefficient of at most 28 digits. *)
Definition price_level (d : Decimal) : Prop :=
  expo d = -4 /\ 0 <= coef d < 10 ^ prec.

#[global] Instance price_level_dec d : Decision (price_level d).
Proof. unfold price_level; apply _. Defined.

(** One full quantum at least between two levels. *)
Definition quantum_below (a b : Decimal) : Prop := coef b + 1 <= coef a.

(** The preconditions of a grid configuration, and their failure as the
    function tests it. *)
Definition valid_config (upper_price lower_price : Decimal) (num_grids : Z) : Prop :=
  Dltb lower_price upper_price = true /\
  Dltb (Decimal_of_int 0) lower_price = true /\
  1 <= num_grids.

Definition invalid_range (upper_price lower_price : Decimal) (num_grids : Z) : Prop :=
  Dleb upper_price lower_price = true \/ num_grids < 1 \/
  Dleb lower_price (Decimal_of_int 0) = true.

(** What the uniqueness loop computes on price levels: [x] is kept when it
    is not the level before it. *)
Fixpoint distinct_from (prev : Decimal) (l : list Decimal) : list Decimal :=
  match l with
  | [] => []
  | x :: l' =>
      if decide (x = prev) then distinct_from x l' else x :: distinct_from x l'
  end.

(** The deduplication in the words of the specification: walking the
    sorted levels, a level is dropped when its absolute difference from the
    previous kept level is at most the tolerance. *)
Fixpoint drop_near_kept (tolerance kept : Decimal) (rest : list Decimal)
  : Result (list Decimal) :=
  match rest with
  | [] => Ok []
  | x :: rest' =>
      d ← Dsub x kept;
      a ← Dabs d;
      if Dleb a tolerance then drop_near_kept tolerance kept rest'
      else tl ← drop_near_kept tolerance x rest'; mret (x :: tl)
  end.

Definition dedupe_spec (tolerance : Decimal) (levels : list Decimal)
  : Result (list Decimal) :=
  match levels with
  | [] => Ok []
  | x :: rest => tl ← drop_near_kept tolerance x rest; mret (x :: tl)
  end.

(** The absolute difference of [b] from [a], as the loop computes it,
    exceeds the tolerance. *)
Definition gap_exceeds (tolerance a b : Decimal) : Prop :=
  exists d g, Dsub b a = Ok d /\ Dabs d = Ok g /\ Dgtb g tolerance = true.

(** The product of two decimals before any rounding. *)
Definition Dmul_exact (a b : Decimal) : Decimal :=
  mkDecimal (coef a * coef b) (expo a + expo b).

(** [rounded] is [exact] up to half a unit of the last digit of [rounded]. *)
Definition within_half_ulp (exact rounded : Decimal) : Prop :=
  (coef exact = 0 /\ coef rounded = 0) \/
  (expo exact <= expo rounded /\
   2 * Z.abs (coef rounded * 10 ^ (expo rounded - expo exact) - coef exact)
   <= 10 ^ (expo rounded - expo exact)).

Definition prices_of (buys sells : gset Decimal) : gmap string (gset Decimal) :=
  <["BUY" := buys]> (<["SELL" := sells]> ∅).

Definition option_set (x : option Decimal) : gset Decimal :=
  match x with
  | Some p => {[p]}
  | None => ∅
  end.

(** What the loop decides for a level, given the open prices of each side. *)
Definition wanted (buys sells : gset Decimal) (current_price level : Decimal)
  : option Placement :=
  if Dltb level current_price then
    if decide (level ∈ buys) then None else Some (mkPlacement level BUY)
  else if Dgtb level current_price then
    if decide (level ∈ sells) then None else Some (mkPlacement level SELL)
  else None.

(** The raw levels of the configuration of the script itself (upper 0.70,
    lower 0.60, 10 grids): digit for digit those CPython computes. *)
Definition script_raw_levels : list Decimal :=
  [mkDecimal 6 (-1);
   mkDecimal 6093206958014114735436940026 (-28);
   mkDecimal 6187861838865270295391597250 (-28);
   mkDecimal 6283987135300646636867786034 (-28);
   mkDecimal 6381605689480847387594332746 (-28);
   mkDecimal 6480740698407860230965967428 (-28);
   mkDecimal 6581415719437337903601126108 (-28);
   mkDecimal 6683654675876509683483315198 (-28);
   mkDecimal 6787481862669053594942796324 (-28);
   mkDecimal 6892921952168280221125827126 (-28);
   mkDecimal 6999999999999999999999999978 (-28)].

(** ** The loop and the exchange *)

(** [get_open_orders(symbol)] after its signed request: [result if result
    else []].  [None] is the request that failed. *)
Definition get_open_orders (result : option (list OpenOrder)) : list OpenOrder :=
  match result with
  | Some (order :: orders) => order :: orders
  | _ => []
  end.

(** The [params] [place_limit_order] builds for a placement of the loop. *)
Definition request_of (p : Placement) : OrderParams :=
  mkParams TARGET_SYMBOL (Side_str (pl_side p)) "LIMIT" "10"
           (Decimal_str (pl_level p)) "GTC".

(** The side the loop wants an order on at a level, by the current price
    alone. *)
Definition side_by_price (current_price level : Decimal) : option Placement :=
  if Dltb level current_price then Some (mkPlacement level BUY)
  else if Dgtb level current_price then Some (mkPlacement level SELL)
  else None.

(** [place_result and 'orderId' in place_result] *)
Definition has_order_id (r : PlaceResult) : bool :=
  match r with
  | Response (Some _) => true
  | _ => false
  end.

(** The number of requests the exchange answers with an order id. *)
Definition accepted (transport : OrderParams -> PlaceResult) (rs : list OrderParams) : Z :=
  Z.of_nat (length (filter (fun r => has_order_id (transport r) = true) rs)).

(** ** Signed requests *)

Definition BASE_URL : string := "https://fapi.asterdex.com".

(** The order of [str]: code point by code point, which on the bytes of
    UTF-8 text is byte by byte. *)
Definition str_le (a b : string) : Prop := OrdersEx.String_as_OT.compare a b <> Gt.

#[global] Instance str_le_dec : RelDecision str_le.
Proof. intros a b; unfold str_le; apply _. Defined.

Definition str_lt (a b : string) : Prop := OrdersEx.String_as_OT.compare a b = Lt.

(** [sorted(d.items())]: the keys of a dictionary are distinct, so the
    values never decide the comparison of two items. *)
Definition item_le (x y : string * string) : Prop := str_le x.1 y.1.

#[global] Instance item_le_dec : RelDecision item_le.
Proof. intros x y; unfold item_le; apply _. Defined.

Definition sorted_items (d : gmap string string) : list (string * string) :=
  merge_sort item_le (map_to_list d).

(** [urllib.parse.quote_plus(text)] on the bytes of the text: the
    characters of [_ALWAYS_SAFE] stand for themselves, a blank becomes a
    plus sign, any other byte is [%XX] in upper-case hexadecimal. *)
Definition ALWAYS_SAFE : string :=
  "ABCDEFGHIJKLMNOPQRSTUVWXYZabcdefghijklmnopqrstuvwxyz0123456789_.-~".

Definition always_safe (a : Ascii.ascii) : bool :=
  existsb (Ascii.eqb a) (String.list_ascii_of_string ALWAYS_SAFE).

Definition hex_digit (n : N) : Ascii.ascii :=
  match n with
  | 0 => "0" | 1 => "1" | 2 => "2" | 3 => "3" | 4 => "4" | 5 => "5"
  | 6 => "6" | 7 => "7" | 8 => "8" | 9 => "9" | 10 => "A" | 11 => "B"
  | 12 => "C" | 13 => "D" | 14 => "E" | _ => "F"
  end%char%N.

Definition quote_byte (a : Ascii.ascii) : string :=
  if always_safe a then String a EmptyString
  else if Ascii.eqb a " "%char then "+"
  else String "%"%char
         (String (hex_digit (N_of_ascii a / 16))
            (String (hex_digit (N_of_ascii a mod 16)) EmptyString)).

Fixpoint quote_plus (s : string) : string :=
  match s with
  | EmptyString => EmptyString
  | String a s' => quote_byte a +:+ quote_plus s'
  end.

(** [urllib.parse.urlencode(query)] for a list of pairs of strings. *)
Definition urlencode (query : list (string * string)) : string :=
  String.concat "&" ((fun kv => quote_plus kv.1 +:+ "=" +:+ quote_plus kv.2) <$> query).

Inductive HttpMethod : Type := GET | POST | DELETE.

(** A request as [requests.get], [requests.post] or [requests.delete]
    receives it: the URL and the ['X-MBX-APIKEY'] header. *)
Record HttpRequest : Type := mkRequest {
  rq_method : HttpMethod;
  rq_url : string;
  rq_api_key : string
}.

(** The branch [method.upper()] selects. *)
Definition method_of (method : string) : option HttpMethod :=
  if decide (upper method = "GET") then Some GET
  else if decide (upper method = "POST") then Some POST
  else if decide (upper method = "DELETE") then Some DELETE
  else None.

(** The [params] dictionary of [place_limit_order]. *)
Definition order_params (p : OrderParams) : gmap string string :=
  list_to_map [("symbol", p_symbol p); ("side", p_side p); ("type", p_type p);
               ("quantity", p_quantity p); ("price", p_price p);
               ("timeInForce", p_timeInForce p)].

Section SignedRequest.

(** The keys of the environment, [hmac.new(key, msg, hashlib.sha256).hexdigest()],
    and the exchange: the JSON of the response, or [None] when the call or
    [raise_for_status] raises a [RequestException]. *)
Variables API_KEY SECRET_KEY : string.
Variable hmac_sha256_hex : string -> string -> string.
Variable JSON : Type.
Variable send : HttpRequest -> option JSON.

Definition generate_signature (params_str : string) : string :=
  hmac_sha256_hex SECRET_KEY params_str.

(** [params_for_signing]: the copy of [params] with the time stamp and the
    receive window set.  The values of the dictionaries of this script are
    strings; the two integers are held as the text [urlencode] makes of
    them. *)
Definition params_for_signing (api_server_time_ms : Z) (params : gmap string string)
  : gmap string string :=
  <["recvWindow" := "5000"]> (<["timestamp" := pretty api_server_time_ms]> params).

Definition query_string_to_sign (api_server_time_ms : Z) (params : gmap string string)
  : string :=
  urlencode (sorted_items (params_for_signing api_server_time_ms params)).

Definition full_url (endpoint : string) (api_server_time_ms : Z)
    (params : gmap string string) : string :=
  let query := query_string_to_sign api_server_time_ms params in
  BASE_URL +:+ endpoint +:+ "?" +:+ query +:+ "&signature=" +:+ generate_signature query.

(** [make_signed_request(method, endpoint, params)]; [server_time] is what
    [get_server_time()] returns to it. *)
Definition make_signed_request (server_time : option Z) (method endpoint : string)
    (params : gmap string string) : option JSON :=
  match server_time with
  | None => None
  | Some api_server_time_ms =>
      match method_of method with
      | Some m => send (mkRequest m (full_url endpoint api_server_time_ms params) API_KEY)
      | None => None
      end
  end.

(** [place_limit_order(symbol, side, quantity, price)] as a whole: the
    dictionary it builds goes to [make_signed_request('POST', endpoint,
    params)], whose result it returns. *)
Definition place_limit_order_request (server_time : option Z) (symbol side : string)
    (quantity price : Decimal) : Result (option JSON) :=
  params ← place_limit_order symbol side quantity price;
  mret (make_signed_request server_time "POST" "/fapi/v1/order" (order_params params)).

End SignedRequest.

(** The vocabulary of the properties of signed requests. *)

(** Strictly ascending keys. *)
Definition key_lt (x y : string * string) : Prop := str_lt x.1 y.1.

Fixpoint all_chars (P : Ascii.ascii -> bool) (s : string) : bool :=
  match s with
  | EmptyString => true
  | String a s' => P a && all_chars P s'
  end.

(** The characters [quote_plus] writes. *)
Definition url_char (a : Ascii.ascii) : bool :=
  always_safe a || Ascii.eqb a "+"%char || Ascii.eqb a "%"%char.

(** One [key=value] token of the query string. *)
Definition pair_str (kv : string * string) : string :=
  quote_plus kv.1 +:+ "=" +:+ quote_plus kv.2.

(** ** The snapshot as the exchange sends it *)

Section JsonSnapshot.

(** The JSON values of an entry.  [Decimal_of_json value] is
    [decimal.Decimal(value)]: the decimal read, or the exception the
    constructor raises (InvalidOperation for text that is no numeral,
    TypeError for [None] and for a dict).  [str_of_json value] is [value]
    as a key of [open_order_prices]: the text of a string; a value that is
    no string is no key of the dictionary and raises KeyError when it is
    hashable ([None], a number, a boolean) and TypeError when it is not
    (a list, a dict). *)
Variable Json : Type.
Variable Decimal_of_json : Json -> Result DecimalValue.
Variable str_of_json : Json -> Result string.

Record JsonOrder : Type := mkJsonOrder {
  j_orderId : option Z;
  j_side : option Json;
  j_price : option Json
}.

(** [decimal.Decimal(order['price']).quantize(PRICE_PRECISION)] *)
Definition json_order_price (order : JsonOrder) : Result DecimalValue :=
  value ← from_option Ok (Raise KeyError) (j_price order);
  v ← Decimal_of_json value;
  quantize_value v PRICE_PRECISION.

(** The body of [for order in open_orders_list]: its handler catches
    KeyError and InvalidOperation, and any other exception leaves the loop
    for the [except Exception] of the pass. *)
Definition json_record_order
    (acc : gmap string (gset Decimal) * list (option Z * exn)) (order : JsonOrder)
  : (gmap string (gset Decimal) * list (option Z * exn)) * option exn :=
  match (price ← json_order_price order;
         value ← from_option Ok (Raise KeyError) (j_side order);
         side ← str_of_json value;
         members ← from_option Ok (Raise KeyError) (acc.1 !! side);
         mret (match price with
               | Finite p => <[side := {[p]} ∪ members]> acc.1
               | _ => acc.1
               end)) with
  | Ok prices => ((prices, acc.2), None)
  | Raise KeyError => ((acc.1, acc.2 ++ [(j_orderId order, KeyError)]), None)
  | Raise InvalidOperation =>
      ((acc.1, acc.2 ++ [(j_orderId order, InvalidOperation)]), None)
  | Raise e => (acc, Some e)
  end.

Definition json_collect (open_orders_list : list JsonOrder)
  : (gmap string (gset Decimal) * list (option Z * exn)) * option exn :=
  fold_abort json_record_order (no_open_orders, []) open_orders_list.

(** One pass of [while True] on such a snapshot. *)
Definition json_tick (vars : LoopVars) (transport : OrderParams -> PlaceResult)
    (grid_levels : list Decimal) (current_price : option Decimal)
    (open_orders_list : list JsonOrder) : LoopVars * TickOutput :=
  match current_price with
  | None => (vars, mkOutput [] [] [] None)
  | Some price =>
      match json_collect open_orders_list with
      | ((prices, warned), Some e) =>
          (mkVars prices (placed_orders_this_cycle vars), mkOutput [] [] warned (Some e))
      | ((prices, warned), None) =>
          let '(st, err) :=
            fold_abort (maintain_level transport prices price)
                       (mkCycle 0 [] []) grid_levels in
          (mkVars prices (c_placed st),
           mkOutput (c_calls st) (c_requests st) warned err)
      end
  end.

End JsonSnapshot.

Arguments mkJsonOrder {Json} j_orderId j_side j_price.
Arguments j_orderId {Json} j.
Arguments j_side {Json} j.
Arguments j_price {Json} j.

(** A typed entry among the JSON ones: its side and its price are text. *)
Definition json_of_order (o : OpenOrder) : JsonOrder string :=
  mkJsonOrder (o_orderId o) (o_side o) (o_price o).

(** [decimal.Decimal(text)] with its exception. *)
Definition Decimal_of_text (Decimal_of_str : string -> option DecimalValue)
    (text : string) : Result DecimalValue :=
  from_option Ok (Raise InvalidOperation) (Decimal_of_str text).

(** A reader of the plain numerals and of the names of the special values,
    for the examples: the constructor reads these names in any case, and
    more of them. *)
Definition Decimal_of_named_str (s : string) : option DecimalValue :=
  if decide (s = "NaN") then Some (NaN false)
  else if decide (s = "sNaN") then Some (NaN true)
  else if decide (s = "Infinity") then Some (Infinity false)
  else if decide (s = "-Infinity") then Some (Infinity true)
  else Decimal_of_plain_str s.

(** ** More vocabulary *)

(** The value of [d] in units of [10 ^ m], for [m <= expo d]. *)
Definition units (m : Z) (d : Decimal) : Z := coef d * 10 ^ (expo d - m).

(** [x ^ i] before any rounding, for a Python int [i >= 0]. *)
Definition Dpow_exact (x : Decimal) (i : Z) : Decimal :=
  mkDecimal (coef x ^ i) (expo x * i).

(** [x] differs from [y] by at most [k] parts in [10 ^ 27] of [x]:
    [10 ^ 27 * |x - y| <= k * |x|]. *)
Definition rel_err_le (k : Z) (x y : Decimal) : Prop :=
  let m := Z.min (expo x) (expo y) in
  10 ^ 27 * Z.abs (units m x - units m y) <= k * Z.abs (units m x).

(** A decimal the context holds without rounding: at most 28 digits, an
    exponent within the limits. *)
Definition fits_context (d : Decimal) : Prop :=
  Z.abs (coef d) < 10 ^ prec /\ Etiny <= expo d <= Etop.

#[global] Instance invalid_range_dec u l n : Decision (invalid_range u l n).
Proof. unfold invalid_range; apply _. Defined.

(** * Properties *)

(** ** Digits and rounding *)

Lemma ndigits_fuel_pos fuel n : 1 <= ndigits_fuel fuel n.
Proof.
  revert n; induction fuel as [|f IH]; intros n; simpl; [lia|].
  destruct (n <? 10); [lia|]. specialize (IH (n / 10)). lia.
Qed.

Lemma ndigits_fuel_spec fuel n :
  0 < n -> n < 10 ^ (Z.of_nat fuel + 1) ->
  10 ^ (ndigits_fuel fuel n - 1) <= n < 10 ^ ndigits_fuel fuel n.
Proof.
  revert n; induction fuel as [|f IH]; intros n Hpos Hlt.
  - simpl in *. change (10 ^ (1 - 1)) with 1. lia.
  - simpl ndigits_fuel. destruct (Z.ltb_spec n 10) as [Hs|Hs].
    + change (10 ^ (1 - 1)) with 1. change (10 ^ 1) with 10. lia.
    + assert (Hq : 0 < n / 10) by (apply Z.div_str_pos; lia).
      assert (Hb : n / 10 < 10 ^ (Z.of_nat f + 1)).
      { apply Z.div_lt_upper_bound; [lia|].
        replace (Z.of_nat (S f) + 1) with (Z.succ (Z.of_nat f + 1)) in Hlt by lia.
        rewrite Z.pow_succ_r in Hlt by lia. lia. }
      specialize (IH _ Hq Hb).
      pose proof (ndigits_fuel_pos f (n / 10)) as Hk.
      set (k := ndigits_fuel f (n / 10)) in *.
      replace (1 + k - 1) with (Z.succ (k - 1)) by lia.
      replace (1 + k) with (Z.succ k) by lia.
      rewrite !Z.pow_succ_r by lia.
      pose proof (Z.div_mod n 10 ltac:(lia)) as Hdm.
      pose proof (Z.mod_pos_bound n 10 ltac:(lia)) as Hm.
      lia.
Qed.

Lemma ndigits_pos c : 1 <= ndigits c.
Proof. apply ndigits_fuel_pos. Qed.

Lemma ndigits_spec c :
  c <> 0 -> 10 ^ (ndigits c - 1) <= Z.abs c < 10 ^ ndigits c.
Proof.
  intros Hc. unfold ndigits. apply ndigits_fuel_spec; [lia|].
  assert (Hpos : 0 < Z.abs c) by lia.
  pose proof (Z.log2_spec _ Hpos) as [_ Hl].
  pose proof (Z.log2_nonneg (Z.abs c)) as Hn.
  rewrite Z2Nat.id by lia.
  eapply Z.lt_le_trans; [exact Hl|].
  replace (Z.succ (Z.log2 (Z.abs c))) with (Z.log2 (Z.abs c) + 1) by lia.
  apply Z.pow_le_mono_l. lia.
Qed.

Lemma ndigits_le c k : 1 <= k -> Z.abs c < 10 ^ k -> ndigits c <= k.
Proof.
  intros Hk Hlt. destruct (decide (c = 0)) as [->|Hc]; [exact Hk|].
  pose proof (ndigits_spec c Hc) as [Hlo _].
  pose proof (ndigits_pos c) as Hp.
  destruct (Z.le_gt_cases (ndigits c) k) as [?|Hgt]; [assumption|exfalso].
  assert (10 ^ k <= 10 ^ (ndigits c - 1)) by (apply Z.pow_le_mono_r; lia).
  lia.
Qed.

Lemma ndigits_gt c k : 0 <= k -> 10 ^ k <= Z.abs c -> k < ndigits c.
Proof.
  intros Hk Hle.
  assert (Hc : c <> 0).
  { intros ->. pose proof (Z.pow_pos_nonneg 10 k ltac:(lia) Hk). simpl in Hle. lia. }
  pose proof (ndigits_spec c Hc) as [_ Hhi].
  pose proof (ndigits_pos c) as Hp.
  destruct (Z.lt_ge_cases k (ndigits c)) as [?|Hge]; [assumption|exfalso].
  assert (10 ^ ndigits c <= 10 ^ k) by (apply Z.pow_le_mono_r; lia).
  lia.
Qed.

Lemma pow10_pos k : 0 <= k -> 0 < 10 ^ k.
Proof. intros; apply Z.pow_pos_nonneg; lia. Qed.

(** A decimal that already fits the context is left alone by [Dfix]. *)
Lemma Dfix_id c e :
  Z.abs c < 10 ^ prec -> Etiny <= e <= Etop -> Dfix (mkDecimal c e) = Ok (mkDecimal c e).
Proof.
  intros Hc He. unfold Dfix; simpl.
  destruct (Z.eqb_spec c 0) as [->|Hne].
  - f_equal. f_equal. unfold Etop, Emax, Etiny, Emin, prec in *. lia.
  - assert (Hnd : ndigits c <= prec) by (apply ndigits_le; [unfold prec; lia|assumption]).
    destruct (Z.ltb_spec Etop (ndigits c + e - prec)); [lia|].
    destruct (Z.ltb_spec e (Z.max (ndigits c + e - prec) Etiny)); [lia|reflexivity].
Qed.

Lemma Dfix_fits d :
  ndigits (coef d) <= prec -> Etiny <= expo d -> adjusted d <= Emax -> Dfix d = Ok d.
Proof.
  destruct d as [c e]; unfold adjusted; simpl; intros Hnd He Ha.
  unfold Dfix; simpl.
  destruct (Z.eqb_spec c 0) as [->|Hne].
  - change (ndigits 0) with 1 in Ha. f_equal. f_equal. lia.
  - destruct (Z.ltb_spec Etop (ndigits c + e - prec)) as [Hov|_].
    { unfold Etop in Hov. lia. }
    destruct (Z.ltb_spec e (Z.max (ndigits c + e - prec) Etiny)); [lia|reflexivity].
Qed.

Lemma abs_lt_pow_of_ndigits c : ndigits c <= prec -> Z.abs c < 10 ^ prec.
Proof.
  intros Hnd. destruct (Z.lt_ge_cases (Z.abs c) (10 ^ prec)) as [?|Hge]; [assumption|].
  pose proof (ndigits_gt c prec ltac:(unfold prec; lia) Hge). lia.
Qed.

Lemma expo_rescale d e r : expo (rescale d e r) = e.
Proof. unfold rescale. repeat case_match; reflexivity. Qed.

(** [quantize] returns the rescaled decimal, within the precision, or raises
    InvalidOperation. *)
Lemma quantize_inv d q r a :
  quantize d q r = Ok a ->
  a = rescale d (expo q) r /\ Z.abs (coef a) < 10 ^ prec /\ expo a = expo q.
Proof.
  unfold quantize.
  destruct (Etiny <=? expo q) eqn:H1; [|discriminate].
  destruct (expo q <=? Emax) eqn:H2; [|discriminate]. simpl.
  apply Z.leb_le in H1. apply Z.leb_le in H2.
  destruct (Z.eqb_spec (coef d) 0) as [H0|H0].
  - rewrite Dfix_fits; simpl; [|change (ndigits 0) with 1; unfold prec; lia|lia|
      unfold adjusted; simpl; change (ndigits 0) with 1; lia].
    intros [= <-]. unfold rescale. rewrite H0. simpl.
    split; [reflexivity|]. split; [apply pow10_pos; unfold prec; lia|reflexivity].
  - destruct (Emax <? adjusted d); [discriminate|].
    destruct (prec <? adjusted d - expo q + 1); [discriminate|].
    destruct (Z.ltb_spec Emax (adjusted (rescale d (expo q) r))) as [|Ha]; [discriminate|].
    destruct (Z.ltb_spec prec (ndigits (coef (rescale d (expo q) r)))) as [|Hn]; [discriminate|].
    rewrite Dfix_fits; [|assumption|rewrite expo_rescale; lia|assumption].
    intros [= <-]. split; [reflexivity|]. split; [|apply expo_rescale].
    apply abs_lt_pow_of_ndigits; assumption.
Qed.

Lemma quantize_raise d q r e : quantize d q r = Raise e -> e = InvalidOperation.
Proof.
  unfold quantize.
  destruct (Etiny <=? expo q) eqn:H1; [|simpl; congruence].
  destruct (expo q <=? Emax) eqn:H2; [|simpl; congruence]. simpl.
  apply Z.leb_le in H1. apply Z.leb_le in H2.
  destruct (Z.eqb_spec (coef d) 0) as [H0|H0].
  - rewrite Dfix_fits; simpl; [discriminate|change (ndigits 0) with 1; unfold prec; lia|lia|
      unfold adjusted; simpl; change (ndigits 0) with 1; lia].
  - destruct (Emax <? adjusted d); [congruence|].
    destruct (prec <? adjusted d - expo q + 1); [congruence|].
    destruct (Z.ltb_spec Emax (adjusted (rescale d (expo q) r))) as [|Ha]; [congruence|].
    destruct (Z.ltb_spec prec (ndigits (coef (rescale d (expo q) r)))) as [|Hn]; [congruence|].
    rewrite Dfix_fits; [discriminate|assumption|rewrite expo_rescale; lia|assumption].
Qed.

(** ** Price levels: decimals at the price quantum *)

Lemma Dcompare_same_expo a b e :
  Dcompare (mkDecimal a e) (mkDecimal b e) = (a ?= b).
Proof.
  unfold Dcompare; simpl. rewrite Z.min_id, Z.sub_diag. simpl.
  rewrite !Z.mul_1_r. reflexivity.
Qed.

Lemma Dcompare_antisym a b : Dcompare a b = CompOpp (Dcompare b a).
Proof.
  unfold Dcompare. rewrite (Z.min_comm (expo a) (expo b)). apply Z.compare_antisym.
Qed.

(** Quantizing a price level again changes nothing, whatever the rounding. *)
Lemma quantize_price_level d r :
  price_level d -> quantize d PRICE_PRECISION r = Ok d.
Proof.
  destruct d as [c e]; intros [He Hc]; simpl in *; subst e.
  assert (Hnd : ndigits c <= prec) by (apply ndigits_le; [unfold prec|]; lia).
  pose proof (ndigits_pos c) as Hp.
  unfold quantize, PRICE_PRECISION; simpl.
  destruct (Z.eqb_spec c 0) as [->|Hne].
  - apply Dfix_id; [simpl; apply pow10_pos; unfold prec; lia|].
    unfold Etiny, Etop, Emin, Emax, prec; lia.
  - unfold adjusted at 1 2; simpl.
    destruct (Z.ltb_spec Emax (-4 + ndigits c - 1)) as [Hx|_]; [unfold Emax, prec in *; lia|].
    destruct (Z.ltb_spec prec (-4 + ndigits c - 1 - -4 + 1)) as [Hx|_]; [lia|].
    assert (Hr : rescale (mkDecimal c (-4)) (-4) r = mkDecimal c (-4)).
    { unfold rescale; simpl. destruct (Z.eqb_spec c 0); [contradiction|].
      f_equal. lia. }
    rewrite Hr. unfold adjusted; simpl.
    destruct (Z.ltb_spec Emax (-4 + ndigits c - 1)) as [Hx|_]; [unfold Emax, prec in *; lia|].
    destruct (Z.ltb_spec prec (ndigits c)) as [Hx|_]; [lia|].
    apply Dfix_id; [lia|]. unfold Etiny, Etop, Emin, Emax, prec; lia.
Qed.

Lemma Dltb_iff a b :
  Dltb a b = true <->
  coef a * 10 ^ (expo a - Z.min (expo a) (expo b))
  < coef b * 10 ^ (expo b - Z.min (expo a) (expo b)).
Proof.
  unfold Dltb, Dcompare. rewrite <- Z.compare_lt_iff.
  destruct (_ ?= _); split; congruence.
Qed.

Lemma Dleb_iff a b :
  Dleb a b = true <->
  coef a * 10 ^ (expo a - Z.min (expo a) (expo b))
  <= coef b * 10 ^ (expo b - Z.min (expo a) (expo b)).
Proof.
  unfold Dleb, Dcompare. rewrite <- Z.compare_le_iff.
  destruct (_ ?= _); split; congruence.
Qed.

(** Rounding down never passes the value rounded: the result is at most
    the operand, which is less than one quantum above it. *)
Lemma rescale_down_bounds d x :
  0 <= coef d ->
  let a := rescale d x ROUND_DOWN in
  0 <= coef a /\ Dleb a d = true /\ Dltb d (mkDecimal (coef a + 1) x) = true.
Proof.
  destruct d as [c e]; cbn [coef expo]; intros Hc.
  cbv zeta. rewrite Dleb_iff, Dltb_iff.
  unfold rescale; cbn [coef expo].
  destruct (Z.eqb_spec c 0) as [->|Hne]; cbn [coef expo].
  - assert (0 < 10 ^ (x - Z.min e x)) by (apply pow10_pos; lia). lia.
  - destruct (Z.leb_spec x e) as [Hxe|Hxe]; cbn [coef expo].
    + assert (Hp : 0 < 10 ^ (e - x)) by (apply pow10_pos; lia).
      rewrite (Z.min_l x e), (Z.min_r e x) by lia.
      rewrite Z.sub_diag. change (10 ^ 0) with 1. nia.
    + assert (Hp : 0 < 10 ^ (x - e)) by (apply pow10_pos; lia).
      unfold round_coef, round_mag.
      rewrite Z.sgn_pos, Z.abs_eq, Z.mul_1_l by lia.
      pose proof (Z.div_mod c (10 ^ (x - e)) ltac:(lia)) as Hdm.
      pose proof (Z.mod_pos_bound c (10 ^ (x - e)) Hp) as Hm.
      assert (Hq : 0 <= c / 10 ^ (x - e)) by (apply Z.div_pos; lia).
      rewrite (Z.min_r x e), (Z.min_l e x) by lia.
      rewrite Z.sub_diag. change (10 ^ 0) with 1. nia.
Qed.

Lemma Dltb_pow10_bound c e k :
  0 < c -> Dltb (mkDecimal c e) (mkDecimal 1 k) = true -> e < k /\ c < 10 ^ (k - e).
Proof.
  intros Hc H. apply Dltb_iff in H. cbn [coef expo] in H.
  destruct (Z.lt_ge_cases e k) as [Hlt|Hge].
  - rewrite Z.min_l, Z.sub_diag in H by lia. change (10 ^ 0) with 1 in H. lia.
  - rewrite Z.min_r, Z.sub_diag in H by lia. change (10 ^ 0) with 1 in H.
    assert (0 < 10 ^ (e - k)) by (apply pow10_pos; lia). nia.
Qed.

(** Rounding a non-negative decimal down to a quantum succeeds as soon as
    the result fits the precision. *)
Lemma quantize_down_ok d q :
  Etiny <= expo q <= Etop -> 0 <= coef d ->
  Dltb d (mkDecimal 1 (prec + expo q)) = true ->
  quantize d q ROUND_DOWN = Ok (rescale d (expo q) ROUND_DOWN).
Proof.
  destruct d as [c e]; cbn [coef expo]; intros Hx Hc Hlt.
  set (x := expo q) in *.
  assert (HE : Etop = Emax - prec + 1) by reflexivity.
  assert (HP : prec = 28) by reflexivity.
  unfold quantize. fold x. cbn [coef expo].
  destruct (Z.leb_spec Etiny x) as [_|?]; [|lia].
  destruct (Z.leb_spec x Emax) as [_|?]; [|lia]. cbn [andb negb].
  destruct (Z.eqb_spec c 0) as [->|Hne].
  - unfold rescale; cbn [coef]. rewrite Z.eqb_refl.
    apply Dfix_id; [apply pow10_pos; lia|lia].
  - apply Dltb_pow10_bound in Hlt; [|lia]. destruct Hlt as [Hek Hck].
    assert (Hnd : ndigits c <= prec + x - e).
    { apply ndigits_le; [lia|]. rewrite Z.abs_eq by lia. exact Hck. }
    pose proof (ndigits_pos c) as Hp1.
    unfold adjusted at 1 2; cbn [coef expo].
    destruct (Z.ltb_spec Emax (e + ndigits c - 1)) as [?|_]; [lia|].
    destruct (Z.ltb_spec prec (e + ndigits c - 1 - x + 1)) as [?|_]; [lia|].
    assert (Hans : Z.abs (coef (rescale (mkDecimal c e) x ROUND_DOWN)) < 10 ^ prec).
    { unfold rescale; cbn [coef expo].
      destruct (Z.eqb_spec c 0); [contradiction|].
      destruct (Z.leb_spec x e) as [Hxe|Hxe]; cbn [coef].
      - assert (0 < 10 ^ (e - x)) by (apply pow10_pos; lia).
        rewrite Z.abs_eq by nia.
        replace prec with ((prec + x - e) + (e - x)) by lia.
        rewrite Z.pow_add_r by lia.
        apply Z.mul_lt_mono_pos_r; assumption.
      - assert (0 < 10 ^ (x - e)) by (apply pow10_pos; lia).
        unfold round_coef, round_mag.
        rewrite Z.sgn_pos, Z.mul_1_l by lia. rewrite (Z.abs_eq c) by lia.
        rewrite Z.abs_eq by (apply Z.div_pos; lia).
        apply Z.div_lt_upper_bound; [assumption|].
        rewrite <- Z.pow_add_r by lia.
        replace (x - e + prec) with (prec + x - e) by lia. exact Hck. }
    assert (Hnd' : ndigits (coef (rescale (mkDecimal c e) x ROUND_DOWN)) <= prec).
    { apply ndigits_le; [lia|exact Hans]. }
    pose proof (expo_rescale (mkDecimal c e) x ROUND_DOWN) as Hex.
    pose proof (ndigits_pos (coef (rescale (mkDecimal c e) x ROUND_DOWN))) as Hp2.
    destruct (Z.ltb_spec Emax (adjusted (rescale (mkDecimal c e) x ROUND_DOWN))) as [Hbad|_].
    { unfold adjusted in Hbad. rewrite Hex in Hbad. lia. }
    destruct (Z.ltb_spec prec (ndigits (coef (rescale (mkDecimal c e) x ROUND_DOWN)))) as [?|_]; [lia|].
    apply Dfix_fits; [assumption|rewrite Hex; lia|].
    unfold adjusted. rewrite Hex. lia.
Qed.

(** At the price quantum: a non-negative decimal below [10 ^ 24] rounds
    down to a price level at most equal to it and less than one quantum
    below it. *)
Lemma quantize_price_down d :
  0 <= coef d -> Dltb d (mkDecimal 1 24) = true ->
  exists a, quantize d PRICE_PRECISION ROUND_DOWN = Ok a /\ price_level a /\
            Dleb a d = true /\ Dltb d (mkDecimal (coef a + 1) (-4)) = true.
Proof.
  intros Hc Hlt.
  exists (rescale d (expo PRICE_PRECISION) ROUND_DOWN).
  assert (Hq : quantize d PRICE_PRECISION ROUND_DOWN
               = Ok (rescale d (expo PRICE_PRECISION) ROUND_DOWN)).
  { apply quantize_down_ok; [cbv; split; discriminate|assumption|exact Hlt]. }
  split; [exact Hq|].
  destruct (quantize_inv _ _ _ _ Hq) as (_ & Habs & Hexp).
  destruct (rescale_down_bounds d (-4) Hc) as (Hnn & Hle & Hup).
  change (expo PRICE_PRECISION) with (-4) in *.
  split; [|split; assumption].
  split; [assumption|]. split; [assumption|]. lia.
Qed.

(** ** Sorting and the uniqueness loop on price levels *)

Lemma tolerance_eq : Ddiv PRICE_PRECISION (Decimal_of_int 2) = Ok (mkDecimal 5 (-5)).
Proof. vm_compute. reflexivity. Qed.

Lemma price_level_inv d : price_level d -> d = mkDecimal (coef d) (-4).
Proof. destruct d as [c e]; intros [He _]; simpl in *; congruence. Qed.

(** The gap between two price levels is computed exactly, and it exceeds
    the tolerance of half a quantum exactly when the levels differ. *)
Lemma price_gap a b :
  price_level a -> price_level b ->
  Dsub a b = Ok (mkDecimal (coef a - coef b) (-4)) /\
  Dabs (mkDecimal (coef a - coef b) (-4)) = Ok (mkDecimal (Z.abs (coef a - coef b)) (-4)) /\
  (Dgtb (mkDecimal (Z.abs (coef a - coef b)) (-4)) (mkDecimal 5 (-5)) = true <-> a <> b).
Proof.
  intros Ha Hb.
  rewrite (price_level_inv a Ha), (price_level_inv b Hb).
  destruct Ha as [_ Ha], Hb as [_ Hb]. cbn [coef expo].
  set (x := coef a) in *. set (y := coef b) in *.
  assert (HR : Etiny <= -4 <= Etop) by (cbv; split; discriminate).
  split; [|split].
  - unfold Dsub, Dadd, copy_negate; cbn [coef expo].
    rewrite Z.min_id, Z.sub_diag. change (10 ^ 0) with 1.
    replace (x * 1 + - y * 1) with (x - y) by lia.
    apply Dfix_id; [lia|exact HR].
  - unfold Dabs; cbn [coef expo]. apply Dfix_id; [lia|exact HR].
  - unfold Dgtb. rewrite Dltb_iff. cbn [coef expo].
    change (Z.min (-5) (-4)) with (-5). change (10 ^ (-5 - -5)) with 1.
    change (10 ^ (-4 - -5)) with 10.
    split.
    + intros H Heq. injection Heq as Heq. lia.
    + intros H. assert (x <> y) by congruence. lia.
Qed.

Lemma unique_from_price_levels prev l :
  price_level prev -> Forall price_level l ->
  unique_from (mkDecimal 5 (-5)) prev l = Ok (distinct_from prev l).
Proof.
  revert prev; induction l as [|x l IH]; intros prev Hp Hl; [reflexivity|].
  apply Forall_cons in Hl as [Hx Hl].
  destruct (price_gap x prev Hx Hp) as (Hs & Ha & Hg).
  cbn [unique_from distinct_from]. rewrite Hs. cbn [mbind Result_bind].
  rewrite Ha. cbn [mbind Result_bind].
  rewrite (IH x Hx Hl). cbn [mbind Result_bind mret Result_ret].
  destruct (decide (x = prev)) as [Heq|Hne].
  - destruct (Dgtb _ _); [|reflexivity].
    exfalso. exact (proj1 Hg eq_refl Heq).
  - apply Hg in Hne. rewrite Hne. reflexivity.
Qed.

Lemma distinct_from_subset prev l x : x ∈ distinct_from prev l -> x ∈ l.
Proof.
  revert prev; induction l as [|y l IH]; intros prev; cbn [distinct_from].
  - intros H; exact H.
  - destruct (decide (y = prev)).
    + intros H. apply elem_of_cons. right. eapply IH, H.
    + intros H. apply elem_of_cons in H as [->|H]; apply elem_of_cons; [left; reflexivity|].
      right. eapply IH, H.
Qed.

Lemma distinct_from_length prev l : (length (distinct_from prev l) <= length l)%nat.
Proof.
  revert prev; induction l as [|y l IH]; intros prev; cbn [distinct_from length]; [lia|].
  destruct (decide (y = prev)); cbn [length]; specialize (IH y); lia.
Qed.

Lemma Dge_price_levels a b :
  price_level a -> price_level b -> Dge a b -> coef b <= coef a.
Proof.
  intros Ha Hb H. unfold Dge in H.
  rewrite (price_level_inv a Ha), (price_level_inv b Hb) in H.
  unfold Dleb in H. rewrite Dcompare_same_expo in H.
  destruct (Z.compare_spec (coef b) (coef a)); [lia|lia|discriminate].
Qed.

Lemma distinct_from_sorted prev l :
  price_level prev -> Forall price_level l -> Sorted Dge (prev :: l) ->
  Sorted quantum_below (prev :: distinct_from prev l).
Proof.
  revert prev; induction l as [|x l IH]; intros prev Hp Hl Hs.
  - repeat constructor.
  - apply Forall_cons in Hl as [Hx Hl].
    apply Sorted_inv in Hs as [Hs Hhd]. apply HdRel_inv in Hhd.
    pose proof (Dge_price_levels _ _ Hp Hx Hhd) as Hle.
    cbn [distinct_from]. destruct (decide (x = prev)) as [->|Hne].
    + apply IH; assumption.
    + constructor; [apply IH; assumption|].
      constructor. unfold quantum_below.
      assert (coef x <> coef prev).
      { intros Heq. apply Hne.
        rewrite (price_level_inv x Hx), (price_level_inv prev Hp). congruence. }
      lia.
Qed.

#[global] Instance Dge_total : Total Dge.
Proof.
  intros a b. unfold Dge, Dleb. rewrite (Dcompare_antisym a b).
  destruct (Dcompare b a); simpl; auto.
Qed.

Lemma sorted_reverse_sorted l : Sorted Dge (sorted_reverse l).
Proof. apply Sorted_merge_sort. apply _. Qed.

Lemma sorted_reverse_perm l : sorted_reverse l ≡ₚ l.
Proof. apply merge_sort_Permutation. Qed.

(** ** Loops in the result monad *)

Lemma mapM_Ok {A B} (f : A -> Result B) l k :
  mapM f l = Ok k <-> Forall2 (fun x y => f x = Ok y) l k.
Proof.
  revert k; induction l as [|x l IH]; intros k; cbn [mapM].
  - split.
    + intros [= <-]. constructor.
    + intros H. inversion H. reflexivity.
  - split.
    + destruct (f x) as [y|e] eqn:Hx; cbn [mbind Result_bind]; [|discriminate].
      destruct (mapM f l) as [k'|e] eqn:Hl; cbn [mbind Result_bind]; [|discriminate].
      intros [= <-]. constructor; [exact Hx|]. apply IH. reflexivity.
    + intros H. inversion H as [|? y ? k' Hx Hl]; subst.
      rewrite Hx. cbn [mbind Result_bind].
      apply IH in Hl. rewrite Hl. reflexivity.
Qed.

Lemma mapM_total {A B} (f : A -> Result B) l :
  Forall (fun x => exists y, f x = Ok y) l -> exists k, mapM f l = Ok k.
Proof.
  induction 1 as [|x l [y Hy] _ [k Hk]]; [exists []; reflexivity|].
  exists (y :: k). apply mapM_Ok. constructor; [exact Hy|]. apply mapM_Ok, Hk.
Qed.

(** ** Signs *)

Lemma round_mag_nonneg r m k : 0 <= m -> 0 <= round_mag r m k.
Proof.
  intros Hm. unfold round_mag.
  assert (0 <= m / 10 ^ k).
  { destruct (Z.le_gt_cases 0 k).
    - apply Z.div_pos; [lia|apply pow10_pos; lia].
    - rewrite Z.pow_neg_r by lia. rewrite Z.div_0_r. lia. }
  destruct r; [lia|]. case_match; lia.
Qed.

Lemma Dfix_nonneg d r : Dfix d = Ok r -> 0 <= coef d -> 0 <= coef r.
Proof.
  intros H Hc. unfold Dfix in H.
  destruct (coef d =? 0); [injection H as <-; simpl; lia|].
  destruct (Etop <? _); [discriminate|].
  destruct (expo d <? _); [|injection H as <-; exact Hc].
  assert (Hr : 0 <= round_coef ROUND_HALF_EVEN (coef d)
                      (Z.max (ndigits (coef d) + expo d - prec) Etiny - expo d)).
  { unfold round_coef. apply Z.mul_nonneg_nonneg; [lia|].
    apply round_mag_nonneg. lia. }
  destruct (prec <? _).
  - destruct (Etop <? _); [discriminate|]. injection H as <-. cbn [coef].
    apply Z.quot_pos; lia.
  - injection H as <-. exact Hr.
Qed.

Lemma strip_zeros_nonneg fuel c e : 0 <= c -> 0 <= (strip_zeros fuel c e).1.
Proof.
  revert c e; induction fuel as [|f IH]; intros c e Hc; cbn [strip_zeros]; [exact Hc|].
  destruct (c mod 10 =? 0); [|exact Hc]. apply IH. apply Z.div_pos; lia.
Qed.

Lemma Ddiv_nonneg a b r : Ddiv a b = Ok r -> 0 <= coef a -> 0 <= coef b -> 0 <= coef r.
Proof.
  intros H Ha Hb. unfold Ddiv in H.
  destruct (Z.eqb_spec (coef b) 0) as [|Hb0]; [destruct (coef a =? 0); discriminate|].
  destruct (Z.eqb_spec (coef a) 0) as [|Ha0]; [eapply Dfix_nonneg; [exact H|simpl; lia]|].
  rewrite !Z.sgn_pos in H by lia. rewrite !Z.abs_eq in H by lia.
  set (shift := ndigits (coef b) - ndigits (coef a) + prec + 1) in *.
  set (n := if 0 <=? shift then coef a * 10 ^ shift else coef a) in *.
  set (m := if 0 <=? shift then coef b else coef b * 10 ^ (- shift)) in *.
  assert (Hn : 0 <= n).
  { unfold n. destruct (Z.leb_spec 0 shift); [|lia].
    apply Z.mul_nonneg_nonneg; [lia|]. apply Z.pow_nonneg; lia. }
  assert (Hm : 0 <= m).
  { unfold m. destruct (Z.leb_spec 0 shift); [lia|].
    apply Z.mul_nonneg_nonneg; [lia|]. apply Z.pow_nonneg; lia. }
  assert (Hq : 0 <= n / m).
  { destruct (Z.eq_dec m 0) as [->|]; [rewrite Z.div_0_r; lia|apply Z.div_pos; lia]. }
  destruct (n mod m =? 0).
  - pose proof (strip_zeros_nonneg
                  (Z.to_nat (expo a - expo b - (expo a - expo b - shift)))
                  (n / m) (expo a - expo b - shift) Hq) as Hs.
    destruct (strip_zeros _ _ _) as [q' e']. cbn [fst] in Hs.
    eapply Dfix_nonneg; [exact H|]. cbn [coef]. lia.
  - eapply Dfix_nonneg; [exact H|]. cbn [coef].
    destruct (n / m mod 5 =? 0); lia.
Qed.

Lemma Dmul_nonneg a b r : Dmul a b = Ok r -> 0 <= coef a -> 0 <= coef b -> 0 <= coef r.
Proof.
  intros H Ha Hb. eapply Dfix_nonneg; [exact H|]. cbn [coef].
  apply Z.mul_nonneg_nonneg; assumption.
Qed.

Lemma distinct_from_complete prev l x :
  x ∈ l -> x = prev \/ x ∈ distinct_from prev l.
Proof.
  revert prev; induction l as [|y l IH]; intros prev Hx; [inversion Hx|].
  cbn [distinct_from]. apply elem_of_cons in Hx as [->|Hx].
  - destruct (decide (y = prev)); [left; assumption|right; apply elem_of_cons; left; reflexivity].
  - destruct (IH y Hx) as [->|Hin].
    + destruct (decide (y = prev)); [left; assumption|right; apply elem_of_cons; left; reflexivity].
    + right. destruct (decide (y = prev)); [assumption|apply elem_of_cons; right; assumption].
Qed.

(** ** The grid level calculator *)

Lemma Dleb_negb_Dltb a b : Dleb a b = negb (Dltb b a).
Proof.
  unfold Dleb, Dltb. rewrite (Dcompare_antisym a b).
  destruct (Dcompare b a); reflexivity.
Qed.

Lemma valid_not_invalid u l n : valid_config u l n <-> ~ invalid_range u l n.
Proof.
  unfold valid_config, invalid_range. rewrite !Dleb_negb_Dltb.
  destruct (Dltb l u), (Dltb (Decimal_of_int 0) l); simpl; split; intros H.
  all: try (intros [?|[?|?]]; (discriminate || lia)).
  all: try (destruct H as (? & ? & ?); discriminate).
  all: try (repeat split; try reflexivity; destruct (Z.le_gt_cases 1 n); [assumption|]; exfalso; apply H; auto).
  all: exfalso; apply H; auto.
Qed.

Section GridLevelsFacts.

Variable Dpow : Decimal -> Decimal -> Result Decimal.

Lemma calculate_grid_levels_invalid u l n :
  invalid_range u l n -> calculate_grid_levels Dpow u l n = Ok [].
Proof.
  intros [H|[H|H]]; unfold calculate_grid_levels.
  - rewrite H. reflexivity.
  - apply Z.ltb_lt in H. rewrite H, orb_true_r. reflexivity.
  - rewrite H. destruct (_ || _); reflexivity.
Qed.

Lemma calculate_grid_levels_valid u l n :
  valid_config u l n ->
  calculate_grid_levels Dpow u l n =
  match raw_levels Dpow u l n with
  | Raise InvalidOperation | Raise OverflowError => Ok []
  | Raise e => Raise e
  | Ok levels =>
      formatted_levels ← mapM (fun lvl => quantize lvl PRICE_PRECISION ROUND_DOWN) levels;
      tolerance ← Ddiv PRICE_PRECISION (Decimal_of_int 2);
      unique_levels tolerance (sorted_reverse formatted_levels)
  end.
Proof.
  intros (H1 & H2 & H3). unfold calculate_grid_levels.
  rewrite !Dleb_negb_Dltb, H1, H2.
  destruct (Z.ltb_spec n 1); [lia|]. reflexivity.
Qed.

(** The raw levels, one by one. *)
Lemma raw_levels_inv u l n raws :
  raw_levels Dpow u l n = Ok raws ->
  exists q e ratio,
    Ddiv u l = Ok q /\
    Ddiv (Decimal_of_int 1) (Decimal_of_int n) = Ok e /\
    Dpow q e = Ok ratio /\
    Forall2 (fun i r => exists p, Dpow ratio (Decimal_of_int i) = Ok p /\ Dmul l p = Ok r)
            (seqZ 0 (n + 1)) raws.
Proof.
  unfold raw_levels, grid_ratio.
  destruct (Ddiv u l) as [q|] eqn:Hq; cbn [mbind Result_bind]; [|discriminate].
  destruct (Ddiv (Decimal_of_int 1) (Decimal_of_int n)) as [e|] eqn:He;
    cbn [mbind Result_bind]; [|discriminate].
  destruct (Dpow q e) as [ratio|] eqn:Hr; cbn [mbind Result_bind]; [|discriminate].
  intros H. exists q, e, ratio. split; [reflexivity|]. split; [reflexivity|].
  split; [exact Hr|].
  apply mapM_Ok in H. eapply Forall2_impl; [exact H|].
  intros i r. unfold raw_level.
  destruct (Dpow ratio (Decimal_of_int i)) as [p|] eqn:Hp; cbn [mbind Result_bind];
    [|discriminate].
  intros Hm. exists p. split; [reflexivity|exact Hm].
Qed.

Lemma raw_levels_length u l n raws :
  raw_levels Dpow u l n = Ok raws -> length raws = Z.to_nat (n + 1).
Proof.
  intros H. destruct (raw_levels_inv _ _ _ _ H) as (q & e & ratio & _ & _ & _ & HF).
  apply Forall2_length in HF. rewrite <- HF. apply length_seqZ.
Qed.

(** The power of a non-negative base is non-negative: then so are the
    raw levels of a valid configuration. *)
Hypothesis Dpow_nonneg :
  forall x y r, 0 <= coef x -> Dpow x y = Ok r -> 0 <= coef r.

Lemma Dltb_zero_pos d : Dltb (Decimal_of_int 0) d = true -> 0 < coef d.
Proof.
  intros H. apply Dltb_iff in H. cbn [coef expo Decimal_of_int] in H.
  assert (0 < 10 ^ (expo d - Z.min 0 (expo d))) by (apply pow10_pos; lia).
  nia.
Qed.

Lemma raw_levels_nonneg u l n raws :
  valid_config u l n -> raw_levels Dpow u l n = Ok raws ->
  Forall (fun r => 0 <= coef r) raws.
Proof.
  intros (Hlu & Hl & Hn) H.
  destruct (raw_levels_inv _ _ _ _ H) as (q & e & ratio & Hq & He & Hr & HF).
  pose proof (Dltb_zero_pos _ Hl) as Hlpos.
  assert (Hupos : 0 < coef u).
  { apply Dltb_iff in Hlu.
    assert (0 < 10 ^ (expo l - Z.min (expo l) (expo u))) by (apply pow10_pos; lia).
    assert (0 < 10 ^ (expo u - Z.min (expo l) (expo u))) by (apply pow10_pos; lia).
    nia. }
  assert (Hq0 : 0 <= coef q) by (eapply Ddiv_nonneg; [exact Hq|lia|lia]).
  assert (Hr0 : 0 <= coef ratio) by (eapply Dpow_nonneg; [exact Hq0|exact Hr]).
  eapply Forall2_Forall_r; [exact HF|].
  apply Forall_forall. intros i _ r (p & Hp & Hm).
  eapply Dmul_nonneg; [exact Hm|lia|].
  eapply Dpow_nonneg; [exact Hr0|exact Hp].
Qed.

(** The calculator on a valid configuration whose raw levels are computed
    and lie below [10 ^ 24]. *)
Lemma calculate_grid_levels_ok u l n raws :
  valid_config u l n ->
  raw_levels Dpow u l n = Ok raws ->
  Forall (fun r => Dltb r (mkDecimal 1 24) = true) raws ->
  exists levels,
    calculate_grid_levels Dpow u l n = Ok levels /\
    levels <> [] /\
    (length levels <= Z.to_nat (n + 1))%nat /\
    Forall price_level levels /\
    Sorted quantum_below levels /\
    (forall q, q ∈ levels ->
       exists r, r ∈ raws /\ quantize r PRICE_PRECISION ROUND_DOWN = Ok q /\
                 Dleb q r = true /\ Dltb r (mkDecimal (coef q + 1) (-4)) = true) /\
    (forall r, r ∈ raws ->
       exists q, q ∈ levels /\ quantize r PRICE_PRECISION ROUND_DOWN = Ok q).
Proof.
  intros Hv Hraw Hbelow.
  pose proof (raw_levels_nonneg _ _ _ _ Hv Hraw) as Hnn.
  pose proof (raw_levels_length _ _ _ _ Hraw) as Hlen.
  rewrite (calculate_grid_levels_valid _ _ _ Hv), Hraw.
  assert (HQ : Forall (fun r => exists a,
                 quantize r PRICE_PRECISION ROUND_DOWN = Ok a /\ price_level a /\
                 Dleb a r = true /\ Dltb r (mkDecimal (coef a + 1) (-4)) = true) raws).
  { rewrite Forall_forall in *. intros r Hr.
    apply quantize_price_down; [apply Hnn, Hr|apply Hbelow, Hr]. }
  destruct (mapM_total (fun lvl => quantize lvl PRICE_PRECISION ROUND_DOWN) raws)
    as [formatted Hf].
  { eapply Forall_impl; [exact HQ|]. intros r (a & Ha & _). exists a. exact Ha. }
  rewrite Hf. cbn [mbind Result_bind]. rewrite tolerance_eq. cbn [mbind Result_bind].
  apply mapM_Ok in Hf.
  assert (Hpl : Forall price_level formatted).
  { eapply Forall2_Forall_r; [exact Hf|].
    rewrite Forall_forall in *. intros r Hr a Ha.
    destruct (HQ r Hr) as (a' & Ha' & Hp & _). congruence. }
  pose proof (sorted_reverse_perm formatted) as Hperm.
  pose proof (sorted_reverse_sorted formatted) as Hsorted.
  assert (Hpl' : Forall price_level (sorted_reverse formatted)).
  { rewrite Hperm. exact Hpl. }
  assert (Hflen : length (sorted_reverse formatted) = Z.to_nat (n + 1)).
  { rewrite Hperm. apply Forall2_length in Hf. lia. }
  destruct (sorted_reverse formatted) as [|x rest] eqn:Hsr.
  { destruct Hv as (_ & _ & Hn). simpl in Hflen. lia. }
  apply Forall_cons in Hpl' as [Hx Hrest].
  cbn [unique_levels]. rewrite (unique_from_price_levels x rest Hx Hrest).
  cbn [mbind Result_bind mret Result_ret].
  exists (x :: distinct_from x rest).
  split; [reflexivity|]. split; [discriminate|].
  split. { cbn [length] in *. pose proof (distinct_from_length x rest). lia. }
  assert (Hsub : forall q, q ∈ x :: distinct_from x rest -> q ∈ formatted).
  { intros q Hq. rewrite <- Hperm. apply elem_of_cons in Hq as [->|Hq].
    - apply elem_of_cons. left. reflexivity.
    - apply elem_of_cons. right. eapply distinct_from_subset, Hq. }
  split.
  { apply Forall_forall. intros q Hq. rewrite Forall_forall in Hpl.
    apply Hpl, Hsub, Hq. }
  split. { apply distinct_from_sorted; assumption. }
  split.
  - intros q Hq. apply Hsub in Hq.
    apply list_elem_of_lookup in Hq as [i Hi].
    destruct (Forall2_lookup_r _ _ _ _ _ Hf Hi) as (r & Hr & Hqr).
    exists r. split; [eapply list_elem_of_lookup_2, Hr|].
    split; [exact Hqr|].
    rewrite Forall_forall in HQ.
    destruct (HQ r (list_elem_of_lookup_2 _ _ _ Hr)) as (a & Ha & _ & Hle & Hlt).
    assert (a = q) by congruence. subst a. split; assumption.
  - intros r Hr. apply list_elem_of_lookup in Hr as [i Hi].
    destruct (Forall2_lookup_l _ _ _ _ _ Hf Hi) as (q & Hq & Hrq).
    exists q. split; [|exact Hrq].
    assert (Hin : q ∈ x :: rest).
    { rewrite Hperm. eapply list_elem_of_lookup_2, Hq. }
    apply elem_of_cons in Hin as [->|Hin]; [apply elem_of_cons; left; reflexivity|].
    destruct (distinct_from_complete x rest q Hin) as [->|Hd];
      apply elem_of_cons; [left; reflexivity|right; exact Hd].
Qed.

End GridLevelsFacts.

(** ** The correctly rounded power *)

Lemma iroot_bisect_nonneg fuel q n lo hi :
  0 <= lo -> lo <= hi -> 0 <= iroot_bisect fuel q n lo hi.
Proof.
  revert lo hi; induction fuel as [|f IH]; intros lo hi Hlo Hhi; cbn [iroot_bisect];
    [exact Hlo|].
  destruct (Z.leb_spec (hi - lo) 1); [exact Hlo|].
  assert (lo <= (lo + hi) / 2 <= hi).
  { split; [apply Z.div_le_lower_bound; lia|apply Z.div_le_upper_bound; lia]. }
  destruct (_ <=? n); apply IH; lia.
Qed.

Lemma iroot_nonneg q n : 0 <= iroot q n.
Proof.
  unfold iroot. apply iroot_bisect_nonneg; [lia|]. apply Z.pow_nonneg; lia.
Qed.

Lemma root_round_nonneg q a b r : root_round 1 q a b = Ok r -> 0 <= coef r.
Proof.
  unfold root_round. intros H. eapply Dfix_nonneg; [exact H|]. cbn [coef].
  match goal with |- context [iroot ?k ?m] => pose proof (iroot_nonneg k m) end.
  destruct (_ ?= _); try destruct (Z.odd _); lia.
Qed.

Lemma Dpow_cr_nonneg x y r : 0 <= coef x -> Dpow_cr x y = Ok r -> 0 <= coef r.
Proof.
  intros Hx. unfold Dpow_cr.
  destruct (coef y =? 0).
  { destruct (coef x =? 0); [discriminate|]. intros [= <-]. simpl. lia. }
  destruct (coef x =? 0).
  { destruct (0 <? coef y); [|discriminate]. intros [= <-]. simpl. lia. }
  destruct (fraction y) as [p q].
  destruct (Z.ltb_spec (coef x) 0) as [?|_]; [lia|]. cbn [andb].
  destruct ((q =? 1) && (0 <? coef y)).
  - intros H. eapply Dfix_nonneg; [exact H|]. cbn [coef].
    rewrite Z.mul_1_l. apply Z.pow_nonneg. lia.
  - destruct (0 <? coef y); apply root_round_nonneg.
Qed.

(** ** The reconciler *)

Section ReconcilerFacts.

Variable Decimal_of_str : string -> option DecimalValue.

Local Abbreviation order_entry := (order_entry Decimal_of_str).
Local Abbreviation order_key := (order_key Decimal_of_str).
Local Abbreviation order_warning := (order_warning Decimal_of_str).
Local Abbreviation price_on := (price_on Decimal_of_str).
Local Abbreviation open_prices := (open_prices Decimal_of_str).
Local Abbreviation order_keys := (order_keys Decimal_of_str).

Lemma order_price_raise o e :
  order_price Decimal_of_str o = Raise e -> e = KeyError \/ e = InvalidOperation.
Proof.
  unfold order_price.
  destruct (o_price o) as [text|]; cbn; [|intros [= <-]; auto].
  destruct (Decimal_of_str text) as [v|]; cbn; [|intros [= <-]; auto].
  destruct v as [d|?|[|]]; cbn; try (intros [= <-]; auto); try discriminate.
  destruct (quantize d PRICE_PRECISION ROUND_HALF_EVEN) eqn:Hq; cbn; [discriminate|].
  intros [= <-]. right. eapply quantize_raise, Hq.
Qed.

Lemma prices_of_lookup B S s :
  prices_of B S !! s =
  if decide (s = "BUY") then Some B else if decide (s = "SELL") then Some S else None.
Proof.
  unfold prices_of. destruct (decide (s = "BUY")) as [->|Hb].
  - apply lookup_insert_eq.
  - rewrite lookup_insert_ne by congruence.
    destruct (decide (s = "SELL")) as [->|Hs].
    + apply lookup_insert_eq.
    + rewrite lookup_insert_ne by congruence. apply lookup_empty.
Qed.

Lemma record_order_spec B S ws o :
  record_order Decimal_of_str (prices_of B S, ws) o =
  ((prices_of (option_set (price_on "BUY" o) ∪ B) (option_set (price_on "SELL" o) ∪ S),
    ws ++ order_warning o), None).
Proof.
  unfold record_order, price_on, order_key, order_warning, order_entry.
  cbn [fst snd].
  destruct (order_price Decimal_of_str o) as [v|e] eqn:Hp; cbn [mbind Result_bind].
  2:{ destruct (order_price_raise _ _ Hp) as [->| ->]; cbn [option_set];
      rewrite !(left_id_L ∅ (∪)); reflexivity. }
  unfold add_order_price.
  destruct (o_side o) as [s|]; cbn [from_option mbind Result_bind].
  2:{ cbn [option_set]. rewrite !(left_id_L ∅ (∪)). reflexivity. }
  rewrite prices_of_lookup.
  destruct (decide (s = "BUY")) as [->|Hb]; cbn [from_option mbind Result_bind mret Result_ret].
  { rewrite decide_True by auto.
    destruct v as [p|?|?]; cbn [option_set].
    - rewrite decide_True by reflexivity. rewrite decide_False by discriminate.
      cbn [option_set]. rewrite (left_id_L ∅ (∪)), app_nil_r.
      unfold prices_of. rewrite insert_insert_eq. reflexivity.
    - rewrite !(left_id_L ∅ (∪)), app_nil_r. reflexivity.
    - rewrite !(left_id_L ∅ (∪)), app_nil_r. reflexivity. }
  destruct (decide (s = "SELL")) as [->|Hs]; cbn [from_option mbind Result_bind mret Result_ret].
  { rewrite decide_True by auto.
    destruct v as [p|?|?]; cbn [option_set].
    - rewrite decide_False by discriminate. rewrite decide_True by reflexivity.
      cbn [option_set]. rewrite (left_id_L ∅ (∪)), app_nil_r.
      unfold prices_of. rewrite (insert_insert_ne _ "SELL" "BUY") by discriminate.
      rewrite insert_insert_eq. reflexivity.
    - rewrite !(left_id_L ∅ (∪)), app_nil_r. reflexivity.
    - rewrite !(left_id_L ∅ (∪)), app_nil_r. reflexivity. }
  rewrite decide_False by (intros [?|?]; contradiction).
  cbn [option_set]. rewrite !(left_id_L ∅ (∪)). reflexivity.
Qed.

Lemma open_prices_cons side o orders :
  open_prices side (o :: orders) = option_set (price_on side o) ∪ open_prices side orders.
Proof.
  unfold open_prices. cbn [omap list_omap].
  destruct (price_on side o); cbn [option_set list_to_set];
    [reflexivity|rewrite (left_id_L ∅ (∪)); reflexivity].
Qed.

Lemma collect_from B S ws orders :
  fold_abort (record_order Decimal_of_str) (prices_of B S, ws) orders =
  ((prices_of (open_prices "BUY" orders ∪ B) (open_prices "SELL" orders ∪ S),
    ws ++ flat_map order_warning orders), None).
Proof.
  revert B S ws; induction orders as [|o orders IH]; intros B S ws.
  - cbn [fold_abort flat_map]. unfold open_prices. cbn [omap list_omap list_to_set].
    rewrite !(left_id_L ∅ (∪)), app_nil_r. reflexivity.
  - cbn [fold_abort flat_map]. rewrite record_order_spec, IH.
    rewrite !open_prices_cons, <- !(assoc_L (++)).
    rewrite !(assoc_L (∪)).
    rewrite (comm_L (∪) (open_prices "BUY" orders)).
    rewrite (comm_L (∪) (open_prices "SELL" orders)). reflexivity.
Qed.

(** The partition of the open orders: it never ends the pass, and it
    stores exactly the quantized prices of the orders it does not skip. *)
Lemma collect_spec orders :
  collect_open_order_prices Decimal_of_str orders =
  ((prices_of (open_prices "BUY" orders) (open_prices "SELL" orders),
    flat_map order_warning orders), None).
Proof.
  unfold collect_open_order_prices, no_open_orders.
  change (<["BUY":=∅]> (<["SELL":=∅]> ∅)) with (prices_of ∅ ∅).
  rewrite collect_from. rewrite !(right_id_L ∅ (∪)). reflexivity.
Qed.

Lemma elem_of_open_prices side orders p :
  p ∈ open_prices side orders <-> (side, p) ∈ order_keys orders.
Proof.
  unfold open_prices, order_keys. rewrite !elem_of_list_to_set, !list_elem_of_omap.
  unfold price_on. split.
  - intros (o & Ho & Hk). exists o. split; [exact Ho|].
    destruct (order_key o) as [[s q]|]; [|discriminate].
    destruct (decide (s = side)); [|discriminate]. congruence.
  - intros (o & Ho & Hk). exists o. split; [exact Ho|].
    rewrite Hk. rewrite decide_True by reflexivity. reflexivity.
Qed.

Lemma elem_of_order_keys orders k :
  k ∈ order_keys orders <-> exists o, o ∈ orders /\ order_key o = Some k.
Proof. unfold order_keys. rewrite elem_of_list_to_set. apply list_elem_of_omap. Qed.

End ReconcilerFacts.

Section MaintenanceLoop.

Variable Decimal_of_str : string -> option DecimalValue.

Lemma level_action_price_level B S cp L :
  price_level L -> level_action (prices_of B S) cp L = Ok (wanted B S cp L).
Proof.
  intros HL. unfold level_action, wanted.
  rewrite (quantize_price_level L ROUND_HALF_EVEN HL).
  cbn [mbind Result_bind]. rewrite !prices_of_lookup.
  rewrite decide_True by reflexivity.
  rewrite decide_False by discriminate. rewrite decide_True by reflexivity.
  cbn [from_option mbind Result_bind mret Result_ret].
  destruct (Dltb L cp); [reflexivity|]. destruct (Dgtb L cp); reflexivity.
Qed.

Lemma wanted_level B S cp L p : wanted B S cp L = Some p -> pl_level p = L.
Proof.
  unfold wanted. repeat case_match; intros [= <-]; reflexivity.
Qed.

Lemma order_quantity_ok :
  quantize (Decimal_of_int ORDER_QTY_PER_GRID) QUANTITY_PRECISION ROUND_DOWN
  = Ok (mkDecimal 10 0).
Proof. vm_compute. reflexivity. Qed.

Lemma place_limit_order_price_level side p :
  price_level p ->
  place_limit_order TARGET_SYMBOL side (Decimal_of_int ORDER_QTY_PER_GRID) p =
  Ok (mkParams TARGET_SYMBOL (upper side) "LIMIT" "10" (Decimal_str p) "GTC").
Proof.
  intros Hp. unfold place_limit_order.
  rewrite (quantize_price_level p ROUND_DOWN Hp). cbn [mbind Result_bind].
  rewrite order_quantity_ok. reflexivity.
Qed.

(** On price levels the loop runs to its end, and calls for exactly the
    placements [wanted]. *)
Lemma maintain_price_levels transport B S cp levels st :
  Forall price_level levels ->
  exists st',
    fold_abort (maintain_level transport (prices_of B S) cp) st levels = (st', None) /\
    c_calls st' = c_calls st ++ omap (wanted B S cp) levels.
Proof.
  intros HF. revert st. induction HF as [|L levels HL _ IH]; intros st.
  - exists st. cbn. rewrite app_nil_r. split; reflexivity.
  - cbn [fold_abort omap list_omap]. unfold maintain_level at 1.
    rewrite (level_action_price_level B S cp L HL).
    destruct (wanted B S cp L) as [p|] eqn:Hw.
    + pose proof (wanted_level _ _ _ _ _ Hw) as Hp.
      rewrite place_limit_order_price_level by (rewrite Hp; exact HL).
      match goal with
      | |- context [fold_abort _ ?s levels] => destruct (IH s) as (st' & Hst & Hc)
      end.
      exists st'. split; [exact Hst|]. rewrite Hc. cbn [c_calls].
      rewrite <- (assoc_L (++)). reflexivity.
    + exact (IH st).
Qed.

(** The calls, the requests and the exception of the loop do not depend on
    the answers of the exchange or on the counter it starts from. *)
Lemma maintain_level_transport tr1 tr2 prices cp L st1 st2 :
  c_calls st1 = c_calls st2 -> c_requests st1 = c_requests st2 ->
  let r1 := maintain_level tr1 prices cp st1 L in
  let r2 := maintain_level tr2 prices cp st2 L in
  c_calls r1.1 = c_calls r2.1 /\ c_requests r1.1 = c_requests r2.1 /\ r1.2 = r2.2.
Proof.
  intros Hc Hr. unfold maintain_level.
  destruct (level_action prices cp L) as [[p|]|e]; cbn zeta.
  - destruct (place_limit_order _ _ _ _) as [params|e];
      cbn [fst snd c_calls c_requests]; rewrite Hc, Hr; auto.
  - cbn [fst snd]. auto.
  - cbn [fst snd]. auto.
Qed.

Lemma maintain_transport tr1 tr2 prices cp levels st1 st2 :
  c_calls st1 = c_calls st2 -> c_requests st1 = c_requests st2 ->
  let r1 := fold_abort (maintain_level tr1 prices cp) st1 levels in
  let r2 := fold_abort (maintain_level tr2 prices cp) st2 levels in
  c_calls r1.1 = c_calls r2.1 /\ c_requests r1.1 = c_requests r2.1 /\ r1.2 = r2.2.
Proof.
  revert st1 st2. induction levels as [|L levels IH]; intros st1 st2 Hc Hr; cbn zeta.
  - cbn. auto.
  - cbn [fold_abort].
    pose proof (maintain_level_transport tr1 tr2 prices cp L st1 st2 Hc Hr) as Hstep.
    cbn zeta in Hstep.
    destruct (maintain_level tr1 prices cp st1 L) as [s1 [e1|]],
             (maintain_level tr2 prices cp st2 L) as [s2 [e2|]];
      cbn [fst snd] in *; destruct Hstep as (H1 & H2 & H3); try discriminate.
    + auto.
    + apply IH; assumption.
Qed.

Lemma reconcile_unfold cp levels orders :
  reconcile Decimal_of_str cp levels orders =
  c_calls (fold_abort
             (maintain_level (fun _ => NoResponse)
                (prices_of (open_prices Decimal_of_str "BUY" orders)
                           (open_prices Decimal_of_str "SELL" orders)) cp)
             (mkCycle 0 [] []) levels).1.
Proof.
  unfold reconcile, grid_tick. rewrite collect_spec.
  destruct (fold_abort _ _ levels) as [st err]. reflexivity.
Qed.

Lemma reconcile_price_levels cp levels orders :
  Forall price_level levels ->
  reconcile Decimal_of_str cp levels orders =
  omap (wanted (open_prices Decimal_of_str "BUY" orders)
               (open_prices Decimal_of_str "SELL" orders) cp) levels.
Proof.
  intros HF. rewrite reconcile_unfold.
  destruct (maintain_price_levels (fun _ => NoResponse)
              (open_prices Decimal_of_str "BUY" orders)
              (open_prices Decimal_of_str "SELL" orders) cp levels
              (mkCycle 0 [] []) HF) as (st' & Hst & Hc).
  rewrite Hst. exact Hc.
Qed.

End MaintenanceLoop.

Lemma Deqb_not_lt_gt a b : Deqb a b = true -> Dltb a b = false /\ Dgtb a b = false.
Proof.
  unfold Deqb, Dgtb, Dltb. rewrite (Dcompare_antisym b a).
  destruct (Dcompare a b); try discriminate. auto.
Qed.

Lemma NoDup_omap_inj {A B} (f : A -> option B) (g : B -> A) l :
  (forall x y, f x = Some y -> g y = x) -> NoDup l -> NoDup (omap f l).
Proof.
  intros Hg. induction 1 as [|x l Hx _ IH]; cbn [omap list_omap]; [constructor|].
  destruct (f x) as [y|] eqn:Hy; [|exact IH].
  constructor; [|exact IH].
  intros Hin. apply list_elem_of_omap in Hin as (x' & Hx' & Hy').
  apply Hg in Hy, Hy'. congruence.
Qed.

(** C1. For grid levels (price levels, as the calculator returns them), one
    pass calls for a BUY at [L] exactly when [L] is a level below the
    current price at which no open BUY order sits after quantization, for a
    SELL at [L] exactly when [L] is a level above the current price at which
    no open SELL order sits, and for nothing at a level equal to the current
    price; each level is visited once, in order.  With current price 0.65,
    levels 0.60, 0.62, 0.65, 0.68, 0.70 and no open orders it calls for
    BUY 0.60, BUY 0.62, SELL 0.68, SELL 0.70. *)
Theorem reconcile_places_missing_orders :
  (forall Decimal_of_str cp levels orders,
     Forall price_level levels ->
     reconcile Decimal_of_str cp levels orders =
       omap (wanted (open_prices Decimal_of_str "BUY" orders)
                    (open_prices Decimal_of_str "SELL" orders) cp) levels /\
     (forall L, mkPlacement L BUY ∈ reconcile Decimal_of_str cp levels orders <->
        L ∈ levels /\ Dltb L cp = true /\
        ~ (exists o, o ∈ orders /\ order_key Decimal_of_str o = Some ("BUY", L))) /\
     (forall L, mkPlacement L SELL ∈ reconcile Decimal_of_str cp levels orders <->
        L ∈ levels /\ Dgtb L cp = true /\
        ~ (exists o, o ∈ orders /\ order_key Decimal_of_str o = Some ("SELL", L))) /\
     (forall L side, Deqb L cp = true ->
        mkPlacement L side ∉ reconcile Decimal_of_str cp levels orders) /\
     (NoDup levels -> NoDup (reconcile Decimal_of_str cp levels orders))) /\
  (forall Decimal_of_str,
     reconcile Decimal_of_str (mkDecimal 65 (-2))
       [mkDecimal 60 (-2); mkDecimal 62 (-2); mkDecimal 65 (-2);
        mkDecimal 68 (-2); mkDecimal 70 (-2)] [] =
     [mkPlacement (mkDecimal 6000 (-4)) BUY; mkPlacement (mkDecimal 6200 (-4)) BUY;
      mkPlacement (mkDecimal 6800 (-4)) SELL; mkPlacement (mkDecimal 7000 (-4)) SELL]).
Proof.
  split; [|intros P; vm_compute; reflexivity].
  intros P cp levels orders HF.
  pose proof (reconcile_price_levels P cp levels orders HF) as Heq.
  split; [exact Heq|]. rewrite Heq. clear Heq.
  assert (Hkeys : forall side L,
            L ∈ open_prices P side orders <->
            exists o, o ∈ orders /\ order_key P o = Some (side, L)).
  { intros side L. rewrite elem_of_open_prices. apply elem_of_order_keys. }
  split; [|split; [|split]].
  - intros L. rewrite list_elem_of_omap. split.
    + intros (x & Hx & Hw). unfold wanted in Hw.
      destruct (Dltb x cp) eqn:Hlt.
      * destruct (decide (x ∈ open_prices P "BUY" orders)) as [|Hn]; [discriminate|].
        injection Hw as <-. rewrite Hkeys in Hn. auto.
      * destruct (Dgtb x cp); [|discriminate].
        destruct (decide (x ∈ open_prices P "SELL" orders)); discriminate.
    + intros (HL & Hlt & Hn). exists L. split; [exact HL|].
      unfold wanted. rewrite Hlt. rewrite <- Hkeys in Hn.
      rewrite decide_False by exact Hn. reflexivity.
  - intros L. rewrite list_elem_of_omap. split.
    + intros (x & Hx & Hw). unfold wanted in Hw.
      destruct (Dltb x cp) eqn:Hlt.
      * destruct (decide (x ∈ open_prices P "BUY" orders)); discriminate.
      * destruct (Dgtb x cp) eqn:Hgt; [|discriminate].
        destruct (decide (x ∈ open_prices P "SELL" orders)) as [|Hn]; [discriminate|].
        injection Hw as <-. rewrite Hkeys in Hn. auto.
    + intros (HL & Hgt & Hn). exists L. split; [exact HL|].
      unfold wanted. rewrite Hgt. rewrite <- Hkeys in Hn.
      destruct (Dltb L cp) eqn:Hlt.
      * exfalso. unfold Dgtb, Dltb in *. rewrite (Dcompare_antisym cp L) in Hgt.
        destruct (Dcompare L cp); discriminate.
      * rewrite decide_False by exact Hn. reflexivity.
  - intros L side Heq Hin. apply list_elem_of_omap in Hin as (x & Hx & Hw).
    pose proof (wanted_level _ _ _ _ _ Hw) as Hlx. cbn in Hlx. subst x.
    destruct (Deqb_not_lt_gt _ _ Heq) as [Hlt Hgt].
    unfold wanted in Hw. rewrite Hlt, Hgt in Hw. discriminate.
  - apply (NoDup_omap_inj _ pl_level). intros x y. apply wanted_level.
Qed.

(** C7. One pass is a function of the current price, the levels and the
    open orders alone: whatever the loop variables left by earlier passes
    and whatever the exchange answers to the requests, the same inputs give
    the same placements (and requests, warnings and exception), which are
    those of [reconcile]. *)
Theorem reconcile_deterministic Decimal_of_str vars1 vars2 tr1 tr2 levels cp orders :
  (grid_tick Decimal_of_str vars1 tr1 levels cp orders).2 =
  (grid_tick Decimal_of_str vars2 tr2 levels cp orders).2 /\
  forall price,
    placements (grid_tick Decimal_of_str vars1 tr1 levels (Some price) orders).2 =
    reconcile Decimal_of_str price levels orders.
Proof.
  assert (Hgen : forall v1 v2 t1 t2 c,
            (grid_tick Decimal_of_str v1 t1 levels c orders).2 =
            (grid_tick Decimal_of_str v2 t2 levels c orders).2).
  { intros v1 v2 t1 t2 [price|]; [|reflexivity].
    unfold grid_tick. rewrite collect_spec.
    pose proof (maintain_transport t1 t2
                  (prices_of (open_prices Decimal_of_str "BUY" orders)
                             (open_prices Decimal_of_str "SELL" orders))
                  price levels (mkCycle 0 [] []) (mkCycle 0 [] []) eq_refl eq_refl) as H.
    cbn zeta in H.
    destruct (fold_abort (maintain_level t1 _ price) _ levels) as [s1 e1],
             (fold_abort (maintain_level t2 _ price) _ levels) as [s2 e2].
    cbn [fst snd] in *. destruct H as (H1 & H2 & H3). rewrite H1, H2, H3. reflexivity. }
  split; [apply Hgen|].
  intros price. unfold reconcile. f_equal. apply Hgen.
Qed.

Lemma open_prices_app P side l1 l2 :
  open_prices P side (l1 ++ l2) = open_prices P side l1 ∪ open_prices P side l2.
Proof. unfold open_prices. rewrite omap_app. apply list_to_set_app_L. Qed.

Lemma reconcile_same_prices P cp levels os1 os2 :
  open_prices P "BUY" os1 = open_prices P "BUY" os2 ->
  open_prices P "SELL" os1 = open_prices P "SELL" os2 ->
  reconcile P cp levels os1 = reconcile P cp levels os2.
Proof. intros HB HS. rewrite !reconcile_unfold, HB, HS. reflexivity. Qed.

(** C8. An open order whose price is absent, or is text the decimal
    constructor rejects, is skipped with a warning that names it: the
    partition runs to its end, it stores what it stores without that order,
    the other warnings are unchanged, and every level is reconciled as if
    the order were not in the list.  An order whose price text reads as a
    quiet NaN is not reported: [quantize] passes the NaN, the set of its
    side stores it, no warning is printed, and the pass goes on as if the
    order were not in the list. *)
Theorem unparsable_order_is_skipped Decimal_of_str cp levels os1 o os2 :
  ((o_price o = None \/
    exists text, o_price o = Some text /\ Decimal_of_str text = None) ->
   exists prices w1 w2 e,
     (e = KeyError \/ e = InvalidOperation) /\
     collect_open_order_prices Decimal_of_str (os1 ++ o :: os2) =
       ((prices, w1 ++ (o_orderId o, e) :: w2), None) /\
     collect_open_order_prices Decimal_of_str (os1 ++ os2) = ((prices, w1 ++ w2), None) /\
     reconcile Decimal_of_str cp levels (os1 ++ o :: os2) =
     reconcile Decimal_of_str cp levels (os1 ++ os2)) /\
  (forall text side,
     o_price o = Some text -> Decimal_of_str text = Some (NaN false) ->
     o_side o = Some side -> side = "BUY" \/ side = "SELL" ->
     order_warning Decimal_of_str o = [] /\
     collect_open_order_prices Decimal_of_str (os1 ++ o :: os2) =
     collect_open_order_prices Decimal_of_str (os1 ++ os2) /\
     reconcile Decimal_of_str cp levels (os1 ++ o :: os2) =
     reconcile Decimal_of_str cp levels (os1 ++ os2)).
Proof.
  assert (Hskip : forall ws, order_entry Decimal_of_str o = ws ->
            (forall sp, ws <> Ok (sp.1, Finite sp.2)) ->
            forall side, open_prices Decimal_of_str side (os1 ++ o :: os2)
                         = open_prices Decimal_of_str side (os1 ++ os2)).
  { intros ws Hentry Hnf side.
    assert (Hk : price_on Decimal_of_str side o = None).
    { unfold price_on, order_key. rewrite Hentry.
      destruct ws as [[s [p|?|?]]|?]; try reflexivity.
      exfalso. exact (Hnf (s, p) eq_refl). }
    rewrite !open_prices_app, open_prices_cons, Hk. cbn [option_set].
    rewrite (left_id_L ∅ (∪)). reflexivity. }
  split.
  - intros Hbad.
    assert (He : exists e, (e = KeyError \/ e = InvalidOperation) /\
                           order_entry Decimal_of_str o = Raise e).
    { unfold order_entry, order_price.
      destruct Hbad as [Hp|(text & Hp & Ht)]; rewrite Hp; cbn.
      - exists KeyError. auto.
      - rewrite Ht. cbn. exists InvalidOperation. auto. }
    destruct He as (e & He & Hentry).
    assert (Hw : order_warning Decimal_of_str o = [(o_orderId o, e)]).
    { unfold order_warning. rewrite Hentry. reflexivity. }
    pose proof (Hskip _ Hentry ltac:(intros sp; discriminate)) as Hop.
    exists (prices_of (open_prices Decimal_of_str "BUY" (os1 ++ os2))
                      (open_prices Decimal_of_str "SELL" (os1 ++ os2))),
           (flat_map (order_warning Decimal_of_str) os1),
           (flat_map (order_warning Decimal_of_str) os2), e.
    split; [exact He|]. split; [|split].
    + rewrite collect_spec, !Hop, flat_map_app. cbn [flat_map]. rewrite Hw. reflexivity.
    + rewrite collect_spec, flat_map_app. reflexivity.
    + apply reconcile_same_prices; apply Hop.
  - intros text side Hp Hv Hs Hside.
    assert (Hentry : order_entry Decimal_of_str o = Ok (side, NaN false)).
    { unfold order_entry, order_price. rewrite Hp, Hs. cbn [from_option mbind Result_bind].
      rewrite Hv. cbn [from_option mbind Result_bind quantize_value].
      rewrite decide_True by exact Hside. reflexivity. }
    assert (Hw : order_warning Decimal_of_str o = []).
    { unfold order_warning. rewrite Hentry. reflexivity. }
    pose proof (Hskip _ Hentry ltac:(intros sp; discriminate)) as Hop.
    split; [exact Hw|]. split.
    + rewrite !collect_spec, !Hop, !flat_map_app. cbn [flat_map]. rewrite Hw. reflexivity.
    + apply reconcile_same_prices; apply Hop.
Qed.

Lemma unparsable_order_is_skipped_witness :
  let o := mkOrder (Some 3) (Some "BUY") (Some "NaN") (Some "10") (Some "NEW") in
  let os1 := [mkOrder (Some 1) (Some "BUY") (Some "0.6000") (Some "10") (Some "NEW")] in
  let os2 := [mkOrder (Some 2) (Some "SELL") (Some "abc") (Some "10") (Some "NEW")] in
  let levels := [mkDecimal 7000 (-4); mkDecimal 6500 (-4); mkDecimal 6200 (-4);
                 mkDecimal 6000 (-4)] in
  Decimal_of_named_str "NaN" = Some (NaN false) /\
  collect_open_order_prices Decimal_of_named_str (os1 ++ o :: os2) =
    ((prices_of {[mkDecimal 6000 (-4)]} ∅, [(Some 2, InvalidOperation)]), None) /\
  reconcile Decimal_of_named_str (mkDecimal 65 (-2)) levels (os1 ++ o :: os2) =
  reconcile Decimal_of_named_str (mkDecimal 65 (-2)) levels (os1 ++ os2).
Proof.
  intros o os1 os2 levels.
  assert (HP : Decimal_of_named_str "NaN" = Some (NaN false)) by reflexivity.
  destruct (proj2 (unparsable_order_is_skipped Decimal_of_named_str (mkDecimal 65 (-2))
                     levels os1 o os2) "NaN" "BUY" eq_refl HP eq_refl (or_introl eq_refl))
    as (_ & Hc & Hr).
  split; [exact HP|]. split; [|exact Hr].
  rewrite Hc. vm_compute. reflexivity.
Defined.

Lemma order_key_fields P id1 id2 side price q1 q2 st1 st2 :
  order_key P (mkOrder id1 side price q1 st1) = order_key P (mkOrder id2 side price q2 st2).
Proof. reflexivity. Qed.

(** C10. The placements of a pass depend on the open orders only through
    their (side, quantized price) pairs: two snapshots with the same set of
    pairs give the same placements.  The pair of an order does not involve
    its orderId, quantity or status, and the set does not count how many
    orders share a pair. *)
Theorem reconcile_depends_on_order_keys Decimal_of_str :
  (forall cp levels os1 os2,
     order_keys Decimal_of_str os1 = order_keys Decimal_of_str os2 ->
     reconcile Decimal_of_str cp levels os1 = reconcile Decimal_of_str cp levels os2) /\
  (forall id1 id2 side price q1 q2 st1 st2,
     order_key Decimal_of_str (mkOrder id1 side price q1 st1) =
     order_key Decimal_of_str (mkOrder id2 side price q2 st2)) /\
  (forall o os,
     order_keys Decimal_of_str (o :: o :: os) = order_keys Decimal_of_str (o :: os)).
Proof.
  split; [|split].
  - intros cp levels os1 os2 Hk.
    apply reconcile_same_prices; apply set_eq; intros p;
      rewrite !elem_of_open_prices, Hk; reflexivity.
  - intros. apply order_key_fields.
  - intros o os. apply set_eq. intros k. rewrite !elem_of_order_keys.
    split; intros (x & Hx & Hkx); exists x; (split; [|exact Hkx]).
    + apply elem_of_cons in Hx as [->|Hx]; [apply elem_of_cons; left; reflexivity|exact Hx].
    + apply elem_of_cons. right. exact Hx.
Qed.

Lemma reconcile_depends_on_order_keys_witness :
  let os1 := [mkOrder (Some 1) (Some "BUY") (Some "0.6000") (Some "10") (Some "NEW");
              mkOrder (Some 2) (Some "SELL") (Some "0.7") (Some "10") (Some "NEW")] in
  let os2 := [mkOrder (Some 8) (Some "SELL") (Some "0.70001") (Some "3") (Some "PARTIALLY_FILLED");
              mkOrder (Some 9) (Some "BUY") (Some "0.60") (Some "25") (Some "NEW");
              mkOrder None (Some "BUY") (Some "0.6") None None] in
  let levels := [mkDecimal 7000 (-4); mkDecimal 6500 (-4); mkDecimal 6200 (-4);
                 mkDecimal 6000 (-4)] in
  order_keys Decimal_of_plain_str os1 = order_keys Decimal_of_plain_str os2 /\
  reconcile Decimal_of_plain_str (mkDecimal 65 (-2)) levels os1 =
  reconcile Decimal_of_plain_str (mkDecimal 65 (-2)) levels os2.
Proof.
  intros os1 os2 levels.
  assert (H : order_keys Decimal_of_plain_str os1 = order_keys Decimal_of_plain_str os2).
  { vm_compute. reflexivity. }
  split; [exact H|].
  exact (proj1 (reconcile_depends_on_order_keys Decimal_of_plain_str)
               (mkDecimal 65 (-2)) levels os1 os2 H).
Defined.

Lemma reconcile_places_missing_orders_witness :
  let levels := [mkDecimal 7000 (-4); mkDecimal 6800 (-4); mkDecimal 6500 (-4);
                 mkDecimal 6200 (-4); mkDecimal 6000 (-4)] in
  let orders := [mkOrder (Some 1) (Some "BUY") (Some "0.6000") (Some "10") (Some "NEW");
                 mkOrder (Some 2) (Some "SELL") (Some "0.7") (Some "10") (Some "NEW")] in
  Forall price_level levels /\
  reconcile Decimal_of_plain_str (mkDecimal 65 (-2)) levels orders =
    omap (wanted (open_prices Decimal_of_plain_str "BUY" orders)
                 (open_prices Decimal_of_plain_str "SELL" orders) (mkDecimal 65 (-2)))
         levels.
Proof.
  intros levels orders.
  assert (H : Forall price_level levels).
  { repeat constructor; vm_compute; congruence. }
  split; [exact H|].
  exact (proj1 (proj1 reconcile_places_missing_orders Decimal_of_plain_str
                      (mkDecimal 65 (-2)) levels orders H)).
Defined.

(** ** The order intent emitter *)

(** C3, as the code has it.  [place_limit_order] has no minimum check: it
    rounds the price and the quantity down to their quanta and sends an
    order request carrying them, whatever the quantity is; a quantity
    in [0, 1) is sent as quantity 0. *)
Theorem place_limit_order_sends_rounded symbol side quantity price :
  0 <= coef quantity -> Dltb quantity (mkDecimal 1 28) = true ->
  0 <= coef price -> Dltb price (mkDecimal 1 24) = true ->
  exists fq fp,
    quantize quantity QUANTITY_PRECISION ROUND_DOWN = Ok fq /\
    quantize price PRICE_PRECISION ROUND_DOWN = Ok fp /\
    place_limit_order symbol side quantity price =
      Ok (mkParams symbol (upper side) "LIMIT" (Decimal_str fq) (Decimal_str fp) "GTC") /\
    (Dltb quantity (Decimal_of_int 1) = true ->
     fq = mkDecimal 0 0 /\ Decimal_str fq = "0").
Proof.
  intros Hq0 Hq Hp0 Hp.
  destruct (quantize_price_down price Hp0 Hp) as (fp & Hfp & _).
  assert (Hfq : quantize quantity QUANTITY_PRECISION ROUND_DOWN
                = Ok (rescale quantity 0 ROUND_DOWN)).
  { apply (quantize_down_ok quantity QUANTITY_PRECISION);
      [cbv; split; discriminate|exact Hq0|exact Hq]. }
  exists (rescale quantity 0 ROUND_DOWN), fp.
  split; [exact Hfq|]. split; [exact Hfp|]. split.
  - unfold place_limit_order. rewrite Hfp. cbn [mbind Result_bind].
    rewrite Hfq. reflexivity.
  - intros Hlt.
    destruct (rescale_down_bounds quantity 0 Hq0) as (Hnn & Hle & _).
    pose proof (expo_rescale quantity 0 ROUND_DOWN) as Hex.
    destruct (rescale quantity 0 ROUND_DOWN) as [c e]; cbn [coef expo] in *. subst e.
    apply Dleb_iff in Hle. apply Dltb_iff in Hlt. cbn [coef expo Decimal_of_int] in *.
    rewrite (Z.min_comm (expo quantity) 0) in Hlt.
    assert (0 < 10 ^ (0 - Z.min 0 (expo quantity))) by (apply pow10_pos; lia).
    assert (c = 0) by nia. subst c. split; reflexivity.
Qed.

Lemma place_limit_order_sends_rounded_witness :
  (0 <= coef (mkDecimal 3 (-1)) /\
   Dltb (mkDecimal 3 (-1)) (mkDecimal 1 28) = true /\
   0 <= coef (mkDecimal 65 (-2)) /\
   Dltb (mkDecimal 65 (-2)) (mkDecimal 1 24) = true) /\
  exists fq fp,
    quantize (mkDecimal 3 (-1)) QUANTITY_PRECISION ROUND_DOWN = Ok fq /\
    quantize (mkDecimal 65 (-2)) PRICE_PRECISION ROUND_DOWN = Ok fp /\
    place_limit_order "CRVUSDT" "BUY" (mkDecimal 3 (-1)) (mkDecimal 65 (-2)) =
      Ok (mkParams "CRVUSDT" (upper "BUY") "LIMIT" (Decimal_str fq) (Decimal_str fp) "GTC") /\
    (Dltb (mkDecimal 3 (-1)) (Decimal_of_int 1) = true ->
     fq = mkDecimal 0 0 /\ Decimal_str fq = "0").
Proof.
  assert (H1 : 0 <= coef (mkDecimal 3 (-1))) by (simpl; lia).
  assert (H2 : Dltb (mkDecimal 3 (-1)) (mkDecimal 1 28) = true) by (vm_compute; reflexivity).
  assert (H3 : 0 <= coef (mkDecimal 65 (-2))) by (simpl; lia).
  assert (H4 : Dltb (mkDecimal 65 (-2)) (mkDecimal 1 24) = true) by (vm_compute; reflexivity).
  split; [auto|].
  exact (place_limit_order_sends_rounded "CRVUSDT" "BUY" (mkDecimal 3 (-1))
           (mkDecimal 65 (-2)) H1 H2 H3 H4).
Defined.

(** C3, as the specification has it, fails: with quantity 0.3 and the
    quantity quantum 1 the quantity rounds down to 0, and the function
    raises nothing: it sends a request for quantity 0. *)
Lemma place_limit_order_zero_quantity_sent :
  quantize (mkDecimal 3 (-1)) QUANTITY_PRECISION ROUND_DOWN = Ok (mkDecimal 0 0) /\
  place_limit_order "CRVUSDT" "BUY" (mkDecimal 3 (-1)) (mkDecimal 65 (-2)) =
    Ok (mkParams "CRVUSDT" "BUY" "LIMIT" "0" "0.6500" "GTC").
Proof. split; vm_compute; reflexivity. Qed.

(** ** The grid level calculator on the configuration of the script *)

Lemma script_grid_ratio :
  grid_ratio Dpow_cr (mkDecimal 7 (-1)) (mkDecimal 6 (-1)) 10 =
    Ok (mkDecimal 1015534493002352455906156671 (-27)).
Proof. vm_compute. reflexivity. Qed.

Lemma script_raw_levels_eq :
  raw_levels Dpow_cr (mkDecimal 7 (-1)) (mkDecimal 6 (-1)) 10 = Ok script_raw_levels.
Proof. vm_compute. reflexivity. Qed.

Lemma script_raw_levels_below :
  Forall (fun r => Dltb r (mkDecimal 1 24) = true) script_raw_levels.
Proof. repeat constructor. Qed.

Lemma script_valid : valid_config (mkDecimal 7 (-1)) (mkDecimal 6 (-1)) 10.
Proof. split; [reflexivity|]. split; [reflexivity|]. lia. Qed.

(** C2.  On the configuration of the script itself (upper 0.70, lower 0.60,
    10 grids) the calculator returns eleven descending levels that end at
    0.6000 but start at 0.6999, one quantum below the upper price: the top
    raw level [L * r ^ 10] comes out as 0.6999999999999999999999999978 and
    is rounded down.  The same happens without any root being taken, for
    upper 0.7, lower 0.3 and one grid. *)
Theorem top_level_below_upper_price :
  raw_levels Dpow_cr (mkDecimal 7 (-1)) (mkDecimal 6 (-1)) 10 = Ok script_raw_levels /\
  calculate_grid_levels Dpow_cr (mkDecimal 7 (-1)) (mkDecimal 6 (-1)) 10 =
    Ok [mkDecimal 6999 (-4); mkDecimal 6892 (-4); mkDecimal 6787 (-4);
        mkDecimal 6683 (-4); mkDecimal 6581 (-4); mkDecimal 6480 (-4);
        mkDecimal 6381 (-4); mkDecimal 6283 (-4); mkDecimal 6187 (-4);
        mkDecimal 6093 (-4); mkDecimal 6000 (-4)] /\
  quantize (mkDecimal 7 (-1)) PRICE_PRECISION ROUND_DOWN = Ok (mkDecimal 7000 (-4)) /\
  quantize (mkDecimal 6 (-1)) PRICE_PRECISION ROUND_DOWN = Ok (mkDecimal 6000 (-4)) /\
  calculate_grid_levels Dpow_cr (mkDecimal 7 (-1)) (mkDecimal 3 (-1)) 1 =
    Ok [mkDecimal 6999 (-4); mkDecimal 3000 (-4)].
Proof.
  split; [exact script_raw_levels_eq|].
  split; [vm_compute; reflexivity|].
  split; [vm_compute; reflexivity|].
  split; vm_compute; reflexivity.
Qed.

(** C9, as the code has it.  For a valid configuration whose raw levels are
    computed (no arithmetic exception) and lie below [10 ^ 24], so that
    each fits the 28 digits of the context once quantized, the calculator
    returns a non-empty list of price levels; each is a raw level rounded
    down to the quantum, so a non-negative multiple of the quantum that is
    at most its raw level and less than one quantum below it; and each
    level is at least one quantum below the one before it. *)
Theorem calculate_grid_levels_quantized_descending Dpow u l n raws :
  (forall x y r, 0 <= coef x -> Dpow x y = Ok r -> 0 <= coef r) ->
  valid_config u l n ->
  raw_levels Dpow u l n = Ok raws ->
  Forall (fun r => Dltb r (mkDecimal 1 24) = true) raws ->
  exists levels,
    calculate_grid_levels Dpow u l n = Ok levels /\
    levels <> [] /\
    Forall price_level levels /\
    (forall q, q ∈ levels ->
       exists r, r ∈ raws /\ quantize r PRICE_PRECISION ROUND_DOWN = Ok q /\
                 Dleb q r = true /\ Dltb r (mkDecimal (coef q + 1) (-4)) = true) /\
    Sorted quantum_below levels.
Proof.
  intros Hpow Hv Hraw Hb.
  destruct (calculate_grid_levels_ok Dpow Hpow u l n raws Hv Hraw Hb)
    as (levels & H1 & H2 & _ & H4 & H5 & H6 & _).
  exists levels. auto.
Qed.

Lemma calculate_grid_levels_quantized_descending_witness :
  valid_config (mkDecimal 7 (-1)) (mkDecimal 6 (-1)) 10 /\
  raw_levels Dpow_cr (mkDecimal 7 (-1)) (mkDecimal 6 (-1)) 10 = Ok script_raw_levels /\
  Forall (fun r => Dltb r (mkDecimal 1 24) = true) script_raw_levels /\
  exists levels,
    calculate_grid_levels Dpow_cr (mkDecimal 7 (-1)) (mkDecimal 6 (-1)) 10 = Ok levels /\
    levels <> [] /\ Forall price_level levels /\ Sorted quantum_below levels.
Proof.
  split; [exact script_valid|]. split; [exact script_raw_levels_eq|].
  split; [exact script_raw_levels_below|].
  destruct (calculate_grid_levels_quantized_descending Dpow_cr
              (mkDecimal 7 (-1)) (mkDecimal 6 (-1)) 10 script_raw_levels
              Dpow_cr_nonneg script_valid script_raw_levels_eq script_raw_levels_below)
    as (levels & H1 & H2 & H3 & _ & H5).
  exists levels. auto.
Defined.

(** C9, as the specification has it, fails: upper 2.5E+24, lower 1E+24 and
    one grid are a valid configuration whose ratio and raw levels are
    computed without overflow, and the calculator returns no list: the
    quantization of the levels raises InvalidOperation. *)
Lemma calculate_grid_levels_large_prices_raise :
  valid_config (mkDecimal 25 23) (mkDecimal 1 24) 1 /\
  raw_levels Dpow_cr (mkDecimal 25 23) (mkDecimal 1 24) 1 =
    Ok [mkDecimal 1 24; mkDecimal 25 23] /\
  calculate_grid_levels Dpow_cr (mkDecimal 25 23) (mkDecimal 1 24) 1 =
    Raise InvalidOperation.
Proof.
  split; [repeat split; vm_compute; congruence|].
  split; vm_compute; reflexivity.
Qed.

(** C4, as the code has it.  The calculator returns its empty error result
    whenever the upper price is at most the lower price, or there is less
    than one grid, or the lower price is at most zero; and for a valid
    configuration whose raw levels are computed and lie below [10 ^ 24] it
    returns a non-empty list of at most [num_grids + 1] levels. *)
Theorem calculate_grid_levels_range_check Dpow u l n :
  (invalid_range u l n -> calculate_grid_levels Dpow u l n = Ok []) /\
  ((forall x y r, 0 <= coef x -> Dpow x y = Ok r -> 0 <= coef r) ->
   valid_config u l n ->
   forall raws,
     raw_levels Dpow u l n = Ok raws ->
     Forall (fun r => Dltb r (mkDecimal 1 24) = true) raws ->
     exists levels,
       calculate_grid_levels Dpow u l n = Ok levels /\ levels <> [] /\
       (length levels <= Z.to_nat (n + 1))%nat).
Proof.
  split; [apply calculate_grid_levels_invalid|].
  intros Hpow Hv raws Hraw Hb.
  destruct (calculate_grid_levels_ok Dpow Hpow u l n raws Hv Hraw Hb)
    as (levels & H1 & H2 & H3 & _).
  exists levels. auto.
Qed.

Lemma one_grid_raw_levels_eq :
  raw_levels Dpow_cr (mkDecimal 7 (-1)) (mkDecimal 3 (-1)) 1 =
    Ok [mkDecimal 3 (-1); mkDecimal 6999999999999999999999999999 (-28)].
Proof. vm_compute. reflexivity. Qed.

Lemma calculate_grid_levels_range_check_witness :
  (invalid_range (mkDecimal 6 (-1)) (mkDecimal 7 (-1)) 10 /\
   calculate_grid_levels Dpow_cr (mkDecimal 6 (-1)) (mkDecimal 7 (-1)) 10 = Ok []) /\
  (valid_config (mkDecimal 7 (-1)) (mkDecimal 3 (-1)) 1 /\
   exists levels,
     calculate_grid_levels Dpow_cr (mkDecimal 7 (-1)) (mkDecimal 3 (-1)) 1 = Ok levels /\
     levels <> [] /\ (length levels <= Z.to_nat (1 + 1))%nat).
Proof.
  assert (Hi : invalid_range (mkDecimal 6 (-1)) (mkDecimal 7 (-1)) 10).
  { left. reflexivity. }
  assert (Hv : valid_config (mkDecimal 7 (-1)) (mkDecimal 3 (-1)) 1).
  { split; [reflexivity|]. split; [reflexivity|]. lia. }
  split.
  - split; [exact Hi|].
    exact (proj1 (calculate_grid_levels_range_check Dpow_cr
                    (mkDecimal 6 (-1)) (mkDecimal 7 (-1)) 10) Hi).
  - split; [exact Hv|].
    refine (proj2 (calculate_grid_levels_range_check Dpow_cr
                     (mkDecimal 7 (-1)) (mkDecimal 3 (-1)) 1)
                  Dpow_cr_nonneg Hv _ one_grid_raw_levels_eq _).
    repeat constructor.
Defined.

(** C4, as the specification has it, fails: upper 1E+30, lower 1 and one
    grid meet every precondition, and the calculator fails: the
    quantization of the level 1E+30 to four decimal places needs more than
    the 28 digits of the context and raises InvalidOperation, outside the
    [try] of the function. *)
Lemma calculate_grid_levels_valid_range_raises :
  valid_config (mkDecimal 1 30) (mkDecimal 1 0) 1 /\
  ~ invalid_range (mkDecimal 1 30) (mkDecimal 1 0) 1 /\
  calculate_grid_levels Dpow_cr (mkDecimal 1 30) (mkDecimal 1 0) 1 =
    Raise InvalidOperation.
Proof.
  assert (Hv : valid_config (mkDecimal 1 30) (mkDecimal 1 0) 1).
  { repeat split; vm_compute; congruence. }
  split; [exact Hv|]. split; [apply valid_not_invalid, Hv|].
  vm_compute. reflexivity.
Qed.

(** ** Deduplication *)

Lemma drop_near_kept_price_levels kept l :
  price_level kept -> Forall price_level l ->
  drop_near_kept (mkDecimal 5 (-5)) kept l = Ok (distinct_from kept l).
Proof.
  revert kept; induction l as [|x l IH]; intros kept Hk Hl; [reflexivity|].
  apply Forall_cons in Hl as [Hx Hl].
  destruct (price_gap x kept Hx Hk) as (Hs & Ha & Hg).
  cbn [drop_near_kept distinct_from]. rewrite Hs. cbn [mbind Result_bind].
  rewrite Ha. cbn [mbind Result_bind].
  rewrite Dleb_negb_Dltb. fold (Dgtb (mkDecimal (Z.abs (coef x - coef kept)) (-4))
                                     (mkDecimal 5 (-5))).
  destruct (decide (x = kept)) as [->|Hne].
  - destruct (Dgtb _ _); [exfalso; exact (proj1 Hg eq_refl eq_refl)|].
    cbn [negb]. apply IH; assumption.
  - apply Hg in Hne. rewrite Hne. cbn [negb].
    rewrite (IH x Hx Hl). reflexivity.
Qed.

Lemma distinct_from_gaps prev l :
  price_level prev -> Forall price_level l ->
  Sorted (gap_exceeds (mkDecimal 5 (-5))) (prev :: distinct_from prev l).
Proof.
  revert prev; induction l as [|x l IH]; intros prev Hp Hl.
  - repeat constructor.
  - apply Forall_cons in Hl as [Hx Hl]. cbn [distinct_from].
    destruct (decide (x = prev)) as [->|Hne]; [apply IH; assumption|].
    constructor; [apply IH; assumption|]. constructor.
    destruct (price_gap x prev Hx Hp) as (Hs & Ha & Hg).
    eexists _, _. split; [exact Hs|]. split; [exact Ha|]. apply Hg, Hne.
Qed.

(** C6. On descending-sorted price levels the uniqueness loop of the
    calculator, which compares each level with the one before it in the
    sorted list, does what the specification words: it drops exactly the
    levels within half a quantum of the previous kept level.  Any two
    consecutive levels it returns differ by more than half a quantum (by a
    full quantum at least), every level it returns is one of the input, and
    every level of the input is returned. *)
Theorem unique_levels_drops_near_duplicates l :
  Forall price_level l -> Sorted Dge l ->
  Ddiv PRICE_PRECISION (Decimal_of_int 2) = Ok (mkDecimal 5 (-5)) /\
  exists u,
    unique_levels (mkDecimal 5 (-5)) l = Ok u /\
    dedupe_spec (mkDecimal 5 (-5)) l = Ok u /\
    Sorted (gap_exceeds (mkDecimal 5 (-5))) u /\
    Sorted quantum_below u /\
    (forall x, x ∈ u <-> x ∈ l).
Proof.
  intros Hl Hs. split; [exact tolerance_eq|].
  destruct l as [|x rest].
  { exists []. repeat split; try constructor; intros H; exact H. }
  apply Forall_cons in Hl as [Hx Hrest].
  exists (x :: distinct_from x rest).
  split. { cbn [unique_levels]. rewrite unique_from_price_levels by assumption. reflexivity. }
  split. { cbn [dedupe_spec]. rewrite drop_near_kept_price_levels by assumption. reflexivity. }
  split; [apply distinct_from_gaps; assumption|].
  split; [apply distinct_from_sorted; assumption|].
  intros y. split; intros Hy.
  - apply elem_of_cons in Hy as [->|Hy]; apply elem_of_cons; [left; reflexivity|].
    right. eapply distinct_from_subset, Hy.
  - apply elem_of_cons in Hy as [->|Hy]; [apply elem_of_cons; left; reflexivity|].
    destruct (distinct_from_complete x rest y Hy) as [->|Hd];
      apply elem_of_cons; [left; reflexivity|right; exact Hd].
Qed.

Lemma unique_levels_drops_near_duplicates_witness :
  let l := [mkDecimal 7000 (-4); mkDecimal 7000 (-4); mkDecimal 6999 (-4);
            mkDecimal 6500 (-4); mkDecimal 6500 (-4); mkDecimal 6500 (-4);
            mkDecimal 6000 (-4)] in
  (Forall price_level l /\ Sorted Dge l) /\
  exists u,
    unique_levels (mkDecimal 5 (-5)) l = Ok u /\
    dedupe_spec (mkDecimal 5 (-5)) l = Ok u /\
    Sorted (gap_exceeds (mkDecimal 5 (-5))) u /\
    Sorted quantum_below u /\
    (forall x, x ∈ u <-> x ∈ l).
Proof.
  intros l.
  assert (H1 : Forall price_level l) by (repeat constructor; vm_compute; congruence).
  assert (H2 : Sorted Dge l) by (repeat constructor).
  split; [auto|].
  exact (proj2 (unique_levels_drops_near_duplicates l H1 H2)).
Defined.

(** ** The raw levels *)

Lemma round_mag_half m k :
  0 <= m -> 0 < k ->
  2 * Z.abs (round_mag ROUND_HALF_EVEN m k * 10 ^ k - m) <= 10 ^ k.
Proof.
  intros Hm Hk. unfold round_mag.
  assert (Hp : 0 < 10 ^ k) by (apply pow10_pos; lia).
  pose proof (Z.div_mod m (10 ^ k) ltac:(lia)) as Hdm.
  pose proof (Z.mod_pos_bound m (10 ^ k) Hp) as Hb.
  set (P := 10 ^ k) in *. set (q := m / P) in *. set (rest := m mod P) in *.
  destruct (Z.ltb_spec P (2 * rest)) as [H1|H1]; cbn [orb].
  - replace ((q + 1) * P - m) with (P - rest) by lia. lia.
  - destruct (Z.eqb_spec P (2 * rest)) as [H2|H2]; cbn [andb].
    + destruct (Z.odd q).
      * replace ((q + 1) * P - m) with (P - rest) by lia. lia.
      * replace (q * P - m) with (- rest) by lia. lia.
    + replace (q * P - m) with (- rest) by lia. lia.
Qed.

Lemma round_mag_le m k d :
  0 <= m -> 0 < k -> 0 <= d -> m < 10 ^ (k + d) ->
  round_mag ROUND_HALF_EVEN m k <= 10 ^ d.
Proof.
  intros Hm Hk Hd Hlt. unfold round_mag.
  assert (Hp : 0 < 10 ^ k) by (apply pow10_pos; lia).
  assert (Hq : m / 10 ^ k < 10 ^ d).
  { apply Z.div_lt_upper_bound; [exact Hp|]. rewrite <- Z.pow_add_r by lia. exact Hlt. }
  destruct (_ || _); lia.
Qed.

(** [Dfix] rounds to nearest: its result is within half a unit of its last
    digit of the operand. *)
Lemma Dfix_half_ulp d r : Dfix d = Ok r -> within_half_ulp d r.
Proof.
  destruct d as [c e]. unfold Dfix, within_half_ulp; cbn [coef expo].
  destruct (Z.eqb_spec c 0) as [->|Hc].
  { intros [= <-]. left. split; reflexivity. }
  destruct (Etop <? ndigits c + e - prec); [discriminate|].
  set (x := Z.max (ndigits c + e - prec) Etiny).
  destruct (Z.ltb_spec e x) as [Hlt|Hge].
  2:{ intros [= <-]. right. cbn [coef expo]. rewrite Z.sub_diag.
      change (10 ^ 0) with 1. split; [lia|]. replace (c * 1 - c) with 0 by lia. cbn. lia. }
  assert (Hk : 0 < x - e) by lia.
  assert (Hp : 0 < 10 ^ (x - e)) by (apply pow10_pos; lia).
  pose proof (round_mag_half (Z.abs c) (x - e) ltac:(lia) Hk) as Hhalf.
  assert (Hle : round_mag ROUND_HALF_EVEN (Z.abs c) (x - e) <= 10 ^ prec).
  { pose proof (ndigits_spec c Hc) as [_ Hhi].
    pose proof (ndigits_pos c) as Hn1.
    apply round_mag_le; [lia|exact Hk|unfold prec; lia|].
    eapply Z.lt_le_trans; [exact Hhi|]. apply Z.pow_le_mono_r; lia. }
  pose proof (round_mag_nonneg ROUND_HALF_EVEN (Z.abs c) (x - e) ltac:(lia)) as Hnn.
  unfold round_coef.
  set (qq := round_mag ROUND_HALF_EVEN (Z.abs c) (x - e)) in *.
  assert (Hdiff : Z.abs (Z.sgn c * qq * 10 ^ (x - e) - c) = Z.abs (qq * 10 ^ (x - e) - Z.abs c)).
  { destruct (Z.lt_trichotomy c 0) as [Hneg|[?|Hpos]]; [|contradiction|].
    - rewrite Z.sgn_neg by lia. rewrite (Z.abs_neq c) by lia.
      replace (-1 * qq * 10 ^ (x - e) - c) with (- (qq * 10 ^ (x - e) - - c)) by lia.
      apply Z.abs_opp.
    - rewrite Z.sgn_pos by lia. rewrite (Z.abs_eq c) by lia. f_equal. lia. }
  destruct (Z.ltb_spec prec (ndigits (Z.sgn c * qq))) as [Hcarry|_].
  - destruct (Etop <? x + 1); [discriminate|]. intros [= <-]. right. cbn [coef expo].
    split; [lia|].
    assert (Hqq : qq = 10 ^ prec).
    { destruct (Z.lt_ge_cases (Z.abs (Z.sgn c * qq)) (10 ^ prec)) as [Hs|Hs].
      - pose proof (ndigits_le (Z.sgn c * qq) prec ltac:(unfold prec; lia) Hs). lia.
      - destruct (Z.lt_trichotomy c 0) as [Hneg|[?|Hpos]]; [|contradiction|].
        + rewrite Z.sgn_neg in Hs by lia. lia.
        + rewrite Z.sgn_pos in Hs by lia. lia. }
    assert (Hquot : Z.quot (Z.sgn c * qq) 10 * 10 = Z.sgn c * qq).
    { rewrite Hqq. change (10 ^ prec) with (10 ^ 27 * 10).
      destruct (Z.lt_trichotomy c 0) as [Hneg|[?|Hpos]]; [|contradiction|].
      - rewrite Z.sgn_neg by lia. reflexivity.
      - rewrite Z.sgn_pos by lia. reflexivity. }
    replace (x + 1 - e) with (Z.succ (x - e)) by lia.
    rewrite Z.pow_succ_r by lia.
    replace (Z.quot (Z.sgn c * qq) 10 * (10 * 10 ^ (x - e)))
      with (Z.quot (Z.sgn c * qq) 10 * 10 * 10 ^ (x - e)) by lia.
    rewrite Hquot, Hdiff. lia.
  - intros [= <-]. right. cbn [coef expo]. split; [lia|].
    rewrite Hdiff. exact Hhalf.
Qed.

Lemma units_shift m m' d :
  m' <= m -> m <= expo d -> units m' d = units m d * 10 ^ (m - m').
Proof.
  intros H1 H2. unfold units.
  replace (expo d - m') with ((expo d - m) + (m - m')) by lia.
  rewrite Z.pow_add_r by lia. lia.
Qed.

Lemma rel_err_le_at m k x y :
  m <= expo x -> m <= expo y ->
  rel_err_le k x y <->
  10 ^ 27 * Z.abs (units m x - units m y) <= k * Z.abs (units m x).
Proof.
  intros Hx Hy. unfold rel_err_le. cbv zeta.
  set (m0 := Z.min (expo x) (expo y)).
  assert (Hm : m <= m0) by (unfold m0; lia).
  rewrite (units_shift m0 m x), (units_shift m0 m y) by (unfold m0; lia).
  assert (HK : 0 < 10 ^ (m0 - m)) by (apply pow10_pos; lia).
  set (K := 10 ^ (m0 - m)) in *. set (X := units m0 x). set (Y := units m0 y).
  replace (X * K - Y * K) with ((X - Y) * K) by lia.
  rewrite !Z.abs_mul, (Z.abs_eq K) by lia.
  rewrite !Z.mul_assoc. split; intros H.
  - apply Z.mul_le_mono_nonneg_r; [lia|exact H].
  - eapply Z.mul_le_mono_pos_r; [exact HK|exact H].
Qed.

Lemma units_Dmul_exact m1 m2 a b :
  m1 <= expo a -> m2 <= expo b ->
  units (m1 + m2) (Dmul_exact a b) = units m1 a * units m2 b.
Proof.
  intros H1 H2. unfold units, Dmul_exact. cbn [coef expo].
  replace (expo a + expo b - (m1 + m2)) with ((expo a - m1) + (expo b - m2)) by lia.
  rewrite Z.pow_add_r by lia. lia.
Qed.

(** A result that [Dfix] rounded, above the smallest exponent, has all 28
    digits. *)
Lemma Dfix_full_digits d r :
  Dfix d = Ok r -> expo d < expo r -> Etiny < expo r -> 10 ^ 27 <= Z.abs (coef r).
Proof.
  destruct d as [c e]. unfold Dfix; cbn [coef expo].
  destruct (Z.eqb_spec c 0) as [->|Hc].
  { intros [= <-]. cbn [expo]. unfold Etiny, Emin, Emax, prec. lia. }
  destruct (Etop <? ndigits c + e - prec); [discriminate|].
  set (x := Z.max (ndigits c + e - prec) Etiny).
  destruct (Z.ltb_spec e x) as [Hlt|Hge].
  2:{ intros [= <-]. cbn [expo]. lia. }
  pose proof (ndigits_spec c Hc) as [Hlo Hhi].
  pose proof (ndigits_pos c) as Hn1.
  assert (Hk : 0 < x - e) by lia.
  assert (Hp : 0 < 10 ^ (x - e)) by (apply pow10_pos; lia).
  pose proof (round_mag_nonneg ROUND_HALF_EVEN (Z.abs c) (x - e) ltac:(lia)) as Hnn.
  assert (Hle : round_mag ROUND_HALF_EVEN (Z.abs c) (x - e) <= 10 ^ prec).
  { apply round_mag_le; [lia|exact Hk|unfold prec; lia|].
    eapply Z.lt_le_trans; [exact Hhi|]. apply Z.pow_le_mono_r; lia. }
  unfold round_coef.
  set (qq := round_mag ROUND_HALF_EVEN (Z.abs c) (x - e)) in *.
  assert (Habs : Z.abs (Z.sgn c * qq) = qq).
  { rewrite Z.abs_mul, (Z.abs_eq qq) by lia.
    assert (Z.abs (Z.sgn c) = 1) by (destruct c; try contradiction; reflexivity).
    lia. }
  destruct (Z.ltb_spec prec (ndigits (Z.sgn c * qq))) as [Hcarry|_].
  - destruct (Etop <? x + 1); [discriminate|]. intros [= <-]. cbn [coef expo]. intros _ _.
    assert (Hqq : qq = 10 ^ prec).
    { destruct (Z.lt_ge_cases (Z.abs (Z.sgn c * qq)) (10 ^ prec)) as [Hs|Hs].
      - pose proof (ndigits_le (Z.sgn c * qq) prec ltac:(unfold prec; lia) Hs). lia.
      - lia. }
    rewrite Hqq. change (10 ^ prec) with (10 ^ 27 * 10).
    destruct (Z.lt_trichotomy c 0) as [Hneg|[?|Hpos]]; [|contradiction|].
    + rewrite Z.sgn_neg by lia. vm_compute. discriminate.
    + rewrite Z.sgn_pos by lia. vm_compute. discriminate.
  - intros [= <-]. cbn [coef expo]. intros _ Hx. rewrite Habs.
    assert (Ex : x = ndigits c + e - prec) by (unfold x in *; lia).
    assert (Hq : 10 ^ 27 <= Z.abs c / 10 ^ (x - e)).
    { apply Z.div_le_lower_bound; [exact Hp|].
      rewrite <- Z.pow_add_r by lia.
      replace (x - e + 27) with (ndigits c - 1) by (unfold prec in Ex; lia).
      exact Hlo. }
    unfold qq, round_mag. destruct (_ || _); lia.
Qed.

(** The relative error of [Dfix], away from the smallest exponent: half a
    part in [10 ^ 27] of the result. *)
Lemma Dfix_rel m d r :
  Dfix d = Ok r -> Etiny < expo r -> coef d <> 0 -> m <= expo d ->
  m <= expo r /\
  2 * 10 ^ 27 * Z.abs (units m r - units m d) <= Z.abs (units m r).
Proof.
  intros HD Ht Hc Hm.
  destruct (Dfix_half_ulp d r HD) as [[H0 _]|[He Hh]]; [contradiction|].
  split; [lia|].
  rewrite (units_shift (expo d) m r), (units_shift (expo d) m d) by lia.
  assert (HK : 0 < 10 ^ (expo d - m)) by (apply pow10_pos; lia).
  set (K := 10 ^ (expo d - m)) in *.
  replace (units (expo d) r * K - units (expo d) d * K)
    with ((units (expo d) r - units (expo d) d) * K) by lia.
  rewrite !Z.abs_mul, (Z.abs_eq K) by lia. rewrite !Z.mul_assoc.
  apply Z.mul_le_mono_nonneg_r; [lia|].
  unfold units. rewrite Z.sub_diag, Z.pow_0_r, Z.mul_1_r.
  destruct (Z.eq_dec (expo r) (expo d)) as [E|E].
  - rewrite E, Z.sub_diag, Z.pow_0_r, Z.mul_1_r in *. lia.
  - pose proof (Dfix_full_digits d r HD ltac:(lia) Ht) as Hfull.
    assert (Hp : 0 < 10 ^ (expo r - expo d)) by (apply pow10_pos; lia).
    set (P := 10 ^ (expo r - expo d)) in *.
    rewrite Z.abs_mul, (Z.abs_eq P) by lia.
    assert (10 ^ 27 * P <= Z.abs (coef r) * P) by (apply Z.mul_le_mono_nonneg_r; lia).
    lia.
Qed.

(** A level against the exact product: when the power is within one part
    in [10 ^ 27] of [e], the rounded product is within two of [l * e]. *)
Lemma level_rel l p e r :
  Dmul l p = Ok r -> Etiny < expo r -> rel_err_le 1 p e ->
  rel_err_le 2 r (Dmul_exact l e).
Proof.
  intros Hm Ht Hp.
  set (mp := Z.min (expo p) (expo e)).
  apply (proj1 (rel_err_le_at mp 1 p e ltac:(unfold mp; lia) ltac:(unfold mp; lia))) in Hp.
  destruct (Z.eq_dec (coef l * coef p) 0) as [H0|H0].
  - (* the product is zero *)
    assert (Hr : coef r = 0).
    { unfold Dmul, Dfix in Hm. cbn [coef expo] in Hm. rewrite H0 in Hm.
      cbn in Hm. injection Hm as <-. reflexivity. }
    assert (He : coef l * coef e = 0).
    { destruct (Z.eq_dec (coef l) 0) as [->|Hl]; [reflexivity|].
      assert (Hcp : coef p = 0) by nia.
      unfold units in Hp. rewrite Hcp in Hp.
      assert (0 < 10 ^ (expo e - mp)) by (apply pow10_pos; unfold mp; lia).
      assert (coef e = 0) by nia. nia. }
    unfold rel_err_le, units, Dmul_exact. cbn [coef expo]. rewrite Hr, He, !Z.mul_0_l.
    rewrite Z.sub_diag. cbn [Z.abs]. lia.
  - destruct (Dfix_rel (expo l + mp) _ r Hm Ht H0) as [Hle Hrel];
      [cbn [expo]; unfold mp; lia|].
    apply (rel_err_le_at (expo l + mp)); [exact Hle|unfold Dmul_exact; cbn [expo]; unfold mp; lia|].
    change (mkDecimal (coef l * coef p) (expo l + expo p)) with (Dmul_exact l p) in Hrel.
    rewrite (units_Dmul_exact (expo l) mp l p) in Hrel by (unfold mp; lia).
    rewrite (units_Dmul_exact (expo l) mp l e) by (unfold mp; lia).
    assert (HL : units (expo l) l = coef l).
    { unfold units. rewrite Z.sub_diag, Z.pow_0_r. lia. }
    rewrite HL in *.
    set (R := units (expo l + mp) r) in *.
    set (P := units mp p) in *. set (E := units mp e) in *.
    assert (HA : 10 ^ 27 * Z.abs (coef l * P - coef l * E) <= Z.abs (coef l * P)).
    { replace (coef l * P - coef l * E) with (coef l * (P - E)) by lia.
      rewrite !Z.abs_mul.
      replace (10 ^ 27 * (Z.abs (coef l) * Z.abs (P - E)))
        with (Z.abs (coef l) * (10 ^ 27 * Z.abs (P - E))) by lia.
      apply Z.mul_le_mono_nonneg_l; lia. }
    set (A := coef l * P) in *. set (B := coef l * E) in *.
    change (10 ^ 27) with 1000000000000000000000000000 in *. lia.
Qed.

(** Two neighbours: levels within two parts in [10 ^ 27] of [l * e] and of
    [l * (x * e)] have ratio [x] up to five parts in [10 ^ 27]. *)
Lemma neighbour_rel x l e a b :
  rel_err_le 2 a (Dmul_exact l e) ->
  rel_err_le 2 b (Dmul_exact l (Dmul_exact x e)) ->
  rel_err_le 5 b (Dmul_exact x a).
Proof.
  intros Ha Hb.
  set (sa := Z.min (expo a) (Z.min (expo l + expo e) (expo b - expo x))).
  apply (proj1 (rel_err_le_at sa 2 a (Dmul_exact l e)
                  ltac:(unfold sa; lia) ltac:(unfold sa; cbn [expo Dmul_exact]; lia))) in Ha.
  apply (proj1 (rel_err_le_at (expo x + sa) 2 b (Dmul_exact l (Dmul_exact x e))
                  ltac:(unfold sa; lia) ltac:(unfold sa; cbn [expo Dmul_exact]; lia))) in Hb.
  apply (rel_err_le_at (expo x + sa)); [unfold sa; lia|unfold sa; cbn [expo Dmul_exact]; lia|].
  rewrite (units_Dmul_exact (expo x) sa x a) by (unfold sa; lia).
  assert (Hle : units (expo x + sa) (Dmul_exact l (Dmul_exact x e))
                = units (expo x) x * units sa (Dmul_exact l e)).
  { unfold units, Dmul_exact. cbn [coef expo].
    rewrite Z.sub_diag, Z.pow_0_r.
    replace (expo l + (expo x + expo e) - (expo x + sa)) with (expo l + expo e - sa) by lia.
    lia. }
  rewrite Hle in Hb.
  assert (HX : units (expo x) x = coef x).
  { unfold units. rewrite Z.sub_diag, Z.pow_0_r. lia. }
  rewrite HX in *.
  set (Ub := units (expo x + sa) b) in *.
  set (Ua := units sa a) in *. set (Ue := units sa (Dmul_exact l e)) in *.
  assert (HA : 10 ^ 27 * Z.abs (coef x * Ua - coef x * Ue) <= 2 * Z.abs (coef x * Ua)).
  { replace (coef x * Ua - coef x * Ue) with (coef x * (Ua - Ue)) by lia.
    rewrite !Z.abs_mul.
    replace (10 ^ 27 * (Z.abs (coef x) * Z.abs (Ua - Ue)))
      with (Z.abs (coef x) * (10 ^ 27 * Z.abs (Ua - Ue))) by lia.
    replace (2 * (Z.abs (coef x) * Z.abs Ua))
      with (Z.abs (coef x) * (2 * Z.abs Ua)) by lia.
    apply Z.mul_le_mono_nonneg_l; lia. }
  set (X := coef x * Ua) in *. set (Y := coef x * Ue) in *.
  change (10 ^ 27) with 1000000000000000000000000000 in *. lia.
Qed.

Lemma Dpow_exact_succ x i :
  0 <= i -> Dpow_exact x (i + 1) = Dmul_exact x (Dpow_exact x i).
Proof.
  intros Hi. unfold Dpow_exact, Dmul_exact. cbn [coef expo].
  rewrite Z.pow_add_r, Z.pow_1_r by lia. f_equal; lia.
Qed.

Lemma raw_levels_accuracy Dpow u l n raws ratio :
  grid_ratio Dpow u l n = Ok ratio ->
  raw_levels Dpow u l n = Ok raws ->
  Forall (fun r => Etiny < expo r) raws ->
  (forall i p, 0 <= i <= n -> Dpow ratio (Decimal_of_int i) = Ok p ->
     rel_err_le 1 p (Dpow_exact ratio i)) ->
  (forall (i : nat) r, raws !! i = Some r ->
     rel_err_le 2 r (Dmul_exact l (Dpow_exact ratio (Z.of_nat i)))) /\
  (forall (i : nat) a b, raws !! i = Some a -> raws !! S i = Some b ->
     rel_err_le 5 b (Dmul_exact ratio a)).
Proof.
  intros Hratio Hraw Htiny Hacc.
  destruct (raw_levels_inv Dpow _ _ _ _ Hraw) as (q & e & ratio' & Hq & He & Hr & HF).
  assert (ratio' = ratio).
  { unfold grid_ratio in Hratio. rewrite Hq in Hratio. cbn [mbind Result_bind] in Hratio.
    rewrite He in Hratio. cbn [mbind Result_bind] in Hratio. congruence. }
  subst ratio'.
  assert (Hlevel : forall (i : nat) r, raws !! i = Some r ->
            rel_err_le 2 r (Dmul_exact l (Dpow_exact ratio (Z.of_nat i)))).
  { intros i r Hi.
    destruct (Forall2_lookup_r _ _ _ _ _ HF Hi) as (z & Hz & p & Hp & Hm).
    apply lookup_seqZ in Hz as [-> Hlt]. rewrite Z.add_0_l in Hp.
    apply (level_rel l p _ r Hm).
    - rewrite Forall_forall in Htiny. apply Htiny. eapply list_elem_of_lookup_2, Hi.
    - apply Hacc; [lia|exact Hp]. }
  split; [exact Hlevel|].
  intros i a b Ha Hb.
  pose proof (Hlevel i a Ha) as Ga. pose proof (Hlevel (S i) b Hb) as Gb.
  rewrite Nat2Z.inj_succ, <- Z.add_1_r, Dpow_exact_succ in Gb by lia.
  exact (neighbour_rel ratio l _ a b Ga Gb).
Qed.

Lemma script_levels_not_subnormal : Forall (fun r => Etiny < expo r) script_raw_levels.
Proof. repeat constructor. Qed.

Lemma script_power_accurate i p :
  0 <= i <= 10 ->
  Dpow_cr (mkDecimal 1015534493002352455906156671 (-27)) (Decimal_of_int i) = Ok p ->
  rel_err_le 1 p (Dpow_exact (mkDecimal 1015534493002352455906156671 (-27)) i).
Proof.
  intros Hi.
  assert (Hc : i = 0 \/ i = 1 \/ i = 2 \/ i = 3 \/ i = 4 \/ i = 5 \/ i = 6 \/ i = 7 \/
               i = 8 \/ i = 9 \/ i = 10) by lia.
  destruct Hc as [->|[->|[->|[->|[->|[->|[->|[->|[->|[->| ->]]]]]]]]]];
    intros H; vm_compute in H; injection H as <-; vm_compute; discriminate.
Qed.

(** C5, as the code has it.  The raw levels are computed exactly when the
    ratio [r = (upper / lower) ** (1 / num_grids)] and each power and
    product are, and then there are [num_grids + 1] of them, level [i]
    being the product [lower * (r ** i)] in the arithmetic of the context:
    the exact product of [lower] and the power, rounded to 28 digits, so
    within half a unit of its last digit of that product.  When each power
    [r ** i] is within one part in [10 ^ 27] of the exact [r ^ i], as a
    result of 28 digits that is right to one unit of its last digit is,
    and no level has the smallest exponent of the context, every level is
    within two parts in [10 ^ 27] of the exact [lower * r ^ i], and every
    level is [r] times the level before it up to five parts in [10 ^ 27]:
    the levels are a geometric sequence up to the rounding. *)
Theorem raw_levels_closed_form Dpow u l n raws :
  (raw_levels Dpow u l n = Ok raws <->
   exists q e ratio,
     Ddiv u l = Ok q /\
     Ddiv (Decimal_of_int 1) (Decimal_of_int n) = Ok e /\
     Dpow q e = Ok ratio /\
     length raws = Z.to_nat (n + 1) /\
     forall i : nat, (i < Z.to_nat (n + 1))%nat ->
       exists p r,
         raws !! i = Some r /\
         Dpow ratio (Decimal_of_int (Z.of_nat i)) = Ok p /\
         Dmul l p = Ok r /\
         within_half_ulp (Dmul_exact l p) r) /\
  (forall ratio,
     grid_ratio Dpow u l n = Ok ratio ->
     raw_levels Dpow u l n = Ok raws ->
     Forall (fun r => Etiny < expo r) raws ->
     (forall i p, 0 <= i <= n -> Dpow ratio (Decimal_of_int i) = Ok p ->
        rel_err_le 1 p (Dpow_exact ratio i)) ->
     (forall (i : nat) r, raws !! i = Some r ->
        rel_err_le 2 r (Dmul_exact l (Dpow_exact ratio (Z.of_nat i)))) /\
     (forall (i : nat) a b, raws !! i = Some a -> raws !! S i = Some b ->
        rel_err_le 5 b (Dmul_exact ratio a))).
Proof.
  split; [|intros ratio; apply raw_levels_accuracy].
  split.
  - intros H.
    destruct (raw_levels_inv Dpow _ _ _ _ H) as (q & e & ratio & Hq & He & Hr & HF).
    exists q, e, ratio. split; [exact Hq|]. split; [exact He|]. split; [exact Hr|].
    split; [eapply raw_levels_length, H|].
    intros i Hi.
    assert (Hs : seqZ 0 (n + 1) !! i = Some (Z.of_nat i)).
    { rewrite lookup_seqZ_lt by lia. reflexivity. }
    destruct (Forall2_lookup_l _ _ _ _ _ HF Hs) as (r & Hri & p & Hp & Hm).
    exists p, r. split; [exact Hri|]. split; [exact Hp|]. split; [exact Hm|].
    apply Dfix_half_ulp. exact Hm.
  - intros (q & e & ratio & Hq & He & Hr & Hlen & Hall).
    unfold raw_levels, grid_ratio. rewrite Hq. cbn [mbind Result_bind].
    rewrite He. cbn [mbind Result_bind]. rewrite Hr. cbn [mbind Result_bind].
    apply mapM_Ok. apply Forall2_same_length_lookup. split.
    + rewrite length_seqZ. lia.
    + intros i x y Hx Hy.
      apply lookup_seqZ in Hx as [-> Hi].
      destruct (Hall i ltac:(lia)) as (p & r & Hri & Hp & Hm & _).
      assert (r = y) by congruence. subst y.
      unfold raw_level. replace (0 + Z.of_nat i) with (Z.of_nat i) by lia.
      rewrite Hp. exact Hm.
Qed.

Lemma raw_levels_closed_form_witness :
  let u := mkDecimal 7 (-1) in
  let l := mkDecimal 6 (-1) in
  let ratio := mkDecimal 1015534493002352455906156671 (-27) in
  raw_levels Dpow_cr u l 10 = Ok script_raw_levels /\
  grid_ratio Dpow_cr u l 10 = Ok ratio /\
  Forall (fun r => Etiny < expo r) script_raw_levels /\
  (forall (i : nat) r, script_raw_levels !! i = Some r ->
     rel_err_le 2 r (Dmul_exact l (Dpow_exact ratio (Z.of_nat i)))) /\
  (forall (i : nat) a b, script_raw_levels !! i = Some a ->
     script_raw_levels !! S i = Some b -> rel_err_le 5 b (Dmul_exact ratio a)).
Proof.
  intros u l ratio.
  split; [exact script_raw_levels_eq|]. split; [exact script_grid_ratio|].
  split; [exact script_levels_not_subnormal|].
  destruct (proj2 (raw_levels_closed_form Dpow_cr u l 10 script_raw_levels) ratio
              script_grid_ratio script_raw_levels_eq script_levels_not_subnormal
              script_power_accurate) as [H1 H2].
  split; [exact H1|exact H2].
Defined.

(** C5, as the specification has it, fails: in the configuration of the
    script the second raw level is the ratio times the first, but the third
    is not the ratio times the second, and the last is not the upper
    price: the ratios of adjacent raw levels are equal only up to the
    rounding of the context. *)
Lemma script_raw_levels_ratio_not_exact :
  let r := mkDecimal 1015534493002352455906156671 (-27) in
  let a := mkDecimal 6093206958014114735436940026 (-28) in
  let b := mkDecimal 6187861838865270295391597250 (-28) in
  grid_ratio Dpow_cr (mkDecimal 7 (-1)) (mkDecimal 6 (-1)) 10 = Ok r /\
  raw_levels Dpow_cr (mkDecimal 7 (-1)) (mkDecimal 6 (-1)) 10 = Ok script_raw_levels /\
  script_raw_levels !! 0%nat = Some (mkDecimal 6 (-1)) /\
  script_raw_levels !! 1%nat = Some a /\
  script_raw_levels !! 2%nat = Some b /\
  Deqb a (Dmul_exact r (mkDecimal 6 (-1))) = true /\
  Deqb b (Dmul_exact r a) = false /\
  (exists top, last script_raw_levels = Some top /\ Deqb top (mkDecimal 7 (-1)) = false).
Proof.
  intros r a b.
  split; [exact script_grid_ratio|]. split; [exact script_raw_levels_eq|].
  split; [reflexivity|]. split; [reflexivity|]. split; [reflexivity|].
  split; [vm_compute; reflexivity|]. split; [vm_compute; reflexivity|].
  eexists. split; [reflexivity|]. vm_compute. reflexivity.
Qed.

(** ** More of the maintenance loop *)

Lemma upper_Side_str s : upper (Side_str s) = Side_str s.
Proof. destruct s; reflexivity. Qed.

Lemma accepted_app tr l1 l2 : accepted tr (l1 ++ l2) = accepted tr l1 + accepted tr l2.
Proof. unfold accepted. rewrite filter_app, length_app. lia. Qed.

Lemma accepted_bounds tr l : 0 <= accepted tr l <= Z.of_nat (length l).
Proof. unfold accepted. pose proof (length_filter (fun r => has_order_id (tr r) = true) l). lia. Qed.

(** The whole state of the loop over price levels. *)
Lemma maintain_price_levels_state transport B S cp levels st :
  Forall price_level levels ->
  fold_abort (maintain_level transport (prices_of B S) cp) st levels =
  (mkCycle (c_placed st + accepted transport (request_of <$> omap (wanted B S cp) levels))
           (c_calls st ++ omap (wanted B S cp) levels)
           (c_requests st ++ (request_of <$> omap (wanted B S cp) levels)), None).
Proof.
  intros HF. revert st. induction HF as [|L levels HL _ IH]; intros st.
  - cbn [fold_abort omap list_omap fmap list_fmap]. rewrite !app_nil_r.
    unfold accepted. cbn. rewrite Z.add_0_r. destruct st; reflexivity.
  - cbn [fold_abort omap list_omap]. unfold maintain_level at 1.
    rewrite (level_action_price_level B S cp L HL).
    destruct (wanted B S cp L) as [p|] eqn:Hw; [|apply IH].
    pose proof (wanted_level _ _ _ _ _ Hw) as Hp.
    rewrite place_limit_order_price_level by (rewrite Hp; exact HL).
    rewrite upper_Side_str. fold (request_of p).
    rewrite IH. cbn [c_placed c_calls c_requests fmap list_fmap].
    rewrite <- !(assoc_L (++)). cbn [app].
    f_equal. f_equal.
    change (request_of p :: (request_of <$> omap (wanted B S cp) levels))
      with ([request_of p] ++ (request_of <$> omap (wanted B S cp) levels)).
    rewrite accepted_app.
    unfold accepted at 2. cbn [filter list_filter].
    unfold has_order_id at 2.
    destruct (transport (request_of p)) as [|[id|]]; cbn;
      destruct (decide _); try discriminate; try congruence; cbn; lia.
Qed.

Lemma omap_length_le {A B} (f : A -> option B) l : (length (omap f l) <= length l)%nat.
Proof.
  induction l as [|x l IH]; cbn [omap list_omap length]; [lia|].
  destruct (f x); cbn [length]; lia.
Qed.

Lemma grid_tick_price_levels P vars tr levels cp os :
  Forall price_level levels ->
  grid_tick P vars tr levels (Some cp) os =
  let ws := omap (wanted (open_prices P "BUY" os) (open_prices P "SELL" os) cp) levels in
  (mkVars (prices_of (open_prices P "BUY" os) (open_prices P "SELL" os))
          (0 + accepted tr (request_of <$> ws)),
   mkOutput ws (request_of <$> ws) (flat_map (order_warning P) os) None).
Proof.
  intros HF. unfold grid_tick. rewrite collect_spec.
  rewrite (maintain_price_levels_state tr _ _ cp levels (mkCycle 0 [] []) HF).
  reflexivity.
Qed.

(** X1. One pass of the maintenance loop over price levels, at a finite
    current price, on open orders whose side and price are text or absent
    and with calls of [place_limit_order] that return, ends without an
    exception.  It calls [place_limit_order] once per placement, in the
    order of the levels, and each call hands [make_signed_request] the
    parameters of a LIMIT, GTC order for 10 CRVUSDT on the side and at
    the price text of the placement; whether that request goes out is up
    to [make_signed_request] (X11).  The counter the pass reports is the
    number of those calls whose result holds an order id; it lies between
    0 and the number of placements, and there is at most one placement
    per level. *)
Theorem pass_requests_match_placements P vars tr levels cp os :
  Forall price_level levels ->
  let r := grid_tick P vars tr levels (Some cp) os in
  tick_error r.2 = None /\
  requests r.2 = request_of <$> placements r.2 /\
  placed_orders_this_cycle r.1 = accepted tr (requests r.2) /\
  0 <= placed_orders_this_cycle r.1 <= Z.of_nat (length (placements r.2)) /\
  (length (placements r.2) <= length levels)%nat.
Proof.
  intros HF. rewrite (grid_tick_price_levels P vars tr levels cp os HF).
  cbn zeta. cbn [fst snd tick_error requests placements placed_orders_this_cycle].
  split; [reflexivity|]. split; [reflexivity|]. split; [lia|].
  split.
  - pose proof (accepted_bounds tr
      (request_of <$> omap (wanted (open_prices P "BUY" os) (open_prices P "SELL" os) cp) levels)) as H.
    rewrite length_fmap in H. lia.
  - apply omap_length_le.
Qed.

Lemma omap_sublist {A B} (f g : A -> option B) l :
  (forall x y, f x = Some y -> g x = Some y) -> sublist (omap f l) (omap g l).
Proof.
  intros H. induction l as [|x l IH]; cbn [omap list_omap]; [constructor|].
  destruct (f x) as [y|] eqn:Hf.
  - rewrite (H x y Hf). constructor. exact IH.
  - destruct (g x); [constructor|]; exact IH.
Qed.

Lemma wanted_side_by_price B S cp L p :
  wanted B S cp L = Some p -> side_by_price cp L = Some p.
Proof.
  unfold wanted, side_by_price.
  destruct (Dltb L cp); [destruct (decide _); [discriminate|auto]|].
  destruct (Dgtb L cp); [destruct (decide _); [discriminate|auto]|auto].
Qed.

Lemma wanted_antitone B1 S1 B2 S2 cp L p :
  B1 ⊆ B2 -> S1 ⊆ S2 -> wanted B2 S2 cp L = Some p -> wanted B1 S1 cp L = Some p.
Proof.
  intros HB HS. unfold wanted.
  destruct (Dltb L cp).
  - destruct (decide (L ∈ B2)) as [|Hn]; [discriminate|].
    rewrite decide_False by (intros Hin; apply Hn, HB, Hin). auto.
  - destruct (Dgtb L cp); [|auto].
    destruct (decide (L ∈ S2)) as [|Hn]; [discriminate|].
    rewrite decide_False by (intros Hin; apply Hn, HS, Hin). auto.
Qed.

Lemma open_prices_mono P side os1 os2 :
  order_keys P os1 ⊆ order_keys P os2 -> open_prices P side os1 ⊆ open_prices P side os2.
Proof. intros H p. rewrite !elem_of_open_prices. apply H. Qed.

Lemma open_prices_nil P side : open_prices P side [] = ∅.
Proof. reflexivity. Qed.

(** X2. Open orders only ever suppress placements.  If every (side, price)
    pair of one snapshot of open orders is also in a second one, the
    placements for the second are a sublist of the placements for the
    first.  The placements are largest when [get_open_orders] fails: it
    then returns the empty list, and the pass calls for an order at every
    level off the current price, BUY below it and SELL above it, whatever
    rests on the exchange. *)
Theorem open_orders_only_suppress P cp levels os1 os2 :
  Forall price_level levels ->
  order_keys P os1 ⊆ order_keys P os2 ->
  sublist (reconcile P cp levels os2) (reconcile P cp levels os1) /\
  sublist (reconcile P cp levels os1) (reconcile P cp levels (get_open_orders None)) /\
  reconcile P cp levels (get_open_orders None) = omap (side_by_price cp) levels.
Proof.
  intros HF Hsub.
  rewrite !(reconcile_price_levels P cp levels _ HF).
  cbn [get_open_orders]. rewrite !open_prices_nil.
  split; [|split].
  - apply omap_sublist. intros L p.
    apply wanted_antitone; apply open_prices_mono, Hsub.
  - apply omap_sublist. intros L p.
    apply wanted_antitone; apply empty_subseteq.
  - apply list_omap_ext. apply Forall2_same_length_lookup. split; [reflexivity|].
    intros i x y Hx Hy. assert (x = y) by congruence. subst y.
    unfold wanted, side_by_price.
    destruct (Dltb x cp); [rewrite decide_False by apply not_elem_of_empty; reflexivity|].
    destruct (Dgtb x cp); [rewrite decide_False by apply not_elem_of_empty; reflexivity|].
    reflexivity.
Qed.

Lemma omap_nil_all {A B} (f : A -> option B) l :
  (forall x, x ∈ l -> f x = None) -> omap f l = [].
Proof.
  induction l as [|x l IH]; intros H; cbn [omap list_omap]; [reflexivity|].
  rewrite (H x) by (apply elem_of_cons; left; reflexivity).
  apply IH. intros y Hy. apply H. apply elem_of_cons. right. exact Hy.
Qed.

Lemma next_pass_keys P cp levels os os' :
  Forall price_level levels ->
  order_keys P os ⊆ order_keys P os' ->
  (forall pl, pl ∈ reconcile P cp levels os ->
     (Side_str (pl_side pl), pl_level pl) ∈ order_keys P os') ->
  reconcile P cp levels os' = [].
Proof.
  intros HF Hold Hnew.
  rewrite (reconcile_price_levels P cp levels os HF) in Hnew.
  rewrite (reconcile_price_levels P cp levels os' HF).
  apply omap_nil_all. intros L HL.
  assert (Hin : forall pl, wanted (open_prices P "BUY" os) (open_prices P "SELL" os) cp L = Some pl ->
                 (Side_str (pl_side pl), pl_level pl) ∈ order_keys P os').
  { intros pl Hw. apply Hnew. apply list_elem_of_omap. exists L. split; assumption. }
  unfold wanted in *.
  destruct (Dltb L cp).
  - destruct (decide (L ∈ open_prices P "BUY" os')) as [|Hn]; [reflexivity|exfalso].
    apply Hn. apply elem_of_open_prices.
    destruct (decide (L ∈ open_prices P "BUY" os)) as [Hb|Hb].
    + apply Hold. apply elem_of_open_prices, Hb.
    + exact (Hin _ eq_refl).
  - destruct (Dgtb L cp); [|reflexivity].
    destruct (decide (L ∈ open_prices P "SELL" os')) as [|Hn]; [reflexivity|exfalso].
    apply Hn. apply elem_of_open_prices.
    destruct (decide (L ∈ open_prices P "SELL" os)) as [Hb|Hb].
    + apply Hold. apply elem_of_open_prices, Hb.
    + exact (Hin _ eq_refl).
Qed.

Lemma price_on_key P side o s p :
  order_key P o = Some (s, p) ->
  price_on P side o = if decide (s = side) then Some p else None.
Proof. intros H. unfold price_on. rewrite H. reflexivity. Qed.

(** X4. An open BUY order at or above the current price, or an open SELL
    order at or below it, changes nothing: the pass neither counts it nor
    cancels it, and calls for the same placements as without it. *)
Theorem wrong_side_orders_ignored P cp levels os1 o os2 p :
  Forall price_level levels ->
  (order_key P o = Some ("BUY", p) /\ Dltb p cp = false) \/
  (order_key P o = Some ("SELL", p) /\ Dgtb p cp = false) ->
  reconcile P cp levels (os1 ++ o :: os2) = reconcile P cp levels (os1 ++ os2).
Proof.
  intros HF Hwrong.
  rewrite !(reconcile_price_levels P cp levels _ HF).
  apply list_omap_ext. apply Forall2_same_length_lookup. split; [reflexivity|].
  intros i L L' HL HL'. assert (L = L') by congruence. subst L'.
  rewrite !open_prices_app, !open_prices_cons.
  unfold wanted.
  destruct Hwrong as [[Hk Hp]|[Hk Hp]];
    rewrite !(price_on_key P _ o _ p Hk);
    rewrite ?(decide_True (P:=("BUY" = "BUY"))) by reflexivity;
    rewrite ?(decide_True (P:=("SELL" = "SELL"))) by reflexivity;
    rewrite ?(decide_False (P:=("BUY" = "SELL"))) by discriminate;
    rewrite ?(decide_False (P:=("SELL" = "BUY"))) by discriminate;
    cbn [option_set]; rewrite ?(left_id_L ∅ (∪)).
  - destruct (Dltb L cp) eqn:Hlt; [|reflexivity].
    assert (L <> p) by congruence.
    destruct (decide (L ∈ open_prices P "BUY" os1 ∪ ({[p]} ∪ open_prices P "BUY" os2))) as [Hin|Hin],
             (decide (L ∈ open_prices P "BUY" os1 ∪ open_prices P "BUY" os2)) as [Hin'|Hin'];
      try reflexivity; exfalso.
    + apply Hin'. rewrite !elem_of_union in *. rewrite elem_of_singleton in Hin. tauto.
    + apply Hin. rewrite !elem_of_union in *. tauto.
  - destruct (Dltb L cp) eqn:Hlt; [reflexivity|].
    destruct (Dgtb L cp) eqn:Hgt; [|reflexivity].
    assert (L <> p) by congruence.
    destruct (decide (L ∈ open_prices P "SELL" os1 ∪ ({[p]} ∪ open_prices P "SELL" os2))) as [Hin|Hin],
             (decide (L ∈ open_prices P "SELL" os1 ∪ open_prices P "SELL" os2)) as [Hin'|Hin'];
      try reflexivity; exfalso.
    + apply Hin'. rewrite !elem_of_union in *. rewrite elem_of_singleton in Hin. tauto.
    + apply Hin. rewrite !elem_of_union in *. tauto.
Qed.

Lemma order_key_of_texts P o side L :
  price_level L -> P (Decimal_str L) = Some (Finite L) ->
  o_side o = Some (Side_str side) -> o_price o = Some (Decimal_str L) ->
  order_key P o = Some (Side_str side, L).
Proof.
  intros HL HP Hs Hp. unfold order_key, order_entry, order_price.
  rewrite Hp, Hs. cbn [from_option mbind Result_bind]. rewrite HP.
  cbn [from_option mbind Result_bind quantize_value].
  rewrite (quantize_price_level L ROUND_HALF_EVEN HL).
  cbn [fmap Result_fmap mbind Result_bind from_option].
  destruct side; reflexivity.
Qed.

(** X3. When the exchange lists, next to the orders it had, an order with
    the side and the price text of every request a pass sent, the next
    pass at the same price calls for nothing; the decimal constructor is
    assumed to read the price text of a level back as that level. *)
Theorem next_pass_places_nothing P vars tr cp levels os os' :
  Forall price_level levels ->
  Forall (fun L => P (Decimal_str L) = Some (Finite L)) levels ->
  order_keys P os ⊆ order_keys P os' ->
  Forall (fun rq => Exists (fun o => o_side o = Some (p_side rq) /\
                                     o_price o = Some (p_price rq)) os')
         (requests (grid_tick P vars tr levels (Some cp) os).2) ->
  reconcile P cp levels os' = [].
Proof.
  intros HF HP Hold Hnew.
  rewrite (grid_tick_price_levels P vars tr levels cp os HF) in Hnew.
  cbn zeta in Hnew. cbn [snd requests] in Hnew.
  apply (next_pass_keys P cp levels os os' HF Hold).
  intros pl Hpl. rewrite (reconcile_price_levels P cp levels os HF) in Hpl.
  rewrite Forall_forall in Hnew. rewrite Forall_forall in HF. rewrite Forall_forall in HP.
  destruct (proj1 (Exists_exists _ _)
              (Hnew (request_of pl) (list_elem_of_fmap_2 request_of _ _ Hpl)))
    as (o & Ho & Hs & Hp).
  cbn [request_of p_side p_price] in Hs, Hp.
  apply list_elem_of_omap in Hpl as (L & HL & Hw).
  pose proof (wanted_level _ _ _ _ _ Hw) as E. rewrite E in *.
  apply elem_of_order_keys. exists o. split; [exact Ho|].
  apply order_key_of_texts; auto.
Qed.

Lemma pass_requests_match_placements_witness :
  let levels := [mkDecimal 7000 (-4); mkDecimal 6800 (-4); mkDecimal 6500 (-4);
                 mkDecimal 6200 (-4); mkDecimal 6000 (-4)] in
  let orders := [mkOrder (Some 1) (Some "BUY") (Some "0.6000") (Some "10") (Some "NEW")] in
  let tr := fun rq => if decide (p_side rq = "BUY") then Response (Some 7) else NoResponse in
  let r := grid_tick Decimal_of_plain_str (mkVars ∅ 0) tr levels
                     (Some (mkDecimal 65 (-2))) orders in
  Forall price_level levels /\
  requests r.2 = request_of <$> placements r.2 /\
  placed_orders_this_cycle r.1 = accepted tr (requests r.2).
Proof.
  intros levels orders tr r.
  assert (H : Forall price_level levels).
  { repeat constructor; vm_compute; congruence. }
  split; [exact H|].
  destruct (pass_requests_match_placements Decimal_of_plain_str (mkVars ∅ 0) tr levels
              (mkDecimal 65 (-2)) orders H) as (_ & H2 & H3 & _).
  split; [exact H2|exact H3].
Defined.

Lemma open_orders_only_suppress_witness :
  let levels := [mkDecimal 7000 (-4); mkDecimal 6800 (-4); mkDecimal 6500 (-4);
                 mkDecimal 6200 (-4); mkDecimal 6000 (-4)] in
  let os1 := [mkOrder (Some 1) (Some "BUY") (Some "0.6000") (Some "10") (Some "NEW")] in
  let os2 := [mkOrder (Some 2) (Some "SELL") (Some "0.7") (Some "10") (Some "NEW");
              mkOrder (Some 1) (Some "BUY") (Some "0.6000") (Some "10") (Some "NEW")] in
  Forall price_level levels /\
  order_keys Decimal_of_plain_str os1 ⊆ order_keys Decimal_of_plain_str os2 /\
  sublist (reconcile Decimal_of_plain_str (mkDecimal 65 (-2)) levels os2)
          (reconcile Decimal_of_plain_str (mkDecimal 65 (-2)) levels os1).
Proof.
  intros levels os1 os2.
  assert (H : Forall price_level levels).
  { repeat constructor; vm_compute; congruence. }
  assert (Hsub : order_keys Decimal_of_plain_str os1 ⊆ order_keys Decimal_of_plain_str os2).
  { apply (bool_decide_unpack _). vm_compute. reflexivity. }
  split; [exact H|]. split; [exact Hsub|].
  exact (proj1 (open_orders_only_suppress Decimal_of_plain_str (mkDecimal 65 (-2))
                  levels os1 os2 H Hsub)).
Defined.

Lemma next_pass_places_nothing_witness :
  let levels := [mkDecimal 7000 (-4); mkDecimal 6500 (-4); mkDecimal 6000 (-4)] in
  let os := [mkOrder (Some 1) (Some "BUY") (Some "0.6000") (Some "10") (Some "NEW")] in
  let os' := [mkOrder (Some 1) (Some "BUY") (Some "0.6000") (Some "10") (Some "NEW");
              mkOrder (Some 2) (Some "SELL") (Some "0.7000") (Some "10") (Some "NEW")] in
  requests (grid_tick Decimal_of_plain_str (mkVars ∅ 0) (fun _ => Response (Some 2)) levels
                      (Some (mkDecimal 65 (-2))) os).2 =
    [mkParams "CRVUSDT" "SELL" "LIMIT" "10" "0.7000" "GTC"] /\
  reconcile Decimal_of_plain_str (mkDecimal 65 (-2)) levels os' = [].
Proof.
  intros levels os os'.
  split; [vm_compute; reflexivity|].
  apply (next_pass_places_nothing Decimal_of_plain_str (mkVars ∅ 0)
           (fun _ => Response (Some 2)) (mkDecimal 65 (-2)) levels os os').
  - repeat constructor; vm_compute; congruence.
  - repeat constructor.
  - apply (bool_decide_unpack _). vm_compute. reflexivity.
  - apply (bool_decide_unpack _). vm_compute. reflexivity.
Defined.

Lemma wrong_side_orders_ignored_witness :
  let levels := [mkDecimal 7000 (-4); mkDecimal 6800 (-4); mkDecimal 6500 (-4);
                 mkDecimal 6200 (-4); mkDecimal 6000 (-4)] in
  let o := mkOrder (Some 3) (Some "BUY") (Some "0.6800") (Some "10") (Some "NEW") in
  let os2 := [mkOrder (Some 1) (Some "BUY") (Some "0.6000") (Some "10") (Some "NEW")] in
  order_key Decimal_of_plain_str o = Some ("BUY", mkDecimal 6800 (-4)) /\
  Dltb (mkDecimal 6800 (-4)) (mkDecimal 65 (-2)) = false /\
  reconcile Decimal_of_plain_str (mkDecimal 65 (-2)) levels ([] ++ o :: os2) =
  reconcile Decimal_of_plain_str (mkDecimal 65 (-2)) levels ([] ++ os2).
Proof.
  intros levels o os2.
  assert (Hk : order_key Decimal_of_plain_str o = Some ("BUY", mkDecimal 6800 (-4))).
  { vm_compute. reflexivity. }
  assert (Hp : Dltb (mkDecimal 6800 (-4)) (mkDecimal 65 (-2)) = false) by reflexivity.
  split; [exact Hk|]. split; [exact Hp|].
  apply (wrong_side_orders_ignored Decimal_of_plain_str (mkDecimal 65 (-2)) levels [] o os2
           (mkDecimal 6800 (-4))).
  - repeat constructor; vm_compute; congruence.
  - left. split; [exact Hk|exact Hp].
Defined.

Lemma reconcile_without P cp levels os1 o os2 :
  order_key P o = None ->
  reconcile P cp levels (os1 ++ o :: os2) = reconcile P cp levels (os1 ++ os2).
Proof.
  intros Hk.
  assert (Hp : forall side, price_on P side o = None).
  { intros side. unfold price_on. rewrite Hk. reflexivity. }
  apply reconcile_same_prices;
    rewrite !open_prices_app, open_prices_cons, Hp; cbn [option_set];
    rewrite (left_id_L ∅ (∪)); reflexivity.
Qed.

(** X5. An open order whose side is absent or is not exactly BUY or SELL,
    or whose price is an infinity or a NaN, never stands for a level: the
    placements are those of the list without it.  It leaves at most one
    warning, and none at all exactly when its price is a quiet NaN on a
    side BUY or SELL: that order is dropped silently. *)
Theorem order_off_the_book_is_ignored P cp levels os1 o os2 :
  (forall side, o_side o = Some side -> side <> "BUY" /\ side <> "SELL") \/
  (exists text v, o_price o = Some text /\ P text = Some v /\ forall d, v <> Finite d) ->
  reconcile P cp levels (os1 ++ o :: os2) = reconcile P cp levels (os1 ++ os2) /\
  (length (order_warning P o) <= 1)%nat /\
  (order_warning P o = [] <->
   exists text side, o_price o = Some text /\ P text = Some (NaN false) /\
                     o_side o = Some side /\ (side = "BUY" \/ side = "SELL")).
Proof.
  intros Hoff.
  assert (H : order_key P o = None /\
              (length (order_warning P o) <= 1)%nat /\
              (order_warning P o = [] <->
               exists text side, o_price o = Some text /\ P text = Some (NaN false) /\
                                 o_side o = Some side /\ (side = "BUY" \/ side = "SELL"))).
  { unfold order_key, order_warning, order_entry, order_price.
    destruct (o_price o) as [text|] eqn:Hp; cbn [from_option mbind Result_bind].
    2:{ split; [reflexivity|]. split; [cbn; lia|]. split; [discriminate|].
        intros (? & ? & ? & _); discriminate. }
    destruct (P text) as [v|] eqn:Hv; cbn [from_option mbind Result_bind].
    2:{ split; [reflexivity|]. split; [cbn; lia|]. split; [discriminate|].
        intros (? & ? & [= <-] & ? & _); congruence. }
    assert (Hside : forall pv : DecimalValue,
              match (side ← from_option Ok (Raise KeyError) (o_side o);
                     if decide (side = "BUY" \/ side = "SELL") then Ok (side, pv)
                     else Raise KeyError) : Result (string * DecimalValue) with
              | Ok (side, pv') => pv' = pv /\ o_side o = Some side /\
                                  (side = "BUY" \/ side = "SELL")
              | Raise _ => forall side, o_side o = Some side -> side <> "BUY" /\ side <> "SELL"
              end).
    { intros pv. destruct (o_side o) as [side|]; cbn [from_option mbind Result_bind].
      - destruct (decide (side = "BUY" \/ side = "SELL")) as [Hs|Hs]; [auto|].
        intros side' [= <-]. split; intros ->; apply Hs; auto.
      - intros side'; discriminate. }
    destruct v as [d|neg|[|]]; cbn [quantize_value].
    - (* a finite price *)
      destruct Hoff as [Hbad|(text' & v' & [= <-] & Hv' & Hnf)];
        [|exfalso; rewrite Hv in Hv'; injection Hv' as <-; exact (Hnf d eq_refl)].
      destruct (quantize d PRICE_PRECISION ROUND_HALF_EVEN) as [q|e];
        cbn [fmap Result_fmap mbind Result_bind].
      + specialize (Hside (Finite q)).
        destruct (side ← from_option Ok (Raise KeyError) (o_side o);
                  if decide (side = "BUY" \/ side = "SELL") then Ok (side, Finite q)
                  else Raise KeyError) as [[side pv]|e].
        * destruct Hside as (_ & Hs & [-> | ->]); destruct (Hbad _ Hs); congruence.
        * split; [reflexivity|]. split; [cbn; lia|]. split; [discriminate|].
          intros (? & ? & [= <-] & ? & _); congruence.
      + split; [reflexivity|]. split; [cbn; lia|]. split; [discriminate|].
        intros (? & ? & [= <-] & ? & _); congruence.
    - split; [reflexivity|]. split; [cbn; lia|]. split; [discriminate|].
      intros (? & ? & [= <-] & ? & _); congruence.
    - split; [reflexivity|]. split; [cbn; lia|]. split; [discriminate|].
      intros (? & ? & [= <-] & ? & _); congruence.
    - cbn [mbind Result_bind]. specialize (Hside (NaN false)).
      destruct (side ← from_option Ok (Raise KeyError) (o_side o);
                if decide (side = "BUY" \/ side = "SELL") then Ok (side, NaN false)
                else Raise KeyError) as [[side pv]|e].
      + destruct Hside as (-> & Hs & Hbs).
        split; [reflexivity|]. split; [cbn; lia|]. split; [|reflexivity].
        intros _. exists text, side. auto.
      + split; [reflexivity|]. split; [cbn; lia|]. split; [discriminate|].
        intros (? & side & _ & _ & Hs & [-> | ->]); destruct (Hside _ Hs); congruence. }
  destruct H as (Hk & Hlen & Hiff).
  split; [apply reconcile_without, Hk|]. split; assumption.
Qed.

Lemma order_off_the_book_is_ignored_witness :
  let P := fun text => if decide (text = "NaN") then Some (NaN false)
                       else Decimal_of_plain_str text in
  let o := mkOrder (Some 3) (Some "BUY") (Some "NaN") (Some "10") (Some "NEW") in
  let os2 := [mkOrder (Some 1) (Some "BUY") (Some "0.6000") (Some "10") (Some "NEW")] in
  let levels := [mkDecimal 7000 (-4); mkDecimal 6500 (-4); mkDecimal 6000 (-4)] in
  P "NaN" = Some (NaN false) /\
  reconcile P (mkDecimal 65 (-2)) levels ([] ++ o :: os2) =
  reconcile P (mkDecimal 65 (-2)) levels ([] ++ os2) /\
  order_warning P o = [].
Proof.
  intros P o os2 levels.
  assert (HP : P "NaN" = Some (NaN false)) by reflexivity.
  assert (Hoff : (forall side, o_side o = Some side -> side <> "BUY" /\ side <> "SELL") \/
                 (exists text v, o_price o = Some text /\ P text = Some v /\
                                 forall d, v <> Finite d)).
  { right. exists "NaN", (NaN false). split; [reflexivity|]. split; [exact HP|].
    intros d; discriminate. }
  destruct (order_off_the_book_is_ignored P (mkDecimal 65 (-2)) levels [] o os2 Hoff)
    as (H1 & _ & H3).
  split; [exact HP|]. split; [exact H1|].
  apply (proj2 H3). exists "NaN", "BUY". split; [reflexivity|]. split; [exact HP|].
  split; [reflexivity|left; reflexivity].
Defined.

(** ** The snapshot as the exchange sends it *)

Lemma fold_abort_app {S A} (f : S -> A -> S * option exn) s l1 l2 :
  fold_abort f s (l1 ++ l2) =
  match fold_abort f s l1 with
  | (s1, None) => fold_abort f s1 l2
  | (s1, Some e) => (s1, Some e)
  end.
Proof.
  revert s; induction l1 as [|a l1 IH]; intros s; [reflexivity|].
  cbn [app fold_abort]. destruct (f s a) as [s' [e|]]; [reflexivity|apply IH].
Qed.

Lemma json_record_order_typed P acc o :
  json_record_order string (Decimal_of_text P) Ok acc (json_of_order o) =
  record_order P acc o.
Proof.
  unfold json_record_order, record_order, json_order_price, order_price, add_order_price,
    json_of_order, Decimal_of_text.
  cbn [j_price j_side j_orderId].
  destruct (o_price o) as [text|]; cbn [from_option mbind Result_bind]; [|reflexivity].
  destruct (P text) as [v|]; cbn [from_option mbind Result_bind]; [|reflexivity].
  destruct (quantize_value v PRICE_PRECISION) as [q|e]; cbn [mbind Result_bind];
    [|reflexivity].
  destruct (o_side o) as [side|]; cbn [from_option mbind Result_bind]; reflexivity.
Qed.

Lemma json_collect_typed P os :
  json_collect string (Decimal_of_text P) Ok (json_of_order <$> os) =
  collect_open_order_prices P os.
Proof.
  unfold json_collect, collect_open_order_prices.
  generalize (no_open_orders, @nil (option Z * exn)).
  induction os as [|o os IH]; intros acc; [reflexivity|].
  cbn [fmap list_fmap fold_abort]. rewrite json_record_order_typed.
  destruct (record_order P acc o) as [acc' [e|]]; [reflexivity|apply IH].
Qed.

(** X12. On a snapshot whose sides and prices are text, the pass on the
    JSON entries is the pass on the typed ones.  On any snapshot, the
    first entry whose price makes the decimal constructor raise an
    exception other than KeyError and InvalidOperation (TypeError, for
    [None] or a dict) ends the pass: the handler of the partition does not
    catch it, so no level is looked at and no order is placed, whatever the
    levels and the other open orders; the warnings are those of the
    entries before it. *)
Theorem untyped_price_ends_pass Json D K vars tr levels cp
    (os1 : list (JsonOrder Json)) o os2 v e :
  (forall P price os,
     json_tick string (Decimal_of_text P) Ok vars tr levels price (json_of_order <$> os) =
     grid_tick P vars tr levels price os) /\
  (j_price o = Some v -> D v = Raise e -> e <> KeyError -> e <> InvalidOperation ->
   (json_collect Json D K os1).2 = None ->
   let r := json_tick Json D K vars tr levels (Some cp) (os1 ++ o :: os2) in
   tick_error r.2 = Some e /\ placements r.2 = [] /\ requests r.2 = [] /\
   warnings r.2 = (json_collect Json D K os1).1.2 /\
   placed_orders_this_cycle r.1 = placed_orders_this_cycle vars).
Proof.
  split.
  { intros P price os. unfold json_tick, grid_tick. rewrite json_collect_typed. reflexivity. }
  intros Hp Hv He1 He2 Hos1. cbn zeta.
  assert (Hrec : forall acc, json_record_order Json D K acc o = (acc, Some e)).
  { intros acc. unfold json_record_order, json_order_price.
    rewrite Hp. cbn [from_option mbind Result_bind]. rewrite Hv. cbn [mbind Result_bind].
    destruct e; try reflexivity; contradiction. }
  unfold json_tick. unfold json_collect in *. rewrite fold_abort_app.
  destruct (fold_abort (json_record_order Json D K) (no_open_orders, []) os1)
    as [[prices warned] [e'|]]; [discriminate|].
  cbn [fold_abort]. rewrite Hrec. cbn [fst snd tick_error placements requests warnings
    placed_orders_this_cycle]. auto.
Qed.

Lemma untyped_price_ends_pass_witness :
  let D := fun v : option string =>
             match v with
             | Some text => Decimal_of_text Decimal_of_plain_str text
             | None => Raise TypeError
             end in
  let K := fun v : option string => from_option Ok (Raise KeyError) v in
  let os1 := [mkJsonOrder (Some 1) (Some (Some "BUY")) (Some (Some "abc"))] in
  let o := mkJsonOrder (Some 2) (Some (Some "BUY")) (Some None) in
  let os2 := [mkJsonOrder (Some 3) (Some (Some "SELL")) (Some (Some "0.7000"))] in
  let r := json_tick (option string) D K (mkVars ∅ 0) (fun _ => Response (Some 9))
             [mkDecimal 7000 (-4); mkDecimal 6000 (-4)] (Some (mkDecimal 65 (-2)))
             (os1 ++ o :: os2) in
  tick_error r.2 = Some TypeError /\ placements r.2 = [] /\
  warnings r.2 = [(Some 1, InvalidOperation)].
Proof.
  intros D K os1 o os2 r.
  destruct (proj2 (untyped_price_ends_pass (option string) D K (mkVars ∅ 0)
                     (fun _ => Response (Some 9))
                     [mkDecimal 7000 (-4); mkDecimal 6000 (-4)] (mkDecimal 65 (-2))
                     os1 o os2 None TypeError)
              eq_refl eq_refl ltac:(discriminate) ltac:(discriminate) eq_refl)
    as (H1 & H2 & _ & H4 & _).
  split; [exact H1|]. split; [exact H2|]. unfold r. rewrite H4. vm_compute. reflexivity.
Defined.

(** ** More of the grid level calculator *)

Lemma Dleb_at m a b :
  m <= expo a -> m <= expo b ->
  (Dleb a b = true <-> coef a * 10 ^ (expo a - m) <= coef b * 10 ^ (expo b - m)).
Proof.
  intros Ha Hb. rewrite Dleb_iff.
  set (m0 := Z.min (expo a) (expo b)).
  assert (Hm : m <= m0) by (unfold m0; lia).
  assert (HK : 0 < 10 ^ (m0 - m)) by (apply pow10_pos; lia).
  replace (expo a - m) with ((expo a - m0) + (m0 - m)) by lia.
  replace (expo b - m) with ((expo b - m0) + (m0 - m)) by lia.
  rewrite !Z.pow_add_r by (unfold m0; lia).
  rewrite !Z.mul_assoc.
  split; intros H.
  - apply Z.mul_le_mono_nonneg_r; [lia|exact H].
  - eapply Z.mul_le_mono_pos_r; [exact HK|exact H].
Qed.

Lemma Dltb_at m a b :
  m <= expo a -> m <= expo b ->
  (Dltb a b = true <-> coef a * 10 ^ (expo a - m) < coef b * 10 ^ (expo b - m)).
Proof.
  intros Ha Hb. rewrite Dltb_iff.
  set (m0 := Z.min (expo a) (expo b)).
  assert (Hm : m <= m0) by (unfold m0; lia).
  assert (HK : 0 < 10 ^ (m0 - m)) by (apply pow10_pos; lia).
  replace (expo a - m) with ((expo a - m0) + (m0 - m)) by lia.
  replace (expo b - m) with ((expo b - m0) + (m0 - m)) by lia.
  rewrite !Z.pow_add_r by (unfold m0; lia).
  rewrite !Z.mul_assoc.
  split; intros H.
  - apply Z.mul_lt_mono_pos_r; [exact HK|exact H].
  - eapply Z.mul_lt_mono_pos_r; [exact HK|exact H].
Qed.

(** Rounding down to the price quantum is monotone. *)
Lemma rescale_down_mono a b :
  0 <= coef a -> 0 <= coef b -> Dleb a b = true ->
  coef (rescale a (-4) ROUND_DOWN) <= coef (rescale b (-4) ROUND_DOWN).
Proof.
  intros Ha Hb Hab.
  destruct (rescale_down_bounds a (-4) Ha) as (_ & Hqa & _).
  destruct (rescale_down_bounds b (-4) Hb) as (_ & _ & Hqb).
  pose proof (expo_rescale a (-4) ROUND_DOWN) as Ea.
  pose proof (expo_rescale b (-4) ROUND_DOWN) as Eb.
  set (qa := rescale a (-4) ROUND_DOWN) in *.
  set (qb := rescale b (-4) ROUND_DOWN) in *.
  set (m := Z.min (-4) (Z.min (expo a) (expo b))).
  apply (Dleb_at m) in Hqa; [|unfold m; lia..].
  apply (Dleb_at m) in Hab; [|unfold m; lia..].
  apply (Dltb_at m) in Hqb; [|unfold m; cbn [expo]; lia..].
  cbn [coef expo] in Hqb. rewrite Ea in Hqa.
  assert (0 < 10 ^ (-4 - m)) by (apply pow10_pos; unfold m; lia).
  nia.
Qed.

Lemma last_distinct_from prev l :
  last (prev :: distinct_from prev l) = last (prev :: l).
Proof.
  revert prev; induction l as [|x l IH]; intros prev; [reflexivity|].
  cbn [distinct_from]. destruct (decide (x = prev)) as [->|Hne].
  - rewrite IH. rewrite !last_cons_cons. reflexivity.
  - rewrite !last_cons_cons. apply IH.
Qed.

Lemma sorted_last_least l b :
  Sorted quantum_below l -> last l = Some b ->
  forall q, q ∈ l -> coef b <= coef q.
Proof.
  induction l as [|a l IH]; intros Hs Hl q Hq; [inversion Hq|].
  apply Sorted_inv in Hs as [Hs Hhd].
  destruct l as [|a' t].
  - cbn in Hl. injection Hl as <-. apply list_elem_of_singleton in Hq as ->. lia.
  - rewrite last_cons_cons in Hl. apply HdRel_inv in Hhd. unfold quantum_below in Hhd.
    pose proof (IH Hs Hl) as IH'.
    apply elem_of_cons in Hq as [->|Hq]; [|apply IH', Hq].
    specialize (IH' a' ltac:(apply elem_of_cons; left; reflexivity)). lia.
Qed.

Lemma Dmul_one l : fits_context l -> Dmul l (mkDecimal 1 0) = Ok l.
Proof.
  intros [Hc He]. unfold Dmul. cbn [coef expo].
  rewrite Z.mul_1_r, Z.add_0_r. destruct l as [c e]. apply Dfix_id; assumption.
Qed.

Lemma quantize_down_coef d q :
  quantize d PRICE_PRECISION ROUND_DOWN = Ok q ->
  q = rescale d (-4) ROUND_DOWN.
Proof.
  intros H. apply quantize_inv in H. exact (proj1 H).
Qed.

(** X6. The lowest level the calculator returns is the lower price rounded
    down to four decimals, at most the lower price and less than one
    quantum below it.  Assumed: the power gives 1 for the exponent 0, the
    lower price fits the 28 digits of the context, and the raw levels are
    not below the lower price and lie below [10 ^ 24]. *)
Theorem lowest_level_is_lower_price Dpow u l n raws :
  (forall x y r, 0 <= coef x -> Dpow x y = Ok r -> 0 <= coef r) ->
  (forall x r, Dpow x (Decimal_of_int 0) = Ok r -> r = mkDecimal 1 0) ->
  valid_config u l n -> fits_context l ->
  raw_levels Dpow u l n = Ok raws ->
  Forall (fun r => Dleb l r = true /\ Dltb r (mkDecimal 1 24) = true) raws ->
  exists levels bottom,
    calculate_grid_levels Dpow u l n = Ok levels /\
    last levels = Some bottom /\
    quantize l PRICE_PRECISION ROUND_DOWN = Ok bottom /\
    Dleb bottom l = true /\ Dltb l (mkDecimal (coef bottom + 1) (-4)) = true.
Proof.
  intros Hnn H0 Hv Hfit Hraw Hall.
  assert (Hbelow : Forall (fun r => Dltb r (mkDecimal 1 24) = true) raws).
  { eapply Forall_impl; [exact Hall|]. intros r [_ H]. exact H. }
  pose proof (raw_levels_nonneg Dpow Hnn _ _ _ _ Hv Hraw) as Hrnn.
  destruct (calculate_grid_levels_ok Dpow Hnn u l n raws Hv Hraw Hbelow)
    as (levels & Hc & Hne & _ & Hpl & Hs & Hfrom & Hto).
  assert (Hl0 : l ∈ raws).
  { destruct (raw_levels_inv Dpow _ _ _ _ Hraw) as (q & e & ratio & _ & _ & _ & HF).
    destruct Hv as (_ & _ & Hn).
    rewrite (seqZ_cons 0 (n + 1)) in HF by lia.
    destruct raws as [|r0 raws']; [inversion HF|].
    apply Forall2_cons in HF as [(p & Hp & Hm) _].
    apply H0 in Hp. subst p. rewrite (Dmul_one l Hfit) in Hm.
    injection Hm as <-. apply elem_of_cons. left. reflexivity. }
  destruct (Hto l Hl0) as (q0 & Hq0 & Hquant).
  destruct (last levels) as [b|] eqn:Hlast.
  2:{ apply last_None in Hlast. contradiction. }
  exists levels, b. split; [exact Hc|]. split; [exact Hlast|].
  assert (Hb : b ∈ levels).
  { destruct (proj1 (last_Some levels b) Hlast) as [l' El]. rewrite El.
    apply elem_of_app. right. apply list_elem_of_singleton. reflexivity. }
  destruct (Hfrom b Hb) as (r & Hr & Hrq & _).
  rewrite Forall_forall in Hall, Hrnn, Hpl.
  destruct (Hall r Hr) as [Hlr _].
  assert (Hlnn : 0 <= coef l) by (apply Hrnn, Hl0).
  pose proof (rescale_down_mono l r Hlnn (Hrnn r Hr) Hlr) as Hmono.
  rewrite <- (quantize_down_coef _ _ Hquant), <- (quantize_down_coef _ _ Hrq) in Hmono.
  pose proof (sorted_last_least levels b Hs Hlast q0 Hq0) as Hleast.
  assert (Heq : b = q0).
  { destruct (Hpl b Hb) as [Eb _]. destruct (Hpl q0 Hq0) as [Eq _].
    destruct b as [cb eb], q0 as [cq eq0]. cbn [coef expo] in *. f_equal; lia. }
  subst q0. split; [exact Hquant|].
  destruct (Hall l Hl0) as [_ Hl24].
  destruct (quantize_price_down l Hlnn Hl24) as (a & Ha & _ & Hle & Hlt).
  assert (a = b) by congruence. subst a. split; assumption.
Qed.

Lemma Dpow_cr_zero x r : Dpow_cr x (Decimal_of_int 0) = Ok r -> r = mkDecimal 1 0.
Proof.
  unfold Dpow_cr. change (coef (Decimal_of_int 0) =? 0) with true. cbv iota.
  destruct (coef x =? 0); [discriminate|]. intros [= <-]. reflexivity.
Qed.

Lemma script_raw_levels_above :
  Forall (fun r => Dleb (mkDecimal 6 (-1)) r = true /\ Dltb r (mkDecimal 1 24) = true)
         script_raw_levels.
Proof. repeat constructor. Qed.

Lemma lowest_level_is_lower_price_witness :
  valid_config (mkDecimal 7 (-1)) (mkDecimal 6 (-1)) 10 /\
  fits_context (mkDecimal 6 (-1)) /\
  raw_levels Dpow_cr (mkDecimal 7 (-1)) (mkDecimal 6 (-1)) 10 = Ok script_raw_levels /\
  exists levels bottom,
    calculate_grid_levels Dpow_cr (mkDecimal 7 (-1)) (mkDecimal 6 (-1)) 10 = Ok levels /\
    last levels = Some bottom /\
    quantize (mkDecimal 6 (-1)) PRICE_PRECISION ROUND_DOWN = Ok bottom.
Proof.
  assert (Hfit : fits_context (mkDecimal 6 (-1))).
  { split; [reflexivity|]. split; discriminate. }
  split; [exact script_valid|]. split; [exact Hfit|]. split; [exact script_raw_levels_eq|].
  destruct (lowest_level_is_lower_price Dpow_cr (mkDecimal 7 (-1)) (mkDecimal 6 (-1)) 10
              script_raw_levels Dpow_cr_nonneg Dpow_cr_zero script_valid Hfit
              script_raw_levels_eq script_raw_levels_above)
    as (levels & bottom & H1 & H2 & H3 & _).
  exists levels, bottom. auto.
Defined.

(** What a returned list is made of. *)
Lemma calculate_grid_levels_Ok_inv Dpow u l n levels :
  (forall x y r, 0 <= coef x -> Dpow x y = Ok r -> 0 <= coef r) ->
  calculate_grid_levels Dpow u l n = Ok levels ->
  levels = [] \/
  (valid_config u l n /\
   exists raws formatted x rest,
     raw_levels Dpow u l n = Ok raws /\
     Forall2 (fun r q => quantize r PRICE_PRECISION ROUND_DOWN = Ok q) raws formatted /\
     Forall price_level formatted /\
     sorted_reverse formatted = x :: rest /\
     levels = x :: distinct_from x rest).
Proof.
  intros Hnn H.
  destruct (decide (invalid_range u l n)) as [Hi|Hv].
  { rewrite (calculate_grid_levels_invalid Dpow u l n Hi) in H. left. congruence. }
  apply valid_not_invalid in Hv.
  rewrite (calculate_grid_levels_valid Dpow u l n Hv) in H.
  destruct (raw_levels Dpow u l n) as [raws|e] eqn:Hraw.
  2:{ left. destruct e; congruence. }
  destruct (mapM (fun lvl => quantize lvl PRICE_PRECISION ROUND_DOWN) raws)
    as [formatted|e] eqn:Hf; cbn [mbind Result_bind] in H; [|discriminate].
  rewrite tolerance_eq in H. cbn [mbind Result_bind] in H.
  apply mapM_Ok in Hf.
  pose proof (raw_levels_nonneg Dpow Hnn _ _ _ _ Hv Hraw) as Hrnn.
  assert (Hpl : Forall price_level formatted).
  { clear H Hraw. induction Hf as [|r q raws formatted Hq _ IH]; [constructor|].
    apply Forall_cons in Hrnn as [Hr Hrnn]. constructor; [|apply IH, Hrnn].
    destruct (quantize_inv _ _ _ _ Hq) as (E & Habs & Hexp).
    destruct (rescale_down_bounds r (-4) Hr) as (Hq0 & _).
    change (expo PRICE_PRECISION) with (-4) in *. rewrite <- E in Hq0.
    split; [exact Hexp|]. lia. }
  destruct (sorted_reverse formatted) as [|x rest] eqn:Hsr.
  { left. cbn in H. congruence. }
  right. split; [exact Hv|]. exists raws, formatted, x, rest.
  assert (Hpl' : Forall price_level (x :: rest)).
  { rewrite <- Hsr, sorted_reverse_perm. exact Hpl. }
  apply Forall_cons in Hpl' as [Hx Hrest].
  cbn [unique_levels] in H. rewrite (unique_from_price_levels x rest Hx Hrest) in H.
  cbn [mbind Result_bind mret Result_ret] in H.
  repeat split; try assumption. injection H as <-. reflexivity.
Qed.

Lemma calculated_price_levels Dpow u l n levels :
  (forall x y r, 0 <= coef x -> Dpow x y = Ok r -> 0 <= coef r) ->
  calculate_grid_levels Dpow u l n = Ok levels -> Forall price_level levels.
Proof.
  intros Hnn H.
  destruct (calculate_grid_levels_Ok_inv Dpow u l n levels Hnn H)
    as [->|(_ & raws & formatted & x & rest & _ & _ & Hpl & Hsr & ->)]; [constructor|].
  assert (Hpl' : Forall price_level (x :: rest)).
  { rewrite <- Hsr, sorted_reverse_perm. exact Hpl. }
  rewrite Forall_forall in Hpl'. apply Forall_forall. intros q Hq.
  apply Hpl'. apply elem_of_cons in Hq as [->|Hq]; [left|right].
  eapply distinct_from_subset, Hq.
Qed.

(** X8. Whatever list the calculator returns is a list of price levels
    (four decimals, non-negative, at most 28 digits).  So a pass of the
    maintenance loop over it, at any finite current price, on any open
    orders whose side and price are text or absent and with calls of
    [place_limit_order] that return, ends without an exception, calls for
    orders at returned levels only, and calls [place_limit_order] once for
    each with the parameters of X1. *)
Theorem calculated_levels_pass_completes Dpow P vars tr u l n levels cp os :
  (forall x y r, 0 <= coef x -> Dpow x y = Ok r -> 0 <= coef r) ->
  calculate_grid_levels Dpow u l n = Ok levels ->
  Forall price_level levels /\
  let r := grid_tick P vars tr levels (Some cp) os in
  tick_error r.2 = None /\
  Forall (fun p => pl_level p ∈ levels) (placements r.2) /\
  requests r.2 = request_of <$> placements r.2.
Proof.
  intros Hnn H.
  pose proof (calculated_price_levels Dpow u l n levels Hnn H) as HF.
  split; [exact HF|].
  rewrite (grid_tick_price_levels P vars tr levels cp os HF).
  cbn zeta. cbn [snd tick_error placements requests].
  split; [reflexivity|]. split; [|reflexivity].
  apply Forall_forall. intros p Hp.
  apply list_elem_of_omap in Hp as (L & HL & Hw).
  rewrite (wanted_level _ _ _ _ _ Hw). exact HL.
Qed.

Lemma calculated_levels_pass_completes_witness :
  calculate_grid_levels Dpow_cr (mkDecimal 7 (-1)) (mkDecimal 3 (-1)) 1 =
    Ok [mkDecimal 6999 (-4); mkDecimal 3000 (-4)] /\
  tick_error (grid_tick Decimal_of_plain_str (mkVars ∅ 0) (fun _ => NoResponse)
                [mkDecimal 6999 (-4); mkDecimal 3000 (-4)] (Some (mkDecimal 5 (-1)))
                [mkOrder (Some 1) (Some "BUY") (Some "0.3") None None]).2 = None.
Proof.
  assert (H : calculate_grid_levels Dpow_cr (mkDecimal 7 (-1)) (mkDecimal 3 (-1)) 1 =
              Ok [mkDecimal 6999 (-4); mkDecimal 3000 (-4)]) by (vm_compute; reflexivity).
  split; [exact H|].
  exact (proj1 (proj2 (calculated_levels_pass_completes Dpow_cr Decimal_of_plain_str
                         (mkVars ∅ 0) (fun _ => NoResponse)
                         (mkDecimal 7 (-1)) (mkDecimal 3 (-1)) 1 _ (mkDecimal 5 (-1))
                         [mkOrder (Some 1) (Some "BUY") (Some "0.3") None None]
                         Dpow_cr_nonneg H))).
Defined.

Lemma quantum_below_NoDup l : Sorted quantum_below l -> NoDup l.
Proof.
  intros Hs.
  assert (Htr : Transitive quantum_below).
  { intros a b c. unfold quantum_below. lia. }
  apply Sorted_StronglySorted in Hs; [|exact Htr].
  induction Hs as [|a l Hs IH Hall]; constructor; [|exact IH].
  intros Ha. rewrite Forall_forall in Hall. specialize (Hall a Ha).
  unfold quantum_below in Hall. lia.
Qed.

(** X7. For a valid configuration whose raw levels are computed and lie
    below [10 ^ 24], the calculator returns all [num_grids + 1] levels
    exactly when no two raw levels round down to the same price of four
    decimals. *)
Theorem all_levels_kept_iff Dpow u l n raws :
  (forall x y r, 0 <= coef x -> Dpow x y = Ok r -> 0 <= coef r) ->
  valid_config u l n ->
  raw_levels Dpow u l n = Ok raws ->
  Forall (fun r => Dltb r (mkDecimal 1 24) = true) raws ->
  exists levels,
    calculate_grid_levels Dpow u l n = Ok levels /\
    (length levels = Z.to_nat (n + 1) <->
     NoDup ((fun r => rescale r (-4) ROUND_DOWN) <$> raws)).
Proof.
  intros Hnn Hv Hraw Hb.
  destruct (calculate_grid_levels_ok Dpow Hnn u l n raws Hv Hraw Hb)
    as (levels & Hc & _ & _ & _ & Hs & Hfrom & Hto).
  exists levels. split; [exact Hc|].
  pose proof (raw_levels_length Dpow _ _ _ _ Hraw) as Hlen.
  pose proof (quantum_below_NoDup levels Hs) as Hnd.
  set (formatted := (fun r => rescale r (-4) ROUND_DOWN) <$> raws).
  assert (Hflen : length formatted = Z.to_nat (n + 1)).
  { unfold formatted. rewrite length_fmap. exact Hlen. }
  assert (Hsame : forall q, q ∈ levels <-> q ∈ formatted).
  { intros q. unfold formatted. rewrite list_elem_of_fmap. split.
    - intros Hq. destruct (Hfrom q Hq) as (r & Hr & Hqr & _).
      exists r. split; [exact (proj1 (quantize_inv _ _ _ _ Hqr))|exact Hr].
    - intros (r & -> & Hr). destruct (Hto r Hr) as (q & Hq & Hqr).
      pose proof (proj1 (quantize_inv _ _ _ _ Hqr)) as E.
      change (expo PRICE_PRECISION) with (-4) in E. rewrite <- E. exact Hq. }
  split.
  - intros Hl.
    assert (Hsub : levels ⊆+ formatted).
    { apply NoDup_submseteq; [exact Hnd|]. intros q. apply Hsame. }
    apply submseteq_length_Permutation in Hsub; [|lia].
    rewrite <- Hsub. exact Hnd.
  - intros Hf. rewrite <- Hflen. apply Permutation_length.
    apply NoDup_Permutation; assumption.
Qed.

Lemma all_levels_kept_iff_witness :
  valid_config (mkDecimal 7 (-1)) (mkDecimal 6 (-1)) 10 /\
  raw_levels Dpow_cr (mkDecimal 7 (-1)) (mkDecimal 6 (-1)) 10 = Ok script_raw_levels /\
  NoDup ((fun r => rescale r (-4) ROUND_DOWN) <$> script_raw_levels) /\
  exists levels,
    calculate_grid_levels Dpow_cr (mkDecimal 7 (-1)) (mkDecimal 6 (-1)) 10 = Ok levels /\
    length levels = 11%nat.
Proof.
  assert (Hnd : NoDup ((fun r => rescale r (-4) ROUND_DOWN) <$> script_raw_levels)).
  { apply (bool_decide_unpack _). vm_compute. reflexivity. }
  split; [exact script_valid|]. split; [exact script_raw_levels_eq|]. split; [exact Hnd|].
  destruct (all_levels_kept_iff Dpow_cr (mkDecimal 7 (-1)) (mkDecimal 6 (-1)) 10
              script_raw_levels Dpow_cr_nonneg script_valid script_raw_levels_eq
              script_raw_levels_below) as (levels & Hc & Hiff).
  exists levels. split; [exact Hc|]. exact (proj2 Hiff Hnd).
Defined.

(** ** Signed requests *)

Lemma str_compare_refl a : OrdersEx.String_as_OT.compare a a = Eq.
Proof.
  destruct (OrdersEx.String_as_OT.compare_spec a a) as [_|H|H]; [reflexivity|..];
    exfalso; exact (irreflexivity OrdersEx.String_as_OT.lt a H).
Qed.

Lemma str_compare_lt_gt a b :
  OrdersEx.String_as_OT.compare a b = Gt <-> OrdersEx.String_as_OT.compare b a = Lt.
Proof.
  destruct (OrdersEx.String_as_OT.compare_spec a b) as [->|H|H].
  - rewrite str_compare_refl. split; discriminate.
  - split; [discriminate|]. intros H'. exfalso.
    exact (irreflexivity OrdersEx.String_as_OT.lt a (transitivity H H')).
  - split; [intros _; exact H|reflexivity].
Qed.

#[global] Instance str_le_total : Total str_le.
Proof.
  intros a b. unfold str_le.
  destruct (OrdersEx.String_as_OT.compare a b) eqn:E; [left; discriminate..|right].
  apply str_compare_lt_gt in E. rewrite E. discriminate.
Qed.

Lemma str_le_lt_eq a b : str_le a b <-> str_lt a b \/ a = b.
Proof.
  unfold str_le, str_lt.
  destruct (OrdersEx.String_as_OT.compare_spec a b) as [->|H|H].
  - split; [right; reflexivity|discriminate].
  - split; [left; reflexivity|discriminate].
  - split; [congruence|]. intros [H'| ->]; [discriminate|].
    exfalso. exact (irreflexivity OrdersEx.String_as_OT.lt b H).
Qed.

#[global] Instance str_lt_trans : Transitive str_lt.
Proof. intros a b c. apply (@transitivity _ _ (@StrictOrder_Transitive _ _ OrdersEx.String_as_OT.lt_strorder)). Qed.

#[global] Instance str_le_trans : Transitive str_le.
Proof.
  intros a b c. rewrite !str_le_lt_eq. intros [H1| ->] [H2| ->]; auto.
  left. exact (transitivity H1 H2).
Qed.

Lemma str_lt_irrefl a : ~ str_lt a a.
Proof. unfold str_lt. rewrite str_compare_refl. discriminate. Qed.

Lemma str_le_antisym a b : str_le a b -> str_le b a -> a = b.
Proof.
  rewrite !str_le_lt_eq. intros [H1| ->] [H2|H2]; auto.
  exfalso. exact (str_lt_irrefl a (transitivity H1 H2)).
Qed.

#[global] Instance item_le_total : Total item_le.
Proof. intros x y. apply (total str_le). Qed.

#[global] Instance item_le_trans : Transitive item_le.
Proof. intros x y z. apply (transitivity (R:=str_le)). Qed.


Lemma sorted_items_perm m : sorted_items m ≡ₚ map_to_list m.
Proof. apply merge_sort_Permutation. Qed.

Lemma elem_of_sorted_items m k v : (k, v) ∈ sorted_items m <-> m !! k = Some v.
Proof. rewrite sorted_items_perm. apply elem_of_map_to_list. Qed.

Lemma sorted_items_NoDup m : NoDup (sorted_items m).*1.
Proof. rewrite sorted_items_perm. apply NoDup_fst_map_to_list. Qed.

Lemma sorted_strict (l : list (string * string)) :
  NoDup l.*1 -> StronglySorted item_le l -> StronglySorted key_lt l.
Proof.
  induction l as [|x l IH]; intros Hnd Hs; [constructor|].
  rewrite fmap_cons in Hnd. apply NoDup_cons in Hnd as [Hx Hnd].
  apply StronglySorted_cons in Hs as [Hall Hs].
  constructor; [apply IH; assumption|].
  rewrite Forall_forall in *. intros y Hy.
  destruct (proj1 (str_le_lt_eq _ _) (Hall y Hy)) as [Hlt|Heq]; [exact Hlt|].
  exfalso. apply Hx. rewrite Heq. apply list_elem_of_fmap. exists y. split; [reflexivity|exact Hy].
Qed.

Lemma sorted_items_strict m : StronglySorted key_lt (sorted_items m).
Proof.
  apply sorted_strict; [apply sorted_items_NoDup|].
  apply StronglySorted_merge_sort; apply _.
Qed.

Lemma sorted_items_list_to_map (l : list (string * string)) :
  NoDup l.*1 -> sorted_items (list_to_map l) = merge_sort item_le l.
Proof.
  intros Hnd.
  apply (StronglySorted_unique_strong key_lt).
  - intros x1 x2 _ _ H1 H2. exfalso. exact (str_lt_irrefl _ (str_lt_trans _ _ _ H1 H2)).
  - apply sorted_items_strict.
  - apply sorted_strict.
    + rewrite merge_sort_Permutation. exact Hnd.
    + apply StronglySorted_merge_sort; apply _.
  - rewrite sorted_items_perm, merge_sort_Permutation.
    apply map_to_list_to_map, Hnd.
Qed.

(** *** Percent-encoding *)



Lemma all_chars_app P s1 s2 :
  all_chars P (s1 +:+ s2) = all_chars P s1 && all_chars P s2.
Proof.
  induction s1 as [|a s1 IH]; [reflexivity|].
  simpl. rewrite IH. apply andb_assoc.
Qed.

Lemma hex_digit_safe n : always_safe (hex_digit n) = true.
Proof.
  destruct n as [|p]; [reflexivity|].
  repeat (destruct p as [p|p|]; try reflexivity).
Qed.

Lemma hex_digit_inj x y :
  (x < 16)%N -> (y < 16)%N -> hex_digit x = hex_digit y -> x = y.
Proof.
  intros Hx Hy.
  assert (Hc : forall z, (z < 16)%N ->
            (z = 0 \/ z = 1 \/ z = 2 \/ z = 3 \/ z = 4 \/ z = 5 \/ z = 6 \/ z = 7 \/
             z = 8 \/ z = 9 \/ z = 10 \/ z = 11 \/ z = 12 \/ z = 13 \/ z = 14 \/ z = 15)%N)
    by (intros; lia).
  destruct (Hc x Hx) as [->|[->|[->|[->|[->|[->|[->|[->|[->|[->|[->|[->|[->|[->|[->| ->]]]]]]]]]]]]]]];
  destruct (Hc y Hy) as [->|[->|[->|[->|[->|[->|[->|[->|[->|[->|[->|[->|[->|[->|[->| ->]]]]]]]]]]]]]]];
  cbn; intros H; try reflexivity; discriminate H.
Qed.

Lemma quote_byte_cases a :
  (always_safe a = true /\ quote_byte a = String a EmptyString) \/
  (always_safe a = false /\ a = " "%char /\ quote_byte a = "+") \/
  (always_safe a = false /\ a <> " "%char /\
   quote_byte a = String "%"%char
       (String (hex_digit (N_of_ascii a / 16))
          (String (hex_digit (N_of_ascii a mod 16)) EmptyString))).
Proof.
  unfold quote_byte. destruct (always_safe a) eqn:Hs; [left; auto|right].
  destruct (Ascii.eqb_spec a " "%char) as [->|Hne]; [left|right]; auto.
Qed.

Lemma quote_byte_chars a : all_chars url_char (quote_byte a) = true.
Proof.
  destruct (quote_byte_cases a) as [[Hs ->]|[(_ & _ & ->)|(_ & _ & ->)]].
  - cbn [all_chars]. unfold url_char. rewrite Hs. reflexivity.
  - reflexivity.
  - cbn [all_chars]. unfold url_char at 2 3. rewrite !hex_digit_safe. reflexivity.
Qed.

Lemma quote_plus_chars s : all_chars url_char (quote_plus s) = true.
Proof.
  induction s as [|a s IH]; [reflexivity|].
  cbn [quote_plus]. rewrite all_chars_app, quote_byte_chars, IH. reflexivity.
Qed.

Lemma ascii_of_parts a b :
  (N_of_ascii a / 16 = N_of_ascii b / 16)%N ->
  (N_of_ascii a mod 16 = N_of_ascii b mod 16)%N -> a = b.
Proof.
  intros Hd Hm.
  rewrite <- (ascii_N_embedding a), <- (ascii_N_embedding b). f_equal.
  rewrite (N.div_mod (N_of_ascii a) 16), (N.div_mod (N_of_ascii b) 16) by discriminate.
  rewrite Hd, Hm. reflexivity.
Qed.

Lemma quote_byte_inj_app a1 a2 r1 r2 :
  quote_byte a1 +:+ r1 = quote_byte a2 +:+ r2 -> a1 = a2 /\ r1 = r2.
Proof.
  assert (Hb : forall a, (N_of_ascii a / 16 < 16)%N /\ (N_of_ascii a mod 16 < 16)%N).
  { intros a. pose proof (N_ascii_bounded a). split.
    - apply N.Div0.div_lt_upper_bound. exact H.
    - apply N.mod_lt. discriminate. }
  destruct (quote_byte_cases a1) as [[Hs1 ->]|[(Hs1 & E1 & ->)|(Hs1 & E1 & ->)]];
  destruct (quote_byte_cases a2) as [[Hs2 ->]|[(Hs2 & E2 & ->)|(Hs2 & E2 & ->)]];
  cbn [String.append]; intros H; injection H as H; subst;
    try (exfalso; vm_compute in Hs1; discriminate Hs1);
    try (exfalso; vm_compute in Hs2; discriminate Hs2);
    try discriminate; auto.
  destruct (Hb a1) as [? ?], (Hb a2) as [? ?].
  split; [|assumption].
  apply ascii_of_parts; apply hex_digit_inj; assumption.
Qed.

Lemma quote_plus_inj s1 s2 : quote_plus s1 = quote_plus s2 -> s1 = s2.
Proof.
  revert s2; induction s1 as [|a1 s1 IH]; intros [|a2 s2]; cbn [quote_plus].
  - reflexivity.
  - destruct (quote_byte_cases a2) as [[_ ->]|[(_ & _ & ->)|(_ & _ & ->)]]; discriminate.
  - destruct (quote_byte_cases a1) as [[_ ->]|[(_ & _ & ->)|(_ & _ & ->)]]; discriminate.
  - intros H. apply quote_byte_inj_app in H as [-> H]. f_equal. apply IH, H.
Qed.

(** *** The query string *)


Lemma str_app_assoc (a b c : string) : (a +:+ b) +:+ c = a +:+ (b +:+ c).
Proof.
  induction a as [|x a IH]; [reflexivity|].
  change (String x ((a +:+ b) +:+ c) = String x (a +:+ (b +:+ c))).
  f_equal. exact IH.
Qed.

Lemma url_char_not c s :
  url_char c = false -> all_chars url_char s = true ->
  forall u r, s <> u +:+ String c r.
Proof.
  intros Hc. induction s as [|a s IH]; intros Hs [|b u] r; simpl; try discriminate.
  - intros [= -> _]. simpl in Hs. rewrite Hc in Hs. discriminate.
  - intros [= -> ->]. simpl in Hs. apply andb_prop in Hs as [_ Hs].
    exact (IH Hs u r eq_refl).
Qed.

Lemma split_at c u1 u2 r1 r2 :
  url_char c = false ->
  all_chars url_char u1 = true -> all_chars url_char u2 = true ->
  u1 +:+ String c r1 = u2 +:+ String c r2 -> u1 = u2 /\ r1 = r2.
Proof.
  intros Hc. revert u2; induction u1 as [|a u1 IH]; intros [|b u2] H1 H2; simpl.
  - intros [= ->]. auto.
  - intros [= <- _]. simpl in H2. rewrite Hc in H2. discriminate.
  - intros [= -> _]. simpl in H1. rewrite Hc in H1. discriminate.
  - intros [= -> H]. simpl in H1, H2.
    apply andb_prop in H1 as [_ H1]. apply andb_prop in H2 as [_ H2].
    destruct (IH u2 H1 H2 H) as [-> ->]. auto.
Qed.

Lemma pair_str_inj x y : pair_str x = pair_str y -> x = y.
Proof.
  destruct x as [k1 v1], y as [k2 v2]. unfold pair_str. cbn [fst snd].
  change ("=" +:+ quote_plus v1) with (String "="%char (quote_plus v1)).
  change ("=" +:+ quote_plus v2) with (String "="%char (quote_plus v2)).
  intros H. apply split_at in H as [Hk Hv]; [|reflexivity|apply quote_plus_chars..].
  apply quote_plus_inj in Hk, Hv. congruence.
Qed.

Lemma pair_str_no_amp x u r : pair_str x <> u +:+ String "&"%char r.
Proof.
  intros H.
  assert (Hs : exists k v, pair_str x = k +:+ String "="%char v /\
             all_chars url_char k = true /\ all_chars url_char v = true).
  { exists (quote_plus x.1), (quote_plus x.2). split; [reflexivity|].
    split; apply quote_plus_chars. }
  destruct Hs as (k & v & E & Hk & Hv). rewrite E in H. clear E.
  revert u H. induction k as [|a k IH]; intros [|b u]; simpl.
  - discriminate.
  - intros [= <- H]. exact (url_char_not "&"%char v eq_refl Hv u r H).
  - intros [= -> _]. simpl in Hk. discriminate.
  - intros [= -> H]. simpl in Hk. apply andb_prop in Hk as [_ Hk].
    exact (IH Hk u H).
Qed.

Lemma pair_str_amp_split x y r1 r2 :
  pair_str x +:+ String "&"%char r1 = pair_str y +:+ String "&"%char r2 ->
  x = y /\ r1 = r2.
Proof.
  assert (Hgen : forall k1 v1 k2 v2,
    all_chars url_char k1 = true -> all_chars url_char v1 = true ->
    all_chars url_char k2 = true -> all_chars url_char v2 = true ->
    (k1 +:+ String "="%char v1) +:+ String "&"%char r1 =
    (k2 +:+ String "="%char v2) +:+ String "&"%char r2 ->
    k1 = k2 /\ v1 = v2 /\ r1 = r2).
  { intros k1 v1 k2 v2 Hk1 Hv1 Hk2 Hv2 H.
    rewrite !str_app_assoc in H.
    change (String "="%char v1 +:+ String "&"%char r1)
      with (String "="%char (v1 +:+ String "&"%char r1)) in H.
    change (String "="%char v2 +:+ String "&"%char r2)
      with (String "="%char (v2 +:+ String "&"%char r2)) in H.
    apply split_at in H as [-> H]; [|reflexivity|assumption..].
    apply split_at in H as [-> ->]; [|reflexivity|assumption..]. auto. }
  intros H.
  destruct (Hgen (quote_plus x.1) (quote_plus x.2) (quote_plus y.1) (quote_plus y.2))
    as (Hk & Hv & Hr); try apply quote_plus_chars; [exact H|].
  apply quote_plus_inj in Hk, Hv. split; [|exact Hr].
  destruct x, y; cbn [fst snd] in *; congruence.
Qed.

Lemma concat_cons_cons sep x y l :
  String.concat sep (x :: y :: l) = x +:+ sep +:+ String.concat sep (y :: l).
Proof. reflexivity. Qed.

Lemma urlencode_inj l1 l2 : urlencode l1 = urlencode l2 -> l1 = l2.
Proof.
  unfold urlencode. fold pair_str.
  revert l2; induction l1 as [|x1 l1 IH]; intros [|x2 l2].
  - reflexivity.
  - destruct l2 as [|y2 l2]; cbn [fmap list_fmap]; [cbn [String.concat]|rewrite concat_cons_cons];
      intros H; exfalso; symmetry in H.
    + unfold pair_str in H. destruct (quote_plus x2.1); discriminate.
    + unfold pair_str in H. destruct (quote_plus x2.1); discriminate.
  - destruct l1 as [|y1 l1]; cbn [fmap list_fmap]; [cbn [String.concat]|rewrite concat_cons_cons];
      intros H; exfalso.
    + unfold pair_str in H. destruct (quote_plus x1.1); discriminate.
    + unfold pair_str in H. destruct (quote_plus x1.1); discriminate.
  - destruct l1 as [|y1 l1], l2 as [|y2 l2]; cbn [fmap list_fmap];
      rewrite ?concat_cons_cons.
    + cbn [String.concat]. intros H. apply pair_str_inj in H. congruence.
    + cbn [String.concat]. intros H. exfalso.
      exact (pair_str_no_amp x1 _ _ H).
    + cbn [String.concat]. intros H. exfalso. symmetry in H.
      exact (pair_str_no_amp x2 _ _ H).
    + change ("&" +:+ ?s) with (String "&"%char s).
      intros H.
      change (pair_str x1 +:+ String "&"%char (String.concat "&" (pair_str <$> y1 :: l1)) =
              pair_str x2 +:+ String "&"%char (String.concat "&" (pair_str <$> y2 :: l2))) in H.
      apply pair_str_amp_split in H as [-> H]. f_equal. apply IH, H.
Qed.

(** *** Text that needs no escaping *)

Lemma quote_plus_safe s : all_chars always_safe s = true -> quote_plus s = s.
Proof.
  induction s as [|a s IH]; [reflexivity|].
  cbn [all_chars quote_plus]. intros H. apply andb_prop in H as [Ha Hs].
  unfold quote_byte. rewrite Ha, (IH Hs). reflexivity.
Qed.

Lemma pretty_N_char_safe x : always_safe (pretty_N_char x) = true.
Proof.
  destruct x as [|p]; [reflexivity|].
  repeat (destruct p as [p|p|]; try reflexivity).
Qed.

Lemma pretty_N_go_safe x s :
  all_chars always_safe s = true -> all_chars always_safe (pretty_N_go x s) = true.
Proof.
  revert s. induction (N.lt_wf_0 x) as [x _ IH]; intros s Hs.
  destruct (decide (x = 0)%N) as [->|Hx]; [rewrite pretty_N_go_0; exact Hs|].
  rewrite pretty_N_go_step by lia. apply IH.
  - apply N.div_lt; lia.
  - cbn [all_chars]. rewrite pretty_N_char_safe, Hs. reflexivity.
Qed.

Lemma pretty_N_safe (x : N) : all_chars always_safe (pretty x) = true.
Proof.
  unfold pretty, pretty_N. destruct (decide (x = 0)%N); [reflexivity|].
  apply pretty_N_go_safe. reflexivity.
Qed.

Lemma pretty_Z_safe (x : Z) : all_chars always_safe (pretty x) = true.
Proof.
  destruct x as [|p|p]; [reflexivity|apply (pretty_N_safe (Npos p))|].
  change (pretty (Z.neg p)) with ("-" +:+ pretty (Npos p)).
  rewrite all_chars_app, pretty_N_safe. reflexivity.
Qed.

Lemma zeros_safe n : all_chars always_safe (zeros n) = true.
Proof.
  induction n as [|n IH]; [reflexivity|].
  cbn [zeros]. rewrite all_chars_app, IH. reflexivity.
Qed.

Lemma substring_safe P n m s :
  all_chars P s = true -> all_chars P (String.substring n m s) = true.
Proof.
  revert n m; induction s as [|a s IH]; intros n m Hs.
  - destruct n, m; reflexivity.
  - cbn [all_chars] in Hs. apply andb_prop in Hs as [Ha Hs].
    destruct n as [|n]; cbn [String.substring].
    + destruct m as [|m]; [reflexivity|]. cbn [all_chars]. rewrite Ha. apply IH, Hs.
    + apply IH, Hs.
Qed.

(** The text of a price level is digits around one point: no sign, no
    exponent. *)
Lemma Decimal_str_price_safe d :
  price_level d -> all_chars always_safe (Decimal_str d) = true.
Proof.
  intros [He [Hc _]]. unfold Decimal_str. rewrite He.
  pose proof (pretty_N_safe (Z.to_N (Z.abs (coef d)))) as Hint.
  fold (digit_string (coef d)) in Hint.
  set (int := digit_string (coef d)) in *.
  set (len := Z.of_nat (String.length int)).
  assert (Hlen : 0 <= len) by (unfold len; lia).
  replace (coef d <? 0) with false by (symmetry; apply Z.ltb_ge; lia).
  replace ((-4 <=? 0) && (-6 <? -4 + len)) with true
    by (symmetry; apply andb_true_intro; split; [reflexivity|apply Z.ltb_lt; lia]).
  rewrite Z.eqb_refl.
  rewrite !all_chars_app.
  destruct (-4 + len <=? 0); [|destruct (len <=? -4 + len)];
    rewrite ?all_chars_app, ?zeros_safe, ?Hint, ?substring_safe by exact Hint;
    reflexivity.
Qed.

(** *** The request of an order *)

Lemma order_query_string t p :
  all_chars always_safe (p_symbol p) = true ->
  all_chars always_safe (p_side p) = true ->
  all_chars always_safe (p_type p) = true ->
  all_chars always_safe (p_quantity p) = true ->
  all_chars always_safe (p_price p) = true ->
  all_chars always_safe (p_timeInForce p) = true ->
  query_string_to_sign t (order_params p) =
  "price=" +:+ p_price p +:+ "&quantity=" +:+ p_quantity p +:+
  "&recvWindow=5000&side=" +:+ p_side p +:+ "&symbol=" +:+ p_symbol p +:+
  "&timeInForce=" +:+ p_timeInForce p +:+ "&timestamp=" +:+ pretty t +:+
  "&type=" +:+ p_type p.
Proof.
  intros H1 H2 H3 H4 H5 H6. pose proof (pretty_Z_safe t) as H7.
  unfold query_string_to_sign, params_for_signing, order_params.
  change (<["recvWindow":="5000"]> (<["timestamp":=pretty t]> (list_to_map ?l)))
    with (list_to_map (M:=gmap string string)
            (("recvWindow", "5000") :: ("timestamp", pretty t) :: l)).
  rewrite sorted_items_list_to_map.
  2:{ cbn [fmap list_fmap fst]. apply (bool_decide_unpack _). vm_compute. reflexivity. }
  revert H1 H2 H3 H4 H5 H6 H7.
  generalize (p_symbol p), (p_side p), (p_type p), (p_quantity p), (p_price p),
             (p_timeInForce p), (pretty t).
  intros sy si ty qu pr ti ts H1 H2 H3 H4 H5 H6 H7.
  assert (Hs : merge_sort item_le
                 [("recvWindow", "5000"); ("timestamp", ts); ("symbol", sy); ("side", si);
                  ("type", ty); ("quantity", qu); ("price", pr); ("timeInForce", ti)] =
               [("price", pr); ("quantity", qu); ("recvWindow", "5000"); ("side", si);
                ("symbol", sy); ("timeInForce", ti); ("timestamp", ts); ("type", ty)]).
  { vm_compute. reflexivity. }
  rewrite Hs. unfold urlencode. cbn [fmap list_fmap fst snd]. 
  rewrite !concat_cons_cons. cbn [String.concat].
  rewrite (quote_plus_safe sy H1), (quote_plus_safe si H2), (quote_plus_safe ty H3),
    (quote_plus_safe qu H4), (quote_plus_safe pr H5), (quote_plus_safe ti H6),
    (quote_plus_safe ts H7).
  change (quote_plus "price") with "price".
  change (quote_plus "quantity") with "quantity".
  change (quote_plus "recvWindow") with "recvWindow".
  change (quote_plus "5000") with "5000".
  change (quote_plus "side") with "side".
  change (quote_plus "symbol") with "symbol".
  change (quote_plus "timeInForce") with "timeInForce".
  change (quote_plus "timestamp") with "timestamp".
  change (quote_plus "type") with "type".
  rewrite !str_app_assoc. reflexivity.
Qed.

(** X9. The string [make_signed_request] signs is the encoding of the
    parameters in strictly ascending order of their keys, each key once.
    It holds recvWindow=5000 and the server time as timestamp, whatever the
    caller passed under these two keys, and every other parameter of the
    caller as passed. *)
Theorem signed_parameters_canonical t params :
  let items := sorted_items (params_for_signing t params) in
  query_string_to_sign t params = urlencode items /\
  StronglySorted key_lt items /\
  forall k v, (k, v) ∈ items <->
    (k = "recvWindow" /\ v = "5000") \/
    (k = "timestamp" /\ v = pretty t) \/
    (k <> "recvWindow" /\ k <> "timestamp" /\ params !! k = Some v).
Proof.
  cbn zeta. split; [reflexivity|]. split; [apply sorted_items_strict|].
  intros k v. rewrite elem_of_sorted_items. unfold params_for_signing.
  destruct (decide (k = "recvWindow")) as [->|Hr].
  { rewrite lookup_insert_eq. split.
    - intros [= <-]. left. auto.
    - intros [[_ ->]|[[? _]|[? _]]]; [reflexivity|discriminate|congruence]. }
  rewrite lookup_insert_ne by congruence.
  destruct (decide (k = "timestamp")) as [->|Ht].
  { rewrite lookup_insert_eq. split.
    - intros [= <-]. right. left. auto.
    - intros [[? _]|[[_ ->]|(_ & ? & _)]]; [discriminate|reflexivity|congruence]. }
  rewrite lookup_insert_ne by congruence.
  split; [intros H; right; right; auto|].
  intros [[? _]|[[? _]|(_ & _ & H)]]; [congruence..|exact H].
Qed.

(** X10. The signed string determines the request: two calls that sign the
    same string have the same server time and the same value, or none, for
    every parameter other than timestamp and recvWindow.  No text in a key
    or a value can pass for a separator: what is not a letter, a digit or
    one of [_.-~] is escaped. *)
Theorem signed_string_determines_request t1 t2 p1 p2 :
  query_string_to_sign t1 p1 = query_string_to_sign t2 p2 ->
  t1 = t2 /\
  forall k, k <> "timestamp" -> k <> "recvWindow" -> p1 !! k = p2 !! k.
Proof.
  unfold query_string_to_sign. intros H. apply urlencode_inj in H.
  assert (Hm : params_for_signing t1 p1 = params_for_signing t2 p2).
  { apply map_eq. intros k. apply option_eq. intros v.
    rewrite <- !elem_of_sorted_items, H. reflexivity. }
  split.
  - assert (Ht : params_for_signing t1 p1 !! "timestamp" =
                 params_for_signing t2 p2 !! "timestamp") by (rewrite Hm; reflexivity).
    unfold params_for_signing in Ht.
    rewrite !(lookup_insert_ne _ "recvWindow" "timestamp") in Ht by discriminate.
    rewrite !lookup_insert_eq in Ht. injection Ht as Ht.
    exact (pretty_Z_inj _ _ Ht).
  - intros k Hk1 Hk2.
    assert (Hk : params_for_signing t1 p1 !! k = params_for_signing t2 p2 !! k)
      by (rewrite Hm; reflexivity).
    unfold params_for_signing in Hk.
    rewrite !lookup_insert_ne in Hk by congruence. exact Hk.
Qed.

Lemma signed_string_determines_request_witness :
  let p1 : gmap string string :=
    <["symbol" := "CRVUSDT"]> (<["timestamp" := "1"]> ∅) in
  let p2 : gmap string string := <["symbol" := "CRVUSDT"]> ∅ in
  query_string_to_sign 1700000000000 p1 = query_string_to_sign 1700000000000 p2 /\
  p1 !! "symbol" = p2 !! "symbol".
Proof.
  intros p1 p2.
  assert (H : query_string_to_sign 1700000000000 p1 = query_string_to_sign 1700000000000 p2).
  { vm_compute. reflexivity. }
  split; [exact H|].
  apply (proj2 (signed_string_determines_request _ _ p1 p2 H)); discriminate.
Defined.

(** X11. The request of a grid order, from the loop to the wire.  For a
    price level and a side, [place_limit_order] with the quantity of the
    script sends one POST to /fapi/v1/order whose query is, in this order,
    price, quantity=10, recvWindow=5000, side, symbol=CRVUSDT,
    timeInForce=GTC, timestamp and type=LIMIT, with the price text
    unescaped, followed by the signature of exactly that query under the
    secret key; the API key goes in the header.  When the server time
    cannot be fetched nothing is sent and the result is [None]. *)
Theorem grid_order_request API_KEY SECRET_KEY hmac_sha256_hex JSON
    (send : HttpRequest -> option JSON) t L s :
  price_level L ->
  let query :=
    "price=" +:+ Decimal_str L +:+ "&quantity=10&recvWindow=5000&side=" +:+ Side_str s +:+
    "&symbol=CRVUSDT&timeInForce=GTC&timestamp=" +:+ pretty t +:+ "&type=LIMIT" in
  place_limit_order_request API_KEY SECRET_KEY hmac_sha256_hex JSON send (Some t)
    TARGET_SYMBOL (Side_str s) (Decimal_of_int ORDER_QTY_PER_GRID) L =
  Ok (send (mkRequest POST
              ("https://fapi.asterdex.com/fapi/v1/order?" +:+ query +:+ "&signature=" +:+
               hmac_sha256_hex SECRET_KEY query)
              API_KEY)) /\
  place_limit_order_request API_KEY SECRET_KEY hmac_sha256_hex JSON send None
    TARGET_SYMBOL (Side_str s) (Decimal_of_int ORDER_QTY_PER_GRID) L = Ok None.
Proof.
  intros HL. cbn zeta. unfold place_limit_order_request.
  rewrite (place_limit_order_price_level (Side_str s) L HL), upper_Side_str.
  cbn [mbind Result_bind mret Result_ret]. split; [|reflexivity].
  unfold make_signed_request.
  change (method_of "POST") with (Some POST). cbv iota.
  unfold full_url, generate_signature.
  assert (Hside : all_chars always_safe (Side_str s) = true) by (destruct s; reflexivity).
  rewrite (order_query_string t
             (mkParams TARGET_SYMBOL (Side_str s) "LIMIT" "10" (Decimal_str L) "GTC")
             eq_refl Hside eq_refl eq_refl (Decimal_str_price_safe L HL) eq_refl).
  cbn [p_symbol p_side p_type p_quantity p_price p_timeInForce].
  change TARGET_SYMBOL with "CRVUSDT". reflexivity.
Qed.

Lemma grid_order_request_witness :
  price_level (mkDecimal 6000 (-4)) /\
  place_limit_order_request "key" "secret" (fun k m => k +:+ ":" +:+ m) string
    (fun r => Some (rq_url r)) (Some 1700000000000)
    TARGET_SYMBOL "BUY" (Decimal_of_int ORDER_QTY_PER_GRID) (mkDecimal 6000 (-4)) =
  Ok (Some ("https://fapi.asterdex.com/fapi/v1/order?" +:+
            "price=0.6000&quantity=10&recvWindow=5000&side=BUY&symbol=CRVUSDT" +:+
            "&timeInForce=GTC&timestamp=1700000000000&type=LIMIT&signature=secret:" +:+
            "price=0.6000&quantity=10&recvWindow=5000&side=BUY&symbol=CRVUSDT" +:+
            "&timeInForce=GTC&timestamp=1700000000000&type=LIMIT")).
Proof.
  assert (H : price_level (mkDecimal 6000 (-4))) by (vm_compute; split; [|split]; congruence).
  split; [exact H|].
  exact (proj1 (grid_order_request "key" "secret" (fun k m => k +:+ ":" +:+ m) string
                  (fun r => Some (rq_url r)) 1700000000000 (mkDecimal 6000 (-4)) BUY H)).
Defined.
